(** * go-graphql: the executor of [resolve.go], embedded and verified

    The development follows the Go source function by function.  Go strings
    are byte strings ([string], one [ascii] per byte); Go [error] values are
    represented by their message ([err.Error()]); Go maps that the code only
    indexes are [gmap]s, maps that the code ranges over are association lists
    whose order is the order in which the range statement visits the entries
    (every statement below quantifies over that order).  Values seen through
    [reflect] are terms of [reflect.Value].  Run-time panics and exhausted fuel are
    explicit outcomes. *)

From Stdlib Require Import ZArith String Ascii List DecimalString DecimalPos DecimalZ Lia.
From stdpp Require Import base option gmap strings list.

#[local] Set Warnings "-register-all".

Local Open Scope string_scope.

(** ** Byte strings *)

Definition DQ : string := String (ascii_of_nat 34) EmptyString.
Definition BS : string := String (ascii_of_nat 92) EmptyString.

(** [quoted s] is [s] between two double quotes, nothing escaped. *)
Definition quoted (s : string) : string := DQ +:+ s +:+ DQ.

Definition byteZ (c : ascii) : Z := Z.of_N (N_of_ascii c).
Definition Zbyte (z : Z) : ascii := ascii_of_N (Z.to_N (z mod 256)).
Definition str1 (z : Z) : string := String (Zbyte z) EmptyString.

(** [strings.Join] *)
Definition strings_Join (elems : list string) (sep : string) : string :=
  String.concat sep elems.

(** [len(s) > 0] on a string *)
Definition nonempty (s : string) : bool :=
  match s with EmptyString => false | String _ _ => true end.

(** ** [unicode/utf8] *)

Module utf8.
Local Open Scope Z_scope.

Definition RuneError : Z := 65533.
Definition RuneSelf : Z := 128.
Definition MaxRune : Z := 1114111.

Definition ValidRune (r : Z) : bool :=
  ((0 <=? r) && (r <? 55296)) || ((57343 <? r) && (r <=? MaxRune)).

(** The size and the accepted range of the second byte for a leading byte
    [p0 >= 0x80] (the tables [first] and [acceptRanges]); [None] for an
    invalid leading byte. *)
Definition first (p0 : Z) : option (nat * Z * Z) :=
  if p0 <? 194 then None
  else if p0 <=? 223 then Some (2%nat, 128, 191)
  else if p0 =? 224 then Some (3%nat, 160, 191)
  else if p0 <=? 236 then Some (3%nat, 128, 191)
  else if p0 =? 237 then Some (3%nat, 128, 159)
  else if p0 <=? 239 then Some (3%nat, 128, 191)
  else if p0 =? 240 then Some (4%nat, 144, 191)
  else if p0 <=? 243 then Some (4%nat, 128, 191)
  else if p0 =? 244 then Some (4%nat, 128, 143)
  else None.

Definition cont (b : Z) : bool := (128 <=? b) && (b <=? 191).

(** [DecodeRuneInString] on a string whose first byte is [>= RuneSelf]. *)
Definition DecodeRuneInString (s : string) : Z * nat :=
  match s with
  | EmptyString => (RuneError, 0%nat)
  | String c0 rest =>
    let p0 := byteZ c0 in
    if p0 <? RuneSelf then (p0, 1%nat) else
    match first p0 with
    | None => (RuneError, 1%nat)
    | Some (sz, lo, hi) =>
      match rest with
      | EmptyString => (RuneError, 1%nat)
      | String c1 rest1 =>
        let b1 := byteZ c1 in
        if (b1 <? lo) || (hi <? b1) then (RuneError, 1%nat) else
        if (sz <=? 2)%nat
        then (Z.lor (Z.shiftl (Z.land p0 31) 6) (Z.land b1 63), 2%nat) else
        match rest1 with
        | EmptyString => (RuneError, 1%nat)
        | String c2 rest2 =>
          let b2 := byteZ c2 in
          if negb (cont b2) then (RuneError, 1%nat) else
          if (sz <=? 3)%nat
          then (Z.lor (Z.lor (Z.shiftl (Z.land p0 15) 12)
                             (Z.shiftl (Z.land b1 63) 6))
                      (Z.land b2 63), 3%nat) else
          match rest2 with
          | EmptyString => (RuneError, 1%nat)
          | String c3 _ =>
            let b3 := byteZ c3 in
            if negb (cont b3) then (RuneError, 1%nat) else
            (Z.lor (Z.lor (Z.lor (Z.shiftl (Z.land p0 7) 18)
                                 (Z.shiftl (Z.land b1 63) 12))
                          (Z.shiftl (Z.land b2 63) 6))
                   (Z.land b3 63), 4%nat)
          end
        end
      end
    end
  end.

(** [AppendRune] to the empty buffer *)
Definition EncodeRune (r : Z) : string :=
  if (0 <=? r) && (r <=? 127) then str1 r
  else if (0 <=? r) && (r <=? 2047) then
    str1 (Z.lor 192 (Z.shiftr r 6)) +:+ str1 (Z.lor 128 (Z.land r 63))
  else if negb (ValidRune r) then
    str1 239 +:+ str1 191 +:+ str1 189
  else if r <=? 65535 then
    str1 (Z.lor 224 (Z.shiftr r 12)) +:+
    str1 (Z.lor 128 (Z.land (Z.shiftr r 6) 63)) +:+
    str1 (Z.lor 128 (Z.land r 63))
  else
    str1 (Z.lor 240 (Z.shiftr r 18)) +:+
    str1 (Z.lor 128 (Z.land (Z.shiftr r 12) 63)) +:+
    str1 (Z.lor 128 (Z.land (Z.shiftr r 6) 63)) +:+
    str1 (Z.lor 128 (Z.land r 63)).
End utf8.

(** ** [strconv] and [fmt] *)

Module strconv.
Local Open Scope Z_scope.

Definition lowerhex (n : Z) : string :=
  String.substring (Z.to_nat (n mod 16)) 1 "0123456789abcdef".

(** [n] hexadecimal digits of [r], most significant first
    ([for s := 12; s >= 0; s -= 4 { lowerhex[r>>uint(s)&0xF] }]) *)
Fixpoint hexdigits (n : nat) (r : Z) : string :=
  match n with
  | O => EmptyString
  | S k => lowerhex (Z.shiftr r (4 * Z.of_nat k)) +:+ hexdigits k r
  end.

Section Quote.
(** The Unicode range tables behind [unicode.IsPrint] for runes above
    Latin-1 are data of the Go distribution. *)
Variable isPrintTable : Z -> bool.

Definition IsPrint (r : Z) : bool :=
  if r <=? 255 then
    if (32 <=? r) && (r <=? 126) then true
    else if (161 <=? r) && (r <=? 255) then negb (r =? 173)
    else false
  else isPrintTable r.

(** [appendEscapedRune] for the double-quote delimiter, neither ASCII-only
    nor graphic-only, on an empty buffer *)
Definition appendEscapedRune (r : Z) : string :=
  if (r =? 34) || (r =? 92) then BS +:+ str1 r
  else if IsPrint r then utf8.EncodeRune r
  else if r =? 7 then BS +:+ "a"
  else if r =? 8 then BS +:+ "b"
  else if r =? 12 then BS +:+ "f"
  else if r =? 10 then BS +:+ "n"
  else if r =? 13 then BS +:+ "r"
  else if r =? 9 then BS +:+ "t"
  else if r =? 11 then BS +:+ "v"
  else if (r <? 32) || (r =? 127) then
    BS +:+ "x" +:+ lowerhex (Z.shiftr r 4) +:+ lowerhex (Z.land r 15)
  else if negb (utf8.ValidRune r) then BS +:+ "u" +:+ hexdigits 4 65533
  else if r <? 65536 then BS +:+ "u" +:+ hexdigits 4 r
  else BS +:+ "U" +:+ hexdigits 8 r.

(** The loop of [appendQuotedWith]: [skip] counts the bytes of the rune
    in progress that are still to be stepped over. *)
Fixpoint quoteBody (skip : nat) (s : string) : string :=
  match s with
  | EmptyString => EmptyString
  | String c rest =>
    match skip with
    | S k => quoteBody k rest
    | O =>
      let '(r, width) :=
        if byteZ c >=? utf8.RuneSelf then utf8.DecodeRuneInString s
        else (byteZ c, 1%nat) in
      if (width =? 1)%nat && (r =? utf8.RuneError) then
        BS +:+ "x" +:+ lowerhex (Z.shiftr (byteZ c) 4)
           +:+ lowerhex (Z.land (byteZ c) 15) +:+ quoteBody O rest
      else appendEscapedRune r +:+ quoteBody (width - 1) rest
    end
  end.

(** [strconv.Quote], which is [fmt.Sprintf] with the verb q on a string *)
Definition Quote (s : string) : string := DQ +:+ quoteBody O s +:+ DQ.
End Quote.
End strconv.

(** [fmt.Sprintf] with the verb d on an integer *)
Definition fmt_d (z : Z) : string := NilZero.string_of_int (Z.to_int z).

Section GenerateResponse.
Variable isPrintTable : Z -> bool.

Definition fmt_q : string -> string := strconv.Quote isPrintTable.

(** The [for i, err := range errors] loop of [GenerateResponse]. *)
Fixpoint GenerateResponse_errors (i : nat) (errors : list string) (res : string) : string :=
  match errors with
  | [] => res
  | err :: rest =>
    let res := if (0 <? i)%nat then res +:+ "," else res in
    let res := res +:+ "{" +:+ quoted "message" +:+ ":" +:+ fmt_q err +:+ "}" in
    GenerateResponse_errors (S i) rest res
  end.

Definition GenerateResponse (data : string) (errors : list string) : string :=
  let res := "{" +:+ quoted "data" +:+ ":" +:+ data in
  let res :=
    if (0 <? length errors)%nat then
      let res := res +:+ quoted "errors" +:+ ":[" in
      let res := GenerateResponse_errors O errors res in
      res +:+ "]"
    else res in
  res +:+ "}".
End GenerateResponse.

(** ** Outcomes of a Go computation *)

(** A call returns ([Done]), panics at run time ([Panic], with the reason),
    or has not returned within the fuel of the model ([OutOfFuel]). *)
Inductive outcome (A : Type) : Type :=
| Done (a : A)
| Panic (reason : string)
| OutOfFuel.
Arguments Done {A} a.
Arguments Panic {A} reason.
Arguments OutOfFuel {A}.

Definition outcome_bind {A B} (o : outcome A) (k : A -> outcome B) : outcome B :=
  match o with
  | Done a => k a
  | Panic r => Panic r
  | OutOfFuel => OutOfFuel
  end.

#[global] Instance outcome_ret : MRet outcome := fun _ a => Done a.
#[global] Instance outcome_mbind : MBind outcome := fun _ _ k o => outcome_bind o k.

Definition nilDeref {A} : outcome A := Panic "invalid memory address or nil pointer dereference".
Definition indexOutOfRange {A} : outcome A := Panic "index out of range".

(** [l[i]] on a slice *)
Definition index {A} (l : list A) (i : nat) : outcome A :=
  match l !! i with
  | Some a => Done a
  | None => indexOutOfRange
  end.

(** ** [reflect] *)

Module reflect.

Inductive Kind : Set :=
| Invalid | Bool | Int | Int8 | Int16 | Int32 | Int64
| Uint | Uint8 | Uint16 | Uint32 | Uint64 | Uintptr
| Float32 | Float64 | Complex64 | Complex128
| Array | Chan | Func | Interface | Map | Ptr | Slice
| String | Struct | UnsafePointer.

#[global] Instance Kind_eq_dec : EqDecision Kind.
Proof. solve_decision. Defined.

(** The eleven integer types ([Uintptr] included), by their kind. *)
Definition isSigned (k : Kind) : bool :=
  match k with Int | Int8 | Int16 | Int32 | Int64 => true | _ => false end.
Definition isUnsigned (k : Kind) : bool :=
  match k with Uint | Uint8 | Uint16 | Uint32 | Uint64 | Uintptr => true | _ => false end.

(** Width in bits, [int], [uint] and [uintptr] being 64 bits wide. *)
Definition bits (k : Kind) : Z :=
  match k with
  | Int8 | Uint8 => 8 | Int16 | Uint16 => 16 | Int32 | Uint32 => 32
  | _ => 64
  end%Z.

(** Conversion of an integer to the integer type of kind [k]: wrap-around. *)
Definition wrap (k : Kind) (z : Z) : Z :=
  if isSigned k
  then ((z + 2 ^ (bits k - 1)) mod 2 ^ bits k - 2 ^ (bits k - 1))%Z
  else (z mod 2 ^ bits k)%Z.

Inductive Type_ : Type :=
| TBool
| TInteger (k : Kind)                         (* [k] an integer kind *)
| TFloat32
| TFloat64
| TString
| TPtr (elem : Type_)
| TSlice (elem : Type_)
| TArray (len : nat) (elem : Type_)
| TStruct (fields : list (string * Type_))
| TFunc
| TError                                      (* the interface [error] *)
| TNamed (name : string) (underlying : Type_) (* a defined type *)
| TOther (k : Kind).                          (* any other type of kind [k] *)

(** A [reflect.Value].  Floats are their IEEE 754 bit patterns; a function
    value is an index into the table of host functions; a struct carries
    the bound methods of its method set. *)
Inductive Value : Type :=
| VInvalid                                    (* the zero [reflect.Value] *)
| VBool (b : bool)
| VInt (k : Kind) (n : Z)
| VFloat32 (f : Z)
| VFloat64 (f : Z)
| VString (s : string)
| VPtr (v : Value)                            (* a non-nil pointer to [v] *)
| VNil (t : Type_)                            (* the nil value of type [t] *)
| VSlice (elem : Type_) (l : list Value)      (* a non-nil slice *)
| VArray (elem : Type_) (l : list Value)
| VStruct (fields : list (string * Value)) (methods : list (string * nat))
| VFunc (id : nat)
| VError (msg : string)                       (* a non-nil [error] *)
| VCtx                                        (* the executing [*Ctx] *)
| VNamed (name : string) (v : Value).         (* a value of a defined type *)

Fixpoint TypeKind (t : Type_) : Kind :=
  match t with
  | TBool => Bool
  | TInteger k => k
  | TFloat32 => Float32
  | TFloat64 => Float64
  | TString => String
  | TPtr _ => Ptr
  | TSlice _ => Slice
  | TArray _ _ => Array
  | TStruct _ => Struct
  | TFunc => Func
  | TError => Interface
  | TNamed _ u => TypeKind u
  | TOther k => k
  end.

(** [t.Elem()] *)
Fixpoint TypeElem (t : Type_) : outcome Type_ :=
  match t with
  | TPtr e | TSlice e | TArray _ e => Done e
  | TNamed _ u => TypeElem u
  | _ => Panic "reflect: Elem of invalid type"
  end.

(** [v.Kind()] *)
Fixpoint kind (v : Value) : Kind :=
  match v with
  | VInvalid => Invalid
  | VBool _ => Bool
  | VInt k _ => k
  | VFloat32 _ => Float32
  | VFloat64 _ => Float64
  | VString _ => String
  | VPtr _ => Ptr
  | VNil t => TypeKind t
  | VSlice _ _ => Slice
  | VArray _ _ => Array
  | VStruct _ _ => Struct
  | VFunc _ => Func
  | VError _ => Interface
  | VCtx => Ptr
  | VNamed _ v => kind v
  end.

(** [v.Type()] *)
Fixpoint type (v : Value) : outcome Type_ :=
  match v with
  | VInvalid => Panic "reflect: call of reflect.Value.Type on zero Value"
  | VBool _ => Done TBool
  | VInt k _ => Done (TInteger k)
  | VFloat32 _ => Done TFloat32
  | VFloat64 _ => Done TFloat64
  | VString _ => Done TString
  | VPtr v => t ← type v; Done (TPtr t)
  | VNil t => Done t
  | VSlice e _ => Done (TSlice e)
  | VArray e l => Done (TArray (length l) e)
  | VStruct fs _ =>
    fts ← (fix fields (fs : list (string * Value)) : outcome (list (string * Type_)) :=
             match fs with
             | [] => Done []
             | (n, f) :: rest => t ← type f; ts ← fields rest; Done ((n, t) :: ts)
             end) fs;
    Done (TStruct fts)
  | VFunc _ => Done TFunc
  | VError _ => Done TError
  | VCtx => Done (TPtr (TNamed "Ctx" (TStruct [])))
  | VNamed n v => t ← type v; Done (TNamed n t)
  end.

(** [reflect.New(t).Elem()], the zero value of type [t] *)
Fixpoint Zero (t : Type_) : Value :=
  match t with
  | TBool => VBool false
  | TInteger k => VInt k 0
  | TFloat32 => VFloat32 0
  | TFloat64 => VFloat64 0
  | TString => VString EmptyString
  | TArray n e => VArray e (replicate n (Zero e))
  | TStruct fs => VStruct (map (fun '(n, ft) => (n, Zero ft)) fs) []
  | TNamed n u => VNamed n (Zero u)
  | TPtr _ | TSlice _ | TFunc | TError | TOther _ => VNil t
  end.

(** [v.IsNil()] *)
Fixpoint IsNil (v : Value) : outcome bool :=
  match v with
  | VNil t =>
    match TypeKind t with
    | Chan | Func | Interface | Map | Ptr | Slice | UnsafePointer => Done true
    | _ => Panic "reflect: call of reflect.Value.IsNil on a value that cannot be nil"
    end
  | VPtr _ | VSlice _ _ | VFunc _ | VError _ | VCtx => Done false
  | VNamed _ v => IsNil v
  | _ => Panic "reflect: call of reflect.Value.IsNil on a value that cannot be nil"
  end.

(** [v.IsValid()] *)
Definition IsValid (v : Value) : bool :=
  match v with VInvalid => false | _ => true end.

(** [v.Elem()] on a non-nil pointer *)
Fixpoint Elem (v : Value) : outcome Value :=
  match v with
  | VPtr x => Done x
  | VNamed _ v => Elem v
  | _ => Panic "reflect: call of reflect.Value.Elem on a value that is not a pointer"
  end.

(** The elements behind [v.Len()] and [v.Index(i)] *)
Fixpoint elements (v : Value) : outcome (list Value) :=
  match v with
  | VSlice _ l | VArray _ l => Done l
  | VNil t => match TypeKind t with
              | Slice => Done []
              | _ => Panic "reflect: call of reflect.Value.Len on a value without length"
              end
  | VNamed _ v => elements v
  | _ => Panic "reflect: call of reflect.Value.Len on a value without length"
  end.

Fixpoint assoc {A} (name : string) (l : list (string * A)) : option A :=
  match l with
  | [] => None
  | (n, a) :: rest => if bool_decide (n = name) then Some a else assoc name rest
  end.

Fixpoint assoc_set {A} (name : string) (a : A) (l : list (string * A)) : list (string * A) :=
  match l with
  | [] => []
  | (n, a0) :: rest =>
    if bool_decide (n = name) then (n, a) :: rest else (n, a0) :: assoc_set name a rest
  end.

(** [v.FieldByName(name)]: the zero Value when there is no such field *)
Fixpoint FieldByName (v : Value) (name : string) : outcome Value :=
  match v with
  | VStruct fs _ => Done (default VInvalid (assoc name fs))
  | VNamed _ v => FieldByName v name
  | _ => Panic "reflect: call of reflect.Value.FieldByName on a value that is not a struct"
  end.

(** The struct [v] after an assignment through the settable Value that
    [v.FieldByName(name)] returned *)
Fixpoint SetFieldByName (v : Value) (name : string) (x : Value) : Value :=
  match v with
  | VStruct fs ms => VStruct (assoc_set name x fs) ms
  | VNamed n v => VNamed n (SetFieldByName v name x)
  | _ => v
  end.

(** [v.MethodByName(name)]: the zero Value when there is no such method *)
Fixpoint MethodByName (v : Value) (name : string) : outcome Value :=
  match v with
  | VInvalid => Panic "reflect: call of reflect.Value.MethodByName on zero Value"
  | VStruct _ ms => Done (from_option VFunc VInvalid (assoc name ms))
  | VPtr v | VNamed _ v => MethodByName v name
  | _ => Done VInvalid
  end.

(** The value [x], stored in a variable of the type of [v] ([v.Set(x)]) *)
Fixpoint Set_ (v x : Value) : Value :=
  match v with
  | VNamed n v => VNamed n (Set_ v x)
  | _ => x
  end.

Fixpoint SetInt (v : Value) (x : Z) : outcome Value :=
  match v with
  | VInt k _ => if isSigned k then Done (VInt k (wrap k x))
                else Panic "reflect: call of reflect.Value.SetInt on a value that is not an int"
  | VNamed n v => r ← SetInt v x; Done (VNamed n r)
  | _ => Panic "reflect: call of reflect.Value.SetInt on a value that is not an int"
  end.

Fixpoint SetUint (v : Value) (x : Z) : outcome Value :=
  match v with
  | VInt k _ => if isUnsigned k then Done (VInt k (wrap k x))
                else Panic "reflect: call of reflect.Value.SetUint on a value that is not a uint"
  | VNamed n v => r ← SetUint v x; Done (VNamed n r)
  | _ => Panic "reflect: call of reflect.Value.SetUint on a value that is not a uint"
  end.

Fixpoint SetString (v : Value) (x : string) : outcome Value :=
  match v with
  | VString _ => Done (VString x)
  | VNamed n v => r ← SetString v x; Done (VNamed n r)
  | _ => Panic "reflect: call of reflect.Value.SetString on a value that is not a string"
  end.

Fixpoint SetBool (v : Value) (x : bool) : outcome Value :=
  match v with
  | VBool _ => Done (VBool x)
  | VNamed n v => r ← SetBool v x; Done (VNamed n r)
  | _ => Panic "reflect: call of reflect.Value.SetBool on a value that is not a bool"
  end.

(** [v.SetFloat(x)]; [narrow] is the conversion [float32(x)]. *)
Fixpoint SetFloat (narrow : Z -> Z) (v : Value) (x : Z) : outcome Value :=
  match v with
  | VFloat32 _ => Done (VFloat32 (narrow x))
  | VFloat64 _ => Done (VFloat64 x)
  | VNamed n v => r ← SetFloat narrow v x; Done (VNamed n r)
  | _ => Panic "reflect: call of reflect.Value.SetFloat on a value that is not a float"
  end.

(** [v.String()], [v.Int()] and [v.Uint()] on a value of the right kind *)
Fixpoint scalar (v : Value) : Value :=
  match v with
  | VNamed _ v => scalar v
  | _ => v
  end.

(** Equality of two map keys of a scalar type *)
Fixpoint key_eqb (a b : Value) : bool :=
  match a, b with
  | VBool x, VBool y => bool_decide (x = y)
  | VInt k x, VInt k' y => bool_decide (k = k') && (x =? y)%Z
  | VString x, VString y => bool_decide (x = y)
  | VNamed n x, VNamed n' y => bool_decide (n = n') && key_eqb x y
  | _, _ => false
  end.

(** [m.MapIndex(key)] on a map from scalars to strings, given by its
    entries: the zero Value when the key is absent *)
Fixpoint MapIndex (m : list (Value * string)) (key : Value) : Value :=
  match m with
  | [] => VInvalid
  | (k, name) :: rest => if key_eqb k key then VString name else MapIndex rest key
  end.

(** [reflect.MakeSlice(t, n, n)] *)
Fixpoint MakeSlice (t : Type_) (n : nat) : outcome Value :=
  match t with
  | TSlice e => Done (VSlice e (replicate n (Zero e)))
  | TNamed name u => r ← MakeSlice u n; Done (VNamed name r)
  | _ => Panic "reflect.MakeSlice of non-slice type"
  end.

(** The slice [arr] with element [i] replaced ([arr.Index(i)] is settable) *)
Fixpoint SetIndex (arr : Value) (i : nat) (x : Value) : Value :=
  match arr with
  | VSlice e l => VSlice e (<[i := x]> l)
  | VArray e l => VArray e (<[i := x]> l)
  | VNamed n v => VNamed n (SetIndex v i x)
  | _ => arr
  end.

End reflect.

(** ** The parsed document *)

(** Modelled from the spec: the struct [Value] of the parser, whose
    declaration is outside [resolve.go] (a tagged literal in section 3 of the
    spec), with the fields that [matchInputValue] reads.  [valType] is
    [reflect.Int], [Float64], [String], [Bool], [Array] (a list) or [Map]
    (an object); [floatValue] is a [float64] by its bit pattern. *)
Inductive Value : Type := mkValue {
  valType : reflect.Kind;
  isVar : bool;
  isNull : bool;
  isEnum : bool;
  intValue : Z;
  floatValue : Z;
  stringValue : string;
  booleanValue : bool;
  enumValue : string;
  listValue : list Value;
  objectValue : list (string * Value)
}.

(** [Arguments], a [map[string]Value], in the order a range statement
    visits it *)
Abbreviation Arguments_ := (list (string * Value)).
Abbreviation Directives := (list (string * Arguments_)).

(** Modelled from the spec: the structs [Selection] and [Field] of the
    parser (section 3: a selection is a tagged variant of a field, a fragment
    spread and an inline fragment), with the fields that the executor reads. *)
Inductive Selection : Type :=
| SelField (field : Field)
| SelFragmentSpread (fragmentSpread_name : string)
| SelInlineFragment (inlineFragment_selection : list Selection)
with Field : Type :=
| mkField (name alias : string) (arguments : Arguments_)
          (selection : list Selection) (directives : Directives).

Definition name (f : Field) : string :=
  match f with mkField n _ _ _ _ => n end.
Definition alias (f : Field) : string :=
  match f with mkField _ a _ _ _ => a end.
Definition arguments (f : Field) : Arguments_ :=
  match f with mkField _ _ a _ _ => a end.
Definition selection (f : Field) : list Selection :=
  match f with mkField _ _ _ s _ => s end.
Definition directives (f : Field) : Directives :=
  match f with mkField _ _ _ _ d => d end.

Abbreviation SelectionSet := (list Selection).

(** Modelled from the spec: the struct behind [operator.fragment], of which
    the executor reads [selection] *)
Record InlineFragment : Type := mkInlineFragment {
  frag_selection : SelectionSet;
  onTypeConditionName : string
}.

(** Modelled from the spec: the struct [Operator] of the parser; a fragment
    definition is an operator too, with its [fragment] set. *)
Record Operator : Type := mkOperator {
  operationType : string;
  op_name : string;
  op_selection : SelectionSet;
  op_directives : option Directives;       (* [None] is the nil map *)
  fragment : option InlineFragment         (* [None] is the nil pointer *)
}.

(** ** The reflected schema *)

(** Modelled from the spec: the constants [valueType...] of the schema
    reflector (section 3 lists the seven that the executor switches on);
    [valueTypeUndefined] stands for every other value, the [default] case. *)
Inductive valueType_ : Set :=
| valueTypeUndefined
| valueTypeArray
| valueTypeObjRef
| valueTypeObj
| valueTypeData
| valueTypePtr
| valueTypeMethod
| valueTypeEnum.

#[global] Instance valueType_eq_dec : EqDecision valueType_.
Proof. solve_decision. Defined.

(** Modelled from the spec: the struct [Input] of the schema reflector,
    with the fields that [matchInputValue] reads ([isEnum] and [enumKey] carry
    the prefix [input_] here). *)
Inductive Input : Type := mkInput {
  kind : reflect.Kind;
  input_isEnum : bool;
  input_enumKey : string;
  elem : option Input;
  isStructPointers : bool;
  structName : string;
  structContent : gmap string Input;
  goFieldName : string
}.

(** Modelled from the spec: one parameter of a method ([method.ins]): the
    context, or a struct of arguments *)
Record baseInput : Type := mkBaseInput {
  isCtx : bool;
  type_ : option reflect.Type_
}.

(** Modelled from the spec: an entry of [method.inFields]: where a named
    argument goes, the parameter and the field in it *)
Record referToInput : Type := mkReferToInput {
  inputIdx : nat;
  input : Input
}.

(** Modelled from the spec: the structs [Obj] and its method meta data of
    the schema reflector (section 3), with the fields that the executor
    reads; pointers that the code tests or dereferences are options. *)
Inductive Obj : Type := mkObj {
  valueType : valueType_;
  typeName : string;
  structFieldName : string;
  objContents : gmap string Obj;
  innerContent : option Obj;
  method : option Method;
  enumKey : string;
  customObjValue : option reflect.Value
}
with Method : Type := mkMethod {
  isTypeMethod : bool;
  ins : list baseInput;
  inFields : gmap string referToInput;
  outNr : nat;
  outType : Obj;
  errorOutNr : option nat
}.

(** Modelled from the spec: an entry of the registry [definedEnums]:
    [keyValue] from names to representations, and [valueKey], the reflected
    map from representations to names, by its entries *)
Record enum : Type := mkEnum {
  keyValue : gmap string reflect.Value;
  valueKey : list (reflect.Value * string)
}.

(** Modelled from the spec: the struct [Schema] (section 3), without its
    mutex *)
Record Schema : Type := mkSchema {
  types : gmap string Obj;
  inTypes : gmap string Input;
  rootQuery : Obj;
  rootQueryValue : reflect.Value;
  rootMethod : Obj;
  MaxDepth : Z                               (* a [uint8] *)
}.

(** ** The execution context *)

(** Modelled from the spec: the struct [Ctx] (section 3), as [Resolve]
    fills it; and [invoked], the log of the calls made through
    [reflect.Value.Call] (function and inputs), which is how the model
    observes that a method ran. *)
Record Ctx : Type := mkCtx {
  fragments : gmap string Operator;
  schema : Schema;
  Values : list (string * reflect.Value);
  directvies : list Directives;
  errors : list string;
  invoked : list (nat * list reflect.Value)
}.

(** A method of [*Ctx]: it reads and updates the context, and returns,
    panics or runs out of fuel. *)
Definition M (A : Type) : Type := Ctx -> outcome (A * Ctx).

#[global] Instance M_ret : MRet M := fun _ a ctx => Done (a, ctx).
#[global] Instance M_bind : MBind M := fun _ _ k m ctx =>
  match m ctx with
  | Done (a, ctx') => k a ctx'
  | Panic r => Panic r
  | OutOfFuel => OutOfFuel
  end.

(** A computation that does not touch the context *)
Definition lift {A} (o : outcome A) : M A := fun ctx =>
  match o with
  | Done a => Done (a, ctx)
  | Panic r => Panic r
  | OutOfFuel => OutOfFuel
  end.

(** Reading a field of the context: [ctx.schema], [ctx.fragments] *)
Definition reads {A} (field : Ctx -> A) : M A := fun ctx => Done (field ctx, ctx).

Definition with_errors (ctx : Ctx) (errs : list string) : Ctx :=
  {| fragments := fragments ctx; schema := schema ctx; Values := Values ctx;
     directvies := directvies ctx; errors := errs; invoked := invoked ctx |}.

Definition with_directvies (ctx : Ctx) (ds : list Directives) : Ctx :=
  {| fragments := fragments ctx; schema := schema ctx; Values := Values ctx;
     directvies := ds; errors := errors ctx; invoked := invoked ctx |}.

Definition with_invoked (ctx : Ctx) (calls : list (nat * list reflect.Value)) : Ctx :=
  {| fragments := fragments ctx; schema := schema ctx; Values := Values ctx;
     directvies := directvies ctx; errors := errors ctx; invoked := calls |}.

(** [ctx.addErr(err)]; [ctx.addErrf] is [addErr] on the formatted message *)
Definition addErr (err : string) : M unit := fun ctx =>
  Done (tt, with_errors ctx (errors ctx ++ [err])).

Definition outOfFuel {A} : M A := fun _ => OutOfFuel.

(** [uint8] arithmetic wraps around *)
Definition uint8 (z : Z) : Z := (z mod 256)%Z.

(** ** The executor *)

Section Executor.

(** What the executor takes from outside [resolve.go]: the tables of
    [unicode.IsPrint]; [floatToJson] (bit size, [float64]), which lives in
    another file of the package; the numeric conversions to and between
    floats; the host functions behind the function values (a call is taken to
    return, with the outputs the table gives); the package-level enum
    registry; and the parser, whose result is the fragments, the operators
    (in range order) and the errors. *)
Variable isPrintTable : Z -> bool.
Variable floatToJson : Z -> Z -> string.
Variable float64_of_int : Z -> Z.
Variable float64_of_float32 : Z -> Z.
Variable float32_of_float64 : Z -> Z.
Variable hostCall : nat -> list reflect.Value -> list reflect.Value.
Variable definedEnums : gmap string enum.
Variable ParseQueryAndCheckNames :
  string -> gmap string Operator * list (string * Operator) * list string.

(** *** [valueToJson] *)

Definition invalidDataType : string * option string :=
  ("null", Some "invalid data type").

(** The types [string], [bool], the integer types, [float32], [float64] *)
Definition isBasicType (t : reflect.Type_) : bool :=
  match t with
  | reflect.TString | reflect.TBool | reflect.TInteger _
  | reflect.TFloat32 | reflect.TFloat64 => true
  | _ => false
  end.

Definition isBasicValue (v : reflect.Value) : bool :=
  match v with
  | reflect.VString _ | reflect.VBool _ | reflect.VInt _ _
  | reflect.VFloat32 _ | reflect.VFloat64 _ => true
  | _ => false
  end.

(** The type switch of [valueToJson] on the dynamic value of [in]: the
    result and the error ([None] for nil). *)
Fixpoint valueToJson (in_ : reflect.Value) : string * option string :=
  match in_ with
  | reflect.VString v => (fmt_q isPrintTable v, None)
  | reflect.VBool v => if v then ("true", None) else ("false", None)
  | reflect.VInt _ v => (fmt_d v, None)
  | reflect.VFloat32 v => (floatToJson 32 (float64_of_float32 v), None)
  | reflect.VFloat64 v => (floatToJson 64 v, None)
  | reflect.VNil (reflect.TPtr t) => if isBasicType t then ("null", None) else invalidDataType
  | reflect.VPtr v => if isBasicValue v then valueToJson v else invalidDataType
  | _ => invalidDataType
  end.

(** [v.Interface()] *)
Definition Value_Interface (v : reflect.Value) : outcome reflect.Value :=
  match v with
  | reflect.VInvalid => Panic "reflect: call of reflect.Value.Interface on zero Value"
  | _ => Done v
  end.

(** *** [matchInputValue] *)

Definition kindName (k : reflect.Kind) : string :=
  match k with
  | reflect.Invalid | reflect.Chan | reflect.Func | reflect.Interface | reflect.Map =>
    "an unknown type"
  | reflect.Bool => "a boolean"
  | reflect.Int | reflect.Int8 | reflect.Int16 | reflect.Int32 | reflect.Int64
  | reflect.Uint | reflect.Uint8 | reflect.Uint16 | reflect.Uint32 | reflect.Uint64
  | reflect.Uintptr
  | reflect.Complex64 | reflect.Complex128 | reflect.UnsafePointer => "a number"
  | reflect.Float32 | reflect.Float64 => "a float"
  | reflect.Array | reflect.Slice => "an array"
  | reflect.Ptr => "optional type"
  | reflect.String => "a string"
  | reflect.Struct => "a object"
  end.

(** [for t.Kind() == reflect.Ptr { t = t.Elem() }] *)
Fixpoint stripPtr (t : reflect.Type_) : reflect.Type_ :=
  match t with
  | reflect.TPtr e => stripPtr e
  | reflect.TNamed _ u => if bool_decide (reflect.TypeKind u = reflect.Ptr) then stripPtr u else t
  | _ => t
  end.

(** The closure [mismatchError] of [matchInputValue] *)
Definition mismatchError (goField : reflect.Value) : outcome string :=
  t ← reflect.type goField;
  Done ("function arguments type missmatch expected " +:+ kindName (reflect.TypeKind (stripPtr t))).

(** What [matchInputValue] leaves behind: the error it returns, or the
    content of [goField] after a nil return. *)
Inductive matched : Type :=
| Mismatch (err : string)
| Matched (goField : reflect.Value).

Definition returnErr (e : outcome string) : outcome matched :=
  err ← e; Done (Mismatch err).

Definition assigned (v : outcome reflect.Value) : outcome matched :=
  x ← v; Done (Matched x).

Fixpoint matchInputValue (inTypes_ : gmap string Input) (queryValue : Value)
    {struct queryValue} : reflect.Value -> Input -> outcome matched :=
  fix onInput (goField : reflect.Value) (goAnylizedData : Input)
      {struct goAnylizedData} : outcome matched :=
    let goFieldKind := kind goAnylizedData in
    if bool_decide (goFieldKind = reflect.Ptr) then
      if isNull queryValue then Done (Matched goField) else
      expectedType ← (t ← reflect.type goField; reflect.TypeElem t);
      let newValInner := reflect.Zero expectedType in
      match elem goAnylizedData with
      | None => nilDeref
      | Some elem_ =>
        r ← onInput newValInner elem_;
        match r with
        | Mismatch err => Done (Mismatch err)
        | Matched newValInner => Done (Matched (reflect.Set_ goField (reflect.VPtr newValInner)))
        end
      end
    else if isVar queryValue then
      Done (Mismatch "variable function arguments are currently unsupported")
    else if isNull queryValue then
      Done (Matched goField)
    else if isEnum queryValue then
      if negb (input_isEnum goAnylizedData) then returnErr (mismatchError goField) else
      let keyValue_ := from_option keyValue ∅ (definedEnums !! input_enumKey goAnylizedData) in
      match keyValue_ !! enumValue queryValue with
      | None =>
        Done (Mismatch ("unknown enum value " +:+ enumValue queryValue +:+ " for enum "
                        +:+ input_enumKey goAnylizedData))
      | Some value =>
        match reflect.scalar value with
        | reflect.VString s => assigned (reflect.SetString goField s)
        | reflect.VInt k n =>
          if reflect.isSigned k then assigned (reflect.SetInt goField n)
          else if reflect.isUnsigned k && negb (bool_decide (k = reflect.Uintptr))
          then assigned (reflect.SetUint goField n)
          else Done (Mismatch "internal error, type missmatch on enum")
        | _ => Done (Mismatch "internal error, type missmatch on enum")
        end
      end
    else
      match valType queryValue with
      | reflect.Int =>
        match goFieldKind with
        | reflect.Int | reflect.Int8 | reflect.Int16 | reflect.Int32 | reflect.Int64 =>
          assigned (reflect.SetInt goField (intValue queryValue))
        | reflect.Uint | reflect.Uint8 | reflect.Uint16 | reflect.Uint32 | reflect.Uint64 =>
          assigned (reflect.SetUint goField (reflect.wrap reflect.Uint64 (intValue queryValue)))
        | reflect.Float32 | reflect.Float64 =>
          assigned (reflect.SetFloat float32_of_float64 goField
                      (float64_of_int (intValue queryValue)))
        | _ => returnErr (mismatchError goField)
        end
      | reflect.Float64 =>
        match goFieldKind with
        | reflect.Float32 | reflect.Float64 =>
          assigned (reflect.SetFloat float32_of_float64 goField (floatValue queryValue))
        | _ => returnErr (mismatchError goField)
        end
      | reflect.String =>
        if bool_decide (goFieldKind = reflect.String)
        then assigned (reflect.SetString goField (stringValue queryValue))
        else returnErr (mismatchError goField)
      | reflect.Bool =>
        if bool_decide (goFieldKind = reflect.Bool)
        then assigned (reflect.SetBool goField (booleanValue queryValue))
        else returnErr (mismatchError goField)
      | reflect.Array =>
        if bool_decide (goFieldKind = reflect.Array) then
          Done (Mismatch "fixed length arrays not supported")
        else if bool_decide (goFieldKind = reflect.Slice) then
          arr ← (t ← reflect.type goField; reflect.MakeSlice t (length (listValue queryValue)));
          r ← (fix items (l : list Value) (i : nat) (arr : reflect.Value)
                 {struct l} : outcome matched :=
                 match l with
                 | [] => Done (Matched arr)
                 | item :: rest =>
                   arrayItem ← (es ← reflect.elements arr; index es i);
                   match elem goAnylizedData with
                   | None => nilDeref
                   | Some elem_ =>
                     r ← matchInputValue inTypes_ item arrayItem elem_;
                     match r with
                     | Mismatch err =>
                       Done (Mismatch (err +:+ ", Array index: [" +:+ fmt_d (Z.of_nat i) +:+ "]"))
                     | Matched x => items rest (S i) (reflect.SetIndex arr i x)
                     end
                   end
                 end) (listValue queryValue) O arr;
          match r with
          | Mismatch err => Done (Mismatch err)
          | Matched arr => Done (Matched (reflect.Set_ goField arr))
          end
        else returnErr (mismatchError goField)
      | reflect.Map =>
        if bool_decide (goFieldKind = reflect.Struct) then
          let goAnylizedData' :=
            if isStructPointers goAnylizedData
            then inTypes_ !! structName goAnylizedData
            else Some goAnylizedData in
          (fix properties (l : list (string * Value)) (goField : reflect.Value)
             {struct l} : outcome matched :=
             match l with
             | [] => Done (Matched goField)
             | (queryKey, arg) :: rest =>
               match goAnylizedData' with
               | None => nilDeref
               | Some data =>
                 match structContent data !! queryKey with
                 | None => Done (Mismatch ("undefined property " +:+ queryKey))
                 | Some structItemMeta =>
                   field ← reflect.FieldByName goField (goFieldName structItemMeta);
                   r ← matchInputValue inTypes_ arg field structItemMeta;
                   match r with
                   | Mismatch err => Done (Mismatch (err +:+ ", property: " +:+ queryKey))
                   | Matched x =>
                     properties rest (reflect.SetFieldByName goField (goFieldName structItemMeta) x)
                   end
                 end
               end
             end) (objectValue queryValue) goField
        else returnErr (mismatchError goField)
      | _ => Done (Mismatch "undefined function input type")
      end.

(** *** [resolveFieldDataValue], [resolveField], [resolveSelection] *)

(** [ok] for the comma separated append: [if writtenToRes { res += "," }
    else { writtenToRes = true }; res += value] *)
Definition appendMember (res : string) (writtenToRes : bool) (value : string)
  : string * bool :=
  ((if writtenToRes then res +:+ "," else res) +:+ value, true).

(** The loop [for _, selection := range selectionSet] of
    [resolveSelectionContent], over the calls it makes. *)
Fixpoint resolveSelectionContent_loop
    (resolveField_ : Field -> M (string * bool))
    (resolveSelectionContent_ : SelectionSet -> M string)
    (selectionSet : SelectionSet) (res : string) (writtenToRes : bool)
    {struct selectionSet} : M string :=
  match selectionSet with
  | [] => mret res
  | selection :: rest =>
    let continue := resolveSelectionContent_loop resolveField_ resolveSelectionContent_ rest in
    match selection with
    | SelField field =>
      '(value, hasError) ← resolveField_ field;
      if negb hasError then
        let '(res, writtenToRes) := appendMember res writtenToRes value in
        continue res writtenToRes
      else continue res writtenToRes
    | SelFragmentSpread fragmentSpread_name =>
      fragments_ ← reads fragments;
      match fragments_ !! fragmentSpread_name with
      | None =>
        _ ← addErr ("unknown fragment " +:+ fragmentSpread_name);
        continue res writtenToRes
      | Some operator =>
        match fragment operator with
        | None => lift nilDeref
        | Some fragment_ =>
          value ← resolveSelectionContent_ (frag_selection fragment_);
          if nonempty value then
            let '(res, writtenToRes) := appendMember res writtenToRes value in
            continue res writtenToRes
          else continue res writtenToRes
        end
      end
    | SelInlineFragment inlineFragment_selection =>
      value ← resolveSelectionContent_ inlineFragment_selection;
      if nonempty value then
        let '(res, writtenToRes) := appendMember res writtenToRes value in
        continue res writtenToRes
      else continue res writtenToRes
    end
  end.

(** The loop [for _, in := range method.ins] *)
Fixpoint method_inputs (ins_ : list baseInput) : outcome (list reflect.Value) :=
  match ins_ with
  | [] => Done []
  | in_ :: rest =>
    v ← (if isCtx in_ then Done reflect.VCtx
         else match type_ in_ with
              | Some t => Done (reflect.Zero t)
              | None => nilDeref
              end);
    vs ← method_inputs rest;
    Done (v :: vs)
  end.

(** The loop [for queryKey, queryValue := range query.arguments]: [inl] is
    the value it returns from inside the loop, [inr] the inputs when it runs
    to its end. *)
Fixpoint resolveFieldDataValue_arguments (query : Field) (method_ : Method)
    (args : Arguments_) (inputs : list reflect.Value)
    {struct args} : M ((string * bool) + list reflect.Value) :=
  match args with
  | [] => mret (inr inputs)
  | (queryKey, queryValue) :: rest =>
    match inFields method_ !! queryKey with
    | None =>
      _ ← addErr ("undefined function " +:+ name query +:+ " input: " +:+ queryKey);
      resolveFieldDataValue_arguments query method_ rest inputs
    | Some inField =>
      schema_ ← reads schema;
      param ← lift (index inputs (inputIdx inField));
      goField ← lift (reflect.FieldByName param (goFieldName (input inField)));
      r ← lift (matchInputValue (inTypes schema_) queryValue goField (input inField));
      match r with
      | Mismatch err =>
        _ ← addErr (err +:+ ", function: " +:+ name query +:+ ", property: " +:+ queryKey);
        mret (inl ("null", true))
      | Matched x =>
        resolveFieldDataValue_arguments query method_ rest
          (<[inputIdx inField :=
               reflect.SetFieldByName param (goFieldName (input inField)) x]> inputs)
      end
    end
  end.

(** [value.Call(inputs)] *)
Definition Call (value : reflect.Value) (inputs : list reflect.Value)
  : M (list reflect.Value) := fun ctx =>
  match reflect.scalar value with
  | reflect.VFunc id =>
    Done (hostCall id inputs, with_invoked ctx (invoked ctx ++ [(id, inputs)]))
  | _ => Panic "reflect: call of reflect.Value.Call on a value that is not a function"
  end.

(** [errOut.Interface().(error)]: the error and [ok] *)
Definition asError (errOut : reflect.Value) : option string :=
  match errOut with
  | reflect.VError msg => Some msg
  | _ => None
  end.

(** The block [if method.errorOutNr != nil]: [Some] is the value it returns
    from inside the block. *)
Definition resolveFieldDataValue_errorOut (query : Field) (method_ : Method)
    (outs : list reflect.Value) : M (option (string * bool)) :=
  match errorOutNr method_ with
  | None => mret None
  | Some nr =>
    errOut ← lift (index outs nr);
    isNil ← lift (reflect.IsNil errOut);
    if negb isNil then
      match asError errOut with
      | None =>
        _ ← addErr ("field " +:+ name query +:+ " returned a invalid kind of error");
        mret (Some ("null", true))
      | Some err => _ ← addErr err; mret None
      end
    else mret None
  end.

(** The loop [for i := 0; i < value.Len(); i++] *)
Fixpoint resolveFieldDataValue_elements
    (resolveFieldDataValue_ : reflect.Value -> M (string * bool))
    (elems : list reflect.Value) (list_ : list string)
    {struct elems} : M (list string) :=
  match elems with
  | [] => mret list_
  | value_i :: rest =>
    '(res, _) ← resolveFieldDataValue_ value_i;
    resolveFieldDataValue_elements resolveFieldDataValue_ rest (list_ ++ [res])
  end.

(** [res] of [resolveField]: the member, under the alias when there is one *)
Definition resolveField_res (query : Field) (data : string) : string :=
  let name_ := if (0 <? String.length (alias query))%nat then alias query else name query in
  quoted name_ +:+ ":" +:+ data.

(** The value [resolveField] reads for the field: the custom value, the
    method of the struct, or the field of the struct *)
Definition resolveField_value (struct_ : reflect.Value) (structItem : Obj)
  : outcome reflect.Value :=
  match customObjValue structItem with
  | Some v => Done v
  | None =>
    isTypeMethod_ ←
      (if bool_decide (valueType structItem = valueTypeMethod)
       then match method structItem with
            | Some m => Done (isTypeMethod m)
            | None => nilDeref
            end
       else Done false);
    if isTypeMethod_ : bool
    then reflect.MethodByName struct_ (structFieldName structItem)
    else reflect.FieldByName struct_ (structFieldName structItem)
  end.

(** The bodies of the four mutually recursive methods, each over the methods
    it calls; the methods themselves follow, by recursion on the fuel. *)

Definition executor (A : Type) : Type :=
  reflect.Value -> Obj -> Z -> M A.

Definition resolveSelection_body
    (resolveSelectionContent : SelectionSet -> executor string)
    (selectionSet : SelectionSet) (struct_ : reflect.Value) (structType : Obj)
    (dept : Z) : M string :=
  schema_ ← reads schema;
  if (dept >=? MaxDepth schema_)%Z then
    _ ← addErr "reached max dept";
    mret "null"
  else
    let dept := uint8 (dept + 1) in
    content ← resolveSelectionContent selectionSet struct_ structType dept;
    mret ("{" +:+ content +:+ "}").

Definition resolveSelectionContent_body
    (resolveField : Field -> executor (string * bool))
    (resolveSelectionContent : SelectionSet -> executor string)
    (selectionSet : SelectionSet) (struct_ : reflect.Value) (structType : Obj)
    (dept : Z) : M string :=
  resolveSelectionContent_loop
    (fun field => resolveField field struct_ structType dept)
    (fun selectionSet => resolveSelectionContent selectionSet struct_ structType dept)
    selectionSet EmptyString false.

Definition resolveField_body
    (resolveFieldDataValue : Field -> executor (string * bool))
    (query : Field) (struct_ : reflect.Value) (codeStructure : Obj) (dept : Z)
  : M (string * bool) :=
  match objContents codeStructure !! name query with
  | None =>
    _ ← addErr ("field " +:+ name query +:+ " does not exists on " +:+ typeName codeStructure);
    mret (resolveField_res query "null", true)
  | Some structItem =>
    value ← lift (resolveField_value struct_ structItem);
    '(fieldValue, returnedOnError) ← resolveFieldDataValue query value structItem dept;
    mret (resolveField_res query fieldValue, returnedOnError)
  end.

(** The method case of [resolveFieldDataValue] from [value.Call] on: the
    call, the error output, and the resolution of the value output. *)
Definition resolveFieldDataValue_invoke
    (resolveFieldDataValue : Field -> executor (string * bool))
    (query : Field) (value : reflect.Value) (method_ : Method)
    (inputs : list reflect.Value) (dept : Z) : M (string * bool) :=
  outs ← Call value inputs;
  r ← resolveFieldDataValue_errorOut query method_ outs;
  match r with
  | Some returned => mret returned
  | None =>
    out ← lift (index outs (outNr method_));
    resolveFieldDataValue query out (outType method_) dept
  end.

Definition resolveFieldDataValue_body
    (resolveSelection : SelectionSet -> executor string)
    (resolveFieldDataValue : Field -> executor (string * bool))
    (query : Field) (value : reflect.Value) (codeStructure : Obj) (dept : Z)
  : M (string * bool) :=
  match valueType codeStructure with
  | valueTypeMethod =>
    isNil ← lift (reflect.IsNil value);
    if isNil : bool then mret ("null", false) else
    method_ ← lift (match method codeStructure with
                    | Some m => Done m
                    | None => nilDeref
                    end);
    inputs ← lift (method_inputs (ins method_));
    r ← resolveFieldDataValue_arguments query method_ (arguments query) inputs;
    match r with
    | inl returned => mret returned
    | inr inputs =>
      resolveFieldDataValue_invoke resolveFieldDataValue query value method_ inputs dept
    end
  | valueTypeArray =>
    absent ←
      (if negb (bool_decide (reflect.kind value = reflect.Array))
          && negb (bool_decide (reflect.kind value = reflect.Slice))
       then mret true
       else lift (reflect.IsNil value));
    if absent : bool then mret ("null", false) else
    match innerContent codeStructure with
    | None =>
      _ ← addErr ("field " +:+ name query +:+ " does not have an internal type of an array");
      mret ("null", true)
    | Some codeStructure =>
      elems ← lift (reflect.elements value);
      list_ ← resolveFieldDataValue_elements
                (fun value_i => resolveFieldDataValue query value_i codeStructure dept)
                elems [];
      mret ("[" +:+ strings_Join list_ "," +:+ "]", false)
    end
  | valueTypeObj | valueTypeObjRef =>
    if match selection query with [] => true | _ => false end then
      _ ← addErr ("field " +:+ name query +:+ " must have a selection");
      mret ("null", true)
    else
      schema_ ← reads schema;
      let resolved :=
        if bool_decide (valueType codeStructure = valueTypeObjRef)
        then types schema_ !! typeName codeStructure
        else Some codeStructure in
      match resolved with
      | None =>
        _ ← addErr ("field " +:+ name query +:+ " cannot have a selection");
        mret ("null", true)
      | Some codeStructure =>
        val ← resolveSelection (selection query) value codeStructure dept;
        mret (val, false)
      end
  | valueTypeData =>
    if match selection query with [] => false | _ => true end then
      _ ← addErr ("field " +:+ name query +:+ " cannot have a selection");
      mret ("null", true)
    else
      in_ ← lift (Value_Interface value);
      let '(val, _) := valueToJson in_ in
      mret (val, false)
  | valueTypePtr =>
    absent ←
      (if negb (bool_decide (reflect.kind value = reflect.Ptr))
       then mret true
       else lift (reflect.IsNil value));
    if absent : bool then mret ("null", false) else
    elem_ ← lift (reflect.Elem value);
    match innerContent codeStructure with
    | None => lift nilDeref
    | Some codeStructure => resolveFieldDataValue query elem_ codeStructure dept
    end
  | valueTypeEnum =>
    match definedEnums !! enumKey codeStructure with
    | None => lift (Panic "reflect: call of reflect.Value.MapIndex on zero Value")
    | Some enum_ =>
      let key := reflect.MapIndex (valueKey enum_) value in
      if negb (reflect.IsValid key) then mret ("null", false) else
      match key with
      | reflect.VString key => mret (quoted key, false)
      | _ => lift (Panic "interface conversion: interface is not a string")
      end
    end
  | valueTypeUndefined =>
    _ ← addErr ("field " +:+ name query +:+ " has invalid data type");
    mret ("null", true)
  end.

Fixpoint resolveSelection (fuel : nat) {struct fuel} : SelectionSet -> executor string :=
  match fuel with
  | O => fun _ _ _ _ => outOfFuel
  | S fuel => resolveSelection_body (resolveSelectionContent fuel)
  end

with resolveSelectionContent (fuel : nat) {struct fuel} : SelectionSet -> executor string :=
  match fuel with
  | O => fun _ _ _ _ => outOfFuel
  | S fuel =>
    resolveSelectionContent_body (resolveField fuel) (resolveSelectionContent fuel)
  end

with resolveField (fuel : nat) {struct fuel} : Field -> executor (string * bool) :=
  match fuel with
  | O => fun _ _ _ _ => outOfFuel
  | S fuel => resolveField_body (resolveFieldDataValue fuel)
  end

with resolveFieldDataValue (fuel : nat) {struct fuel} : Field -> executor (string * bool) :=
  match fuel with
  | O => fun _ _ _ _ => outOfFuel
  | S fuel =>
    resolveFieldDataValue_body (resolveSelection fuel) (resolveFieldDataValue fuel)
  end.

(** *** [start] and [Resolve] *)

Definition start (fuel : nat) (operator : Operator) : M string :=
  _ ← (match op_directives operator with
       | Some ds =>
         if (0 <? length ds)%nat
         then fun ctx => Done (tt, with_directvies ctx (directvies ctx ++ [ds]))
         else mret tt
       | None => mret tt
       end);
  schema_ ← reads schema;
  if bool_decide (operationType operator = "query") then
    resolveSelection fuel (op_selection operator)
      (rootQueryValue schema_) (rootQuery schema_) 0%Z
  else if bool_decide (operationType operator = "mutation") then
    resolveSelection fuel (op_selection operator)
      (rootQueryValue schema_) (rootMethod schema_) 0%Z
  else if bool_decide (operationType operator = "subscription") then
    _ ← addErr "subscription not suppored yet";
    mret "{}"
  else
    _ ← addErr (operationType operator +:+ " cannot be used as operator");
    mret "{}".

(** The loop [for _, operator := range operatorsMap { res = ctx.start(&operator) }] *)
Fixpoint Resolve_each (fuel : nat) (operatorsMap : list (string * Operator))
    (res : string) {struct operatorsMap} : M string :=
  match operatorsMap with
  | [] => mret res
  | (_, operator) :: rest =>
    res ← start fuel operator;
    Resolve_each fuel rest res
  end.

(** [return res, ctx.errors] *)
Definition returning (m : M string) (ctx : Ctx) : outcome (string * list string) :=
  '(res, ctx) ← m ctx; Done (res, errors ctx).

(** The mutex of the schema is not modelled: one call runs at a time. *)
Definition Resolve (fuel : nat) (s : Schema) (query operatorTarget : string)
  : outcome (string * list string) :=
  let '(fragments_, operatorsMap, errs) := ParseQueryAndCheckNames query in
  if (0 <? length errs)%nat then Done ("{}", errs) else
  let ctx := {| fragments := fragments_; schema := s; Values := [];
                directvies := []; errors := []; invoked := [] |} in
  match length operatorsMap with
  | 0%nat => Done ("{}", [])
  | 1%nat => returning (Resolve_each fuel operatorsMap EmptyString) ctx
  | _ =>
    if bool_decide (operatorTarget = EmptyString) then
      Done ("{}", ["multiple operators without target"])
    else
      match reflect.assoc operatorTarget operatorsMap with
      | Some operator => returning (start fuel operator) ctx
      | None =>
        let operatorsList := map fst operatorsMap in
        Done ("{}", [operatorTarget +:+ " is not a valid operator, available operators: "
                       +:+ strings_Join operatorsList ", "])
      end
  end.

End Executor.

(** ** Reference notions of the specification *)

(** A JSON string literal (RFC 8259): a double quote, then characters none of
    which is a raw control character, a backslash being followed by one of
    the eight one-letter escapes or by [u] and four hexadecimal digits, then
    the closing double quote. *)
Definition isHexDigit (c : ascii) : bool :=
  let n := byteZ c in
  (((48 <=? n) && (n <=? 57)) || ((65 <=? n) && (n <=? 70)) || ((97 <=? n) && (n <=? 102)))%Z.

Definition isJsonEscape (c : ascii) : bool :=
  let n := byteZ c in
  ((n =? 34) || (n =? 92) || (n =? 47) || (n =? 98) || (n =? 102)
   || (n =? 110) || (n =? 114) || (n =? 116))%Z.

Fixpoint json_string_tail (s : string) : bool :=
  match s with
  | EmptyString => false
  | String c rest =>
    if (byteZ c =? 34)%Z then match rest with EmptyString => true | _ => false end
    else if (byteZ c =? 92)%Z then
      match rest with
      | String e rest' =>
        if isJsonEscape e then json_string_tail rest'
        else if (byteZ e =? 117)%Z then
          match rest' with
          | String h1 (String h2 (String h3 (String h4 rest''))) =>
            isHexDigit h1 && isHexDigit h2 && isHexDigit h3 && isHexDigit h4
            && json_string_tail rest''
          | _ => false
          end
        else false
      | EmptyString => false
      end
    else if (byteZ c <? 32)%Z then false
    else json_string_tail rest
  end.

Definition json_string_literal (s : string) : bool :=
  match s with
  | String c rest => (byteZ c =? 34)%Z && json_string_tail rest
  | EmptyString => false
  end.

(** Reading back a decimal numeral *)
Definition parse_decimal (s : string) : option Z :=
  Z.of_int <$> NilZero.int_of_string s.

(** One entry of the errors array as [GenerateResponse] writes it *)
Definition errorEntry (isPrintTable : Z -> bool) (err : string) : string :=
  "{" +:+ quoted "message" +:+ ":" +:+ fmt_q isPrintTable err +:+ "}".

(** The bytes a JSON string may hold raw, plus those Go and JSON escape alike:
    printable ASCII, and backspace, tab, newline, form feed, carriage return *)
Definition plainByte (c : ascii) : bool :=
  let n := byteZ c in
  (((32 <=? n) && (n <=? 126)) || (n =? 8) || (n =? 9) || (n =? 10) || (n =? 12) || (n =? 13))%Z.

Fixpoint plainString (s : string) : bool :=
  match s with
  | EmptyString => true
  | String c rest => plainByte c && plainString rest
  end.

(** The bell character, as a one-byte Go string *)
Definition bell : string := String (ascii_of_nat 7) EmptyString.


(** From [ctx] to [ctx']: same schema and fragments, and the errors and the
    calls of [ctx] are still there, in front. *)
Definition grows (ctx ctx' : Ctx) : Prop :=
  schema ctx' = schema ctx /\ fragments ctx' = fragments ctx
  /\ errors ctx `prefix_of` errors ctx' /\ invoked ctx `prefix_of` invoked ctx'.

Definition accumulates {A} (m : M A) : Prop :=
  forall ctx a ctx', m ctx = Done (a, ctx') -> grows ctx ctx'.

(** Two contexts that differ at most in their errors *)
Definition same_but_errors (c1 c2 : Ctx) : Prop :=
  fragments c1 = fragments c2 /\ schema c1 = schema c2 /\ Values c1 = Values c2
  /\ directvies c1 = directvies c2 /\ invoked c1 = invoked c2.

(** A computation that never looks at the errors: from two such contexts it
    ends the same way, with the same value, in two such contexts. *)
Definition errors_blind {A} (m : M A) : Prop :=
  forall c1 c2, same_but_errors c1 c2 ->
    match m c1 with
    | Done (a, c1') => exists c2', m c2 = Done (a, c2') /\ same_but_errors c1' c2'
    | Panic r => m c2 = Panic r
    | OutOfFuel => m c2 = OutOfFuel
    end.

(** A resolution that is null whenever it comes back errored *)
Definition null_when_errored (m : M (string * bool)) : Prop :=
  forall ctx s ctx', m ctx = Done ((s, true), ctx') -> s = "null".

(** The values of the thirty types that the type switch names *)
Definition supportedValue (v : reflect.Value) : bool :=
  match v with
  | reflect.VNil (reflect.TPtr t) => isBasicType t
  | reflect.VPtr x => isBasicValue x
  | _ => isBasicValue v
  end.

(** The context [Resolve] starts from *)
Definition initialCtx (fragments_ : gmap string Operator) (s : Schema) : Ctx :=
  {| fragments := fragments_; schema := s; Values := []; directvies := [];
     errors := []; invoked := [] |}.

(** ** A schema to run the executor on *)

(** The schema of the todo application: a query root with the list [todos],
    the optional [next] todo and the function field [later]; a mutation root
    with the methods [createTodo], [updateTodo] and [deleteTodo]. *)
Module Todos.

Definition leaf (goField : string) : Obj :=
  mkObj valueTypeData EmptyString goField ∅ None None EmptyString None.

Definition Todo : Obj :=
  mkObj valueTypeObj "Todo" EmptyString
    (<["id" := leaf "Id"]> (<["title" := leaf "Title"]> {["done" := leaf "Done"]}))
    None None EmptyString None.

Definition TodoType : reflect.Type_ :=
  reflect.TStruct [("Id", reflect.TString); ("Title", reflect.TString);
                   ("Done", reflect.TBool)].

Definition todo1 : reflect.Value :=
  reflect.VStruct [("Id", reflect.VString "1"); ("Title", reflect.VString "a");
                   ("Done", reflect.VBool false)] [].

Definition stringInput (goField : string) : Input :=
  mkInput reflect.String false EmptyString None false EmptyString ∅ goField.

(** [func (MethodRoot) CreateTodo(args struct{ Title string }) Todo] *)
Definition createTodo : Method :=
  mkMethod true [mkBaseInput false (Some (reflect.TStruct [("Title", reflect.TString)]))]
    {["title" := mkReferToInput 0 (stringInput "Title")]} 0 Todo None.

(** [func (MethodRoot) UpdateTodo(args struct{ Id, Title string }) Todo] *)
Definition updateTodo : Method :=
  mkMethod true
    [mkBaseInput false (Some (reflect.TStruct [("Id", reflect.TString);
                                                ("Title", reflect.TString)]))]
    (<["id" := mkReferToInput 0 (stringInput "Id")]>
       {["title" := mkReferToInput 0 (stringInput "Title")]}) 0 Todo None.

(** [func (MethodRoot) DeleteTodo() (string, error)] *)
Definition deleteTodo : Method :=
  mkMethod true [] ∅ 0 (leaf EmptyString) (Some 1).

(** A field of function type, left nil *)
Definition later : Method :=
  mkMethod false [] ∅ 0 (leaf EmptyString) None.

Definition methodObj (goName : string) (m : Method) : Obj :=
  mkObj valueTypeMethod EmptyString goName ∅ None (Some m) EmptyString None.

Definition QueryRoot : Obj :=
  mkObj valueTypeObj "QueryRoot" EmptyString
    (<["todos" := mkObj valueTypeArray EmptyString "Todos" ∅ (Some Todo) None EmptyString None]>
       (<["next" := mkObj valueTypePtr EmptyString "Next" ∅ (Some Todo) None EmptyString None]>
          {["later" := methodObj "Later" later]}))
    None None EmptyString None.

Definition MethodRoot : Obj :=
  mkObj valueTypeObj "MethodRoot" EmptyString
    (<["createTodo" := methodObj "CreateTodo" createTodo]>
       (<["updateTodo" := methodObj "UpdateTodo" updateTodo]>
          {["deleteTodo" := methodObj "DeleteTodo" deleteTodo]}))
    None None EmptyString None.

(** The root value: one todo in the list, no next todo, no function *)
Definition root : reflect.Value :=
  reflect.VStruct
    [("Todos", reflect.VSlice TodoType [todo1]);
     ("Next", reflect.VNil (reflect.TPtr TodoType));
     ("Later", reflect.VNil reflect.TFunc)]
    [("CreateTodo", 0); ("UpdateTodo", 1); ("DeleteTodo", 2)].

(** The host functions: [CreateTodo] and [UpdateTodo] return the todo,
    [DeleteTodo] returns an id and an error. *)
Definition host (id : nat) (inputs : list reflect.Value) : list reflect.Value :=
  match id with
  | 2 => [reflect.VString "1"; reflect.VError "not found"]
  | _ => [todo1]
  end.

Definition schemaWith (maxDepth : Z) : Schema :=
  mkSchema ∅ ∅ QueryRoot root MethodRoot maxDepth.

Definition ctx0 (maxDepth : Z) : Ctx :=
  mkCtx ∅ (schemaWith maxDepth) [] [] [] [].

Definition field (name_ : string) (args : Arguments_) (sel : SelectionSet) : Field :=
  mkField name_ EmptyString args sel [].

Definition intLiteral (z : Z) : Value :=
  mkValue reflect.Int false false false z 0 EmptyString false EmptyString [] [].

Definition stringLiteral (s : string) : Value :=
  mkValue reflect.String false false false 0 0 s false EmptyString [] [].

(** The executor over the host functions of this schema; printable runes
    above Latin-1 and floats do not occur. *)
Definition run : nat -> Field -> executor (string * bool) :=
  resolveFieldDataValue (fun _ => true) (fun _ _ => "0") (fun z => z) (fun z => z)
    (fun z => z) host ∅.

Definition runField : nat -> Field -> executor (string * bool) :=
  resolveField (fun _ => true) (fun _ _ => "0") (fun z => z) (fun z => z)
    (fun z => z) host ∅.


Definition runContent : nat -> SelectionSet -> executor string :=
  resolveSelectionContent (fun _ => true) (fun _ _ => "0") (fun z => z) (fun z => z)
    (fun z => z) host ∅.







End Todos.

(** ** Reference notions of the further properties *)

(** The members that the loop of [resolveSelectionContent] writes, in the
    order of the selection set: the member of every field that comes back
    without the errored flag, and the content of every fragment that is not
    empty. *)
Fixpoint resolveSelectionContent_members
    (resolveField_ : Field -> M (string * bool))
    (resolveSelectionContent_ : SelectionSet -> M string)
    (selectionSet : SelectionSet) {struct selectionSet} : M (list string) :=
  match selectionSet with
  | [] => mret []
  | selection :: rest =>
    let continue := resolveSelectionContent_members resolveField_ resolveSelectionContent_ rest in
    match selection with
    | SelField field =>
      '(value, hasError) ← resolveField_ field;
      members ← continue;
      mret (if hasError : bool then members else value :: members)
    | SelFragmentSpread fragmentSpread_name =>
      fragments_ ← reads fragments;
      match fragments_ !! fragmentSpread_name with
      | None => _ ← addErr ("unknown fragment " +:+ fragmentSpread_name); continue
      | Some operator =>
        match fragment operator with
        | None => lift nilDeref
        | Some fragment_ =>
          value ← resolveSelectionContent_ (frag_selection fragment_);
          members ← continue;
          mret (if nonempty value then value :: members else members)
        end
      end
    | SelInlineFragment inlineFragment_selection =>
      value ← resolveSelectionContent_ inlineFragment_selection;
      members ← continue;
      mret (if nonempty value then value :: members else members)
    end
  end.

(** The key of a member: the alias of the field, or its name when the alias
    is empty *)
Definition memberKey (query : Field) : string :=
  match alias query with
  | EmptyString => name query
  | _ => alias query
  end.

(** A resolution that has recorded an error whenever it comes back with the
    errored flag set *)
Definition records_when_errored (m : M (string * bool)) : Prop :=
  forall ctx s ctx', m ctx = Done ((s, true), ctx') ->
    (length (errors ctx) < length (errors ctx'))%nat.

(** The members, appended one by one to what is written so far *)
Fixpoint appendMembers (res : string) (writtenToRes : bool) (members : list string)
  : string :=
  match members with
  | [] => res
  | value :: rest =>
    let '(res, writtenToRes) := appendMember res writtenToRes value in
    appendMembers res writtenToRes rest
  end.

(** The byte that a one-letter JSON escape stands for *)
Definition jsonEscapeValue (e : ascii) : option ascii :=
  let n := byteZ e in
  if ((n =? 34) || (n =? 92) || (n =? 47))%Z then Some e
  else if (n =? 98)%Z then Some (Zbyte 8)
  else if (n =? 102)%Z then Some (Zbyte 12)
  else if (n =? 110)%Z then Some (Zbyte 10)
  else if (n =? 114)%Z then Some (Zbyte 13)
  else if (n =? 116)%Z then Some (Zbyte 9)
  else None.

(** Reading back a JSON string literal whose escapes are one-letter escapes:
    the string it denotes ([None] for anything else) *)
Fixpoint json_string_value_tail (s : string) : option string :=
  match s with
  | EmptyString => None
  | String c rest =>
    if (byteZ c =? 34)%Z then
      match rest with EmptyString => Some EmptyString | _ => None end
    else if (byteZ c =? 92)%Z then
      match rest with
      | String e rest' =>
        match jsonEscapeValue e with
        | Some b => String b <$> json_string_value_tail rest'
        | None => None
        end
      | EmptyString => None
      end
    else if (byteZ c <? 32)%Z then None
    else String c <$> json_string_value_tail rest
  end.

Definition json_string_value (s : string) : option string :=
  match s with
  | String c rest => if (byteZ c =? 34)%Z then json_string_value_tail rest else None
  | EmptyString => None
  end.

(** A selection with the directives of every field in it taken away *)
Fixpoint withoutDirectives (s : Selection) : Selection :=
  match s with
  | SelField (mkField name_ alias_ arguments_ selection_ _) =>
    SelField (mkField name_ alias_ arguments_ (map withoutDirectives selection_) [])
  | SelFragmentSpread fragmentSpread_name => SelFragmentSpread fragmentSpread_name
  | SelInlineFragment inlineFragment_selection =>
    SelInlineFragment (map withoutDirectives inlineFragment_selection)
  end.

Definition fieldWithoutDirectives (query : Field) : Field :=
  mkField (name query) (alias query) (arguments query)
    (map withoutDirectives (selection query)) [].



(** The loop [for i, item := range queryValue.listValue] of
    [matchInputValue], over the call it makes for an item *)
Definition matchInputValue_items
    (matchItem : Value -> reflect.Value -> outcome matched)
  : list Value -> nat -> reflect.Value -> outcome matched :=
  fix items (l : list Value) (i : nat) (arr : reflect.Value) {struct l} : outcome matched :=
    match l with
    | [] => Done (Matched arr)
    | item :: rest =>
      arrayItem ← (es ← reflect.elements arr; index es i);
      r ← matchItem item arrayItem;
      match r with
      | Mismatch err =>
        Done (Mismatch (err +:+ ", Array index: [" +:+ fmt_d (Z.of_nat i) +:+ "]"))
      | Matched x => items rest (S i) (reflect.SetIndex arr i x)
      end
    end.

(** The loop [for queryKey, arg := range queryValue.objectValue] of
    [matchInputValue], over the call it makes for a property *)
Definition matchInputValue_properties
    (matchProperty : Value -> reflect.Value -> Input -> outcome matched)
    (goAnylizedData : option Input)
  : list (string * Value) -> reflect.Value -> outcome matched :=
  fix properties (l : list (string * Value)) (goField : reflect.Value) {struct l}
      : outcome matched :=
    match l with
    | [] => Done (Matched goField)
    | (queryKey, arg) :: rest =>
      match goAnylizedData with
      | None => nilDeref
      | Some data =>
        match structContent data !! queryKey with
        | None => Done (Mismatch ("undefined property " +:+ queryKey))
        | Some structItemMeta =>
          field ← reflect.FieldByName goField (goFieldName structItemMeta);
          r ← matchProperty arg field structItemMeta;
          match r with
          | Mismatch err => Done (Mismatch (err +:+ ", property: " +:+ queryKey))
          | Matched x =>
            properties rest (reflect.SetFieldByName goField (goFieldName structItemMeta) x)
          end
        end
      end
    end.

(** A literal that is neither a variable, nor null, nor an enum name *)
Definition plainLiteral (queryValue : Value) : Prop :=
  isVar queryValue = false /\ isNull queryValue = false /\ isEnum queryValue = false.

(** The length of the chain of inner types and method outputs under a type:
    what [resolveFieldDataValue] can go down without a selection set *)
Fixpoint chain (codeStructure : Obj) : nat :=
  match codeStructure with
  | mkObj _ _ _ _ inner method_ _ _ =>
    S (Nat.max
         (match inner with Some o => chain o | None => O end)
         (match method_ with
          | Some (mkMethod _ _ _ _ out _) => chain out
          | None => O
          end))
  end.

(** The size of a selection, and whether it is free of fragment spreads *)
Fixpoint selectionSize (s : Selection) : nat :=
  match s with
  | SelField (mkField _ _ _ sel _) => S (list_sum (map selectionSize sel))
  | SelFragmentSpread _ => 1
  | SelInlineFragment sel => S (list_sum (map selectionSize sel))
  end.

Fixpoint spreadFree (s : Selection) : bool :=
  match s with
  | SelField (mkField _ _ _ sel _) => forallb spreadFree sel
  | SelFragmentSpread _ => false
  | SelInlineFragment sel => forallb spreadFree sel
  end.

(** A computation that ends: it returns or panics *)
Definition ends {A} (o : outcome A) : Prop := o <> OutOfFuel.

(** A method of the context that ends from every context over the schema [s] *)
Definition halts {A} (s : Schema) (m : M A) : Prop :=
  forall ctx, schema ctx = s -> m ctx <> OutOfFuel.

(** The size of a literal, and the depth of an input type under its pointers *)
Fixpoint valueSize (v : Value) : nat :=
  match v with
  | mkValue _ _ _ _ _ _ _ _ _ listValue_ objectValue_ =>
    S (list_sum (map valueSize listValue_)
       + list_sum (map (fun kv => valueSize (snd kv)) objectValue_))
  end.

Fixpoint inputDepth (i : Input) : nat :=
  match i with
  | mkInput _ _ _ elem_ _ _ _ _ =>
    S (match elem_ with Some e => inputDepth e | None => O end)
  end.

(** The computation [m'] gives what [m] gives, whenever [m] ends: what more
    fuel does to a computation *)
Definition extends {A} (m m' : M A) : Prop :=
  forall ctx, m ctx <> OutOfFuel -> m' ctx = m ctx.

(** ** Further cases on the todo schema *)

Module Cases.
Import Todos.

(** The fields [todos] and [next] of the query root, and a reference to the
    type [Todo] by its name *)
Definition todosField : Obj :=
  mkObj valueTypeArray EmptyString "Todos" ∅ (Some Todo) None EmptyString None.

Definition nextField : Obj :=
  mkObj valueTypePtr EmptyString "Next" ∅ (Some Todo) None EmptyString None.

Definition todoRef : Obj :=
  mkObj valueTypeObjRef "Todo" "Item" ∅ None None EmptyString None.

(** A context in which some error has been recorded already *)
Definition ctxAfterError : Ctx :=
  mkCtx ∅ (schemaWith 255) [] [] ["earlier"] [].

(** The document [fragment F on Todo { ...F id }] *)
Definition fragmentF : InlineFragment :=
  mkInlineFragment [SelFragmentSpread "F"; SelField (field "id" [] [])] "Todo".

Definition operatorF : Operator :=
  mkOperator "fragment" "F" [] None (Some fragmentF).

Definition ctxWithF : Ctx :=
  mkCtx {["F" := operatorF]} (schemaWith 255) [] [] [] [].

Definition subscription : Operator :=
  mkOperator "subscription" EmptyString [SelField (field "todos" [] [])] None None.

Definition runStart : nat -> Operator -> M string :=
  start (fun _ => true) (fun _ _ => "0") (fun z => z) (fun z => z) (fun z => z) host ∅.

(** The enum [Color], a defined string type with the one value [RED] *)
Definition red : reflect.Value := reflect.VNamed "Color" (reflect.VString "red").

Definition Color : enum := mkEnum {["RED" := red]} [(red, "RED")].

Definition enums : gmap string enum := {["Color" := Color]}.

Definition colorField : Obj :=
  mkObj valueTypeEnum EmptyString "Color" ∅ None None "Color" None.

Definition colorInput : Input :=
  mkInput reflect.String true "Color" None false EmptyString ∅ "Color".

Definition runEnum : nat -> Field -> executor (string * bool) :=
  resolveFieldDataValue (fun _ => true) (fun _ _ => "0") (fun z => z) (fun z => z)
    (fun z => z) host enums.

(** Literals and inputs of the other kinds *)
Definition enumLiteral (name_ : string) : Value :=
  mkValue reflect.String false false true 0 0 EmptyString false name_ [] [].

Definition listLiteral (l : list Value) : Value :=
  mkValue reflect.Array false false false 0 0 EmptyString false EmptyString l [].

Definition objectLiteral (l : list (string * Value)) : Value :=
  mkValue reflect.Map false false false 0 0 EmptyString false EmptyString [] l.

Definition scalarInput (k : reflect.Kind) (goField : string) : Input :=
  mkInput k false EmptyString None false EmptyString ∅ goField.

Definition tagsInput : Input :=
  mkInput reflect.Slice false EmptyString (Some (stringInput EmptyString)) false
    EmptyString ∅ "Tags".

Definition optionalTitle : Input :=
  mkInput reflect.Ptr false EmptyString (Some (stringInput EmptyString)) false
    EmptyString ∅ "Title".

Definition todoInput : Input :=
  mkInput reflect.Struct false EmptyString None false EmptyString
    {["title" := stringInput "Title"]} "Todo".

Definition coerce : gmap string Input -> Value -> reflect.Value -> Input -> outcome matched :=
  matchInputValue (fun z => z) (fun z => z) enums.

(** A parser that has found an error in the document *)
Definition parsedWithError (query : string)
  : gmap string Operator * list (string * Operator) * list string :=
  (∅, [], ["unexpected token"]).

(** A parser that has read [query A{later} mutation B{deleteTodo}] *)
Definition parsedQueryAndMutation (query : string)
  : gmap string Operator * list (string * Operator) * list string :=
  (∅,
   [("A", mkOperator "query" "A" [SelField (field "later" [] [])] None None);
    ("B", mkOperator "mutation" "B" [SelField (field "deleteTodo" [] [])] None None)],
   []).

End Cases.

(** * Properties *)

#[local] Arguments String.append !s1 s2 : simpl nomatch.

(** ** Strings *)

Lemma append_assoc (a b c : string) : (a +:+ b) +:+ c = a +:+ (b +:+ c).
Proof. induction a as [|x a IH]; simpl; [reflexivity | f_equal; exact IH]. Qed.

Lemma append_nil_r (a : string) : a +:+ EmptyString = a.
Proof. induction a as [|x a IH]; simpl; [reflexivity | f_equal; exact IH]. Qed.

(** One plain byte is quoted to itself or to a JSON escape: whatever follows
    is read as the rest of the same JSON string. *)
Lemma json_string_tail_plain (t : Z -> bool) (c : ascii) (rest b : string) :
  plainByte c = true ->
  json_string_tail (strconv.quoteBody t O (String c rest) +:+ b)
  = json_string_tail (strconv.quoteBody t O rest +:+ b).
Proof.
  intros Hc.
  destruct c as [[] [] [] [] [] [] [] []]; vm_compute in Hc; try discriminate Hc;
    reflexivity.
Qed.

(** Normal form of a concatenation: appends nested to the right *)
Ltac str_norm :=
  unfold quoted, DQ, BS in *; simpl;
  repeat (rewrite !append_assoc; simpl); try reflexivity.

Lemma fmt_q_plain_is_json (t : Z -> bool) (s : string) :
  plainString s = true -> json_string_literal (fmt_q t s) = true.
Proof.
  intros Hs. unfold fmt_q, strconv.Quote, DQ. simpl.
  induction s as [|c s IH].
  - reflexivity.
  - simpl in Hs. apply andb_prop in Hs as [Hc Hs].
    rewrite json_string_tail_plain by exact Hc. exact (IH Hs).
Qed.

Lemma fmt_d_roundtrip (z : Z) : parse_decimal (fmt_d z) = Some z.
Proof.
  unfold parse_decimal, fmt_d.
  rewrite NilZero.isi.
  - simpl. now rewrite DecimalZ.of_to.
  - destruct z as [|p|p]; simpl; try discriminate.
    intros H. injection H as H. exact (DecimalPos.Unsigned.to_uint_nonnil p H).
  - destruct z as [|p|p]; simpl; try discriminate.
    intros H. injection H as H. exact (DecimalPos.Unsigned.to_uint_nonnil p H).
Qed.

(** ** [GenerateResponse] *)

Lemma GenerateResponse_no_errors (t : Z -> bool) (data : string) :
  GenerateResponse t data [] = "{" +:+ quoted "data" +:+ ":" +:+ data +:+ "}".
Proof. unfold GenerateResponse. str_norm. Qed.

Lemma GenerateResponse_errors_spec (t : Z -> bool) (errs : list string) :
  forall (i : nat) (res : string), errs <> [] ->
  GenerateResponse_errors t i errs res
  = res +:+ (if (0 <? i)%nat then "," else EmptyString)
        +:+ strings_Join (map (errorEntry t) errs) ",".
Proof.
  induction errs as [|err rest IH]; intros i res Hne; [congruence|].
  destruct rest as [|err' rest].
  - simpl. unfold errorEntry. destruct (0 <? i)%nat; str_norm.
  - change (GenerateResponse_errors t i (err :: err' :: rest) res)
      with (GenerateResponse_errors t (S i) (err' :: rest)
              ((if (0 <? i)%nat then res +:+ "," else res)
                 +:+ "{" +:+ quoted "message" +:+ ":" +:+ fmt_q t err +:+ "}")).
    rewrite IH by discriminate.
    change (strings_Join (map (errorEntry t) (err :: err' :: rest)) ",")
      with (errorEntry t err +:+ "," +:+ strings_Join (map (errorEntry t) (err' :: rest)) ",").
    unfold errorEntry at 2.
    destruct (0 <? i)%nat; str_norm.
Qed.

(** With errors, the response is the data, then at once the errors member:
    no comma is written between the two, whatever the data and the errors. *)
Lemma GenerateResponse_with_errors (t : Z -> bool) (data err : string) (errs : list string) :
  GenerateResponse t data (err :: errs)
  = "{" +:+ quoted "data" +:+ ":" +:+ data +:+ quoted "errors" +:+ ":["
        +:+ strings_Join (map (errorEntry t) (err :: errs)) "," +:+ "]}".
Proof.
  unfold GenerateResponse.
  change (0 <? length (err :: errs))%nat with true. cbv iota.
  rewrite GenerateResponse_errors_spec by discriminate.
  cbv iota. generalize (strings_Join (map (errorEntry t) (err :: errs)) ","); intros j.
  str_norm.
Qed.

(** C1, at the failing input: for the data [{}] and the one error [x],
    [GenerateResponse] returns the data member followed at once by the errors
    member, which is not the JSON object that has a comma between the two. *)
Theorem GenerateResponse_omits_comma (t : Z -> bool) :
  GenerateResponse t "{}" ["x"]
  = "{" +:+ quoted "data" +:+ ":{}" +:+ quoted "errors" +:+ ":[{"
        +:+ quoted "message" +:+ ":" +:+ quoted "x" +:+ "}]}"
  /\ GenerateResponse t "{}" ["x"]
     <> "{" +:+ quoted "data" +:+ ":{}," +:+ quoted "errors" +:+ ":[{"
            +:+ quoted "message" +:+ ":" +:+ quoted "x" +:+ "}]}".
Proof. split; [reflexivity | discriminate]. Qed.

(** ** The executor *)

Section ExecutorProperties.

Variable isPrintTable : Z -> bool.
Variable floatToJson : Z -> Z -> string.
Variable float64_of_int : Z -> Z.
Variable float64_of_float32 : Z -> Z.
Variable float32_of_float64 : Z -> Z.
Variable hostCall : nat -> list reflect.Value -> list reflect.Value.
Variable definedEnums : gmap string enum.

Local Abbreviation valueToJson_ := (valueToJson isPrintTable floatToJson float64_of_float32).
Local Abbreviation matchInputValue_ :=
  (matchInputValue float64_of_int float32_of_float64 definedEnums).
Local Abbreviation arguments_ :=
  (resolveFieldDataValue_arguments float64_of_int float32_of_float64 definedEnums).
Local Abbreviation Call_ := (Call hostCall).
Local Abbreviation resolveSelection_ :=
  (resolveSelection isPrintTable floatToJson float64_of_int float64_of_float32
     float32_of_float64 hostCall definedEnums).
Local Abbreviation resolveSelectionContent_ :=
  (resolveSelectionContent isPrintTable floatToJson float64_of_int float64_of_float32
     float32_of_float64 hostCall definedEnums).
Local Abbreviation resolveField_ :=
  (resolveField isPrintTable floatToJson float64_of_int float64_of_float32
     float32_of_float64 hostCall definedEnums).
Local Abbreviation resolveFieldDataValue_ :=
  (resolveFieldDataValue isPrintTable floatToJson float64_of_int float64_of_float32
     float32_of_float64 hostCall definedEnums).
Local Abbreviation start_ :=
  (start isPrintTable floatToJson float64_of_int float64_of_float32
     float32_of_float64 hostCall definedEnums).

(** Running a bind whose first computation is known *)
Lemma bind_Done {A B} (m : M A) (k : A -> M B) (ctx ctx' : Ctx) (a : A) :
  m ctx = Done (a, ctx') -> (m ≫= k) ctx = k a ctx'.
Proof. intros H. unfold mbind, M_bind. now rewrite H. Qed.

Lemma bind_lift_Done {A B} (o : outcome A) (k : A -> M B) (ctx : Ctx) (a : A) :
  o = Done a -> (lift o ≫= k) ctx = k a ctx.
Proof. intros ->. reflexivity. Qed.

(** The methods with fuel left are their bodies over the methods with one
    unit less. *)
Lemma resolveSelection_S (fuel : nat) :
  resolveSelection_ (S fuel) = resolveSelection_body (resolveSelectionContent_ fuel).
Proof. reflexivity. Qed.

Lemma resolveSelectionContent_S (fuel : nat) :
  resolveSelectionContent_ (S fuel)
  = resolveSelectionContent_body (resolveField_ fuel) (resolveSelectionContent_ fuel).
Proof. reflexivity. Qed.

Lemma resolveField_S (fuel : nat) :
  resolveField_ (S fuel) = resolveField_body (resolveFieldDataValue_ fuel).
Proof. reflexivity. Qed.

Lemma resolveFieldDataValue_S (fuel : nat) :
  resolveFieldDataValue_ (S fuel)
  = resolveFieldDataValue_body isPrintTable floatToJson float64_of_int float64_of_float32
      float32_of_float64 hostCall definedEnums
      (resolveSelection_ fuel) (resolveFieldDataValue_ fuel).
Proof. reflexivity. Qed.

(** *** A method whose function value is nil *)

Lemma resolveFieldDataValue_nil_method (fuel : nat) (query : Field)
    (value : reflect.Value) (codeStructure : Obj) (dept : Z) (ctx : Ctx) :
  valueType codeStructure = valueTypeMethod ->
  reflect.IsNil value = Done true ->
  resolveFieldDataValue_ (S fuel) query value codeStructure dept ctx
  = Done (("null", false), ctx).
Proof.
  intros Hm Hnil. rewrite resolveFieldDataValue_S.
  unfold resolveFieldDataValue_body. rewrite Hm.
  now rewrite (bind_lift_Done _ _ _ _ Hnil).
Qed.

Lemma resolveField_nil_method (fuel : nat) (query : Field) (struct_ value : reflect.Value)
    (structType structItem : Obj) (dept : Z) (ctx : Ctx) :
  objContents structType !! name query = Some structItem ->
  valueType structItem = valueTypeMethod ->
  resolveField_value struct_ structItem = Done value ->
  reflect.IsNil value = Done true ->
  resolveField_ (S (S fuel)) query struct_ structType dept ctx
  = Done ((resolveField_res query "null", false), ctx).
Proof.
  intros Hitem Hm Hv Hnil.
  rewrite resolveField_S. unfold resolveField_body. rewrite Hitem.
  rewrite (bind_lift_Done _ _ _ _ Hv).
  rewrite (bind_Done _ _ _ _ _
             (resolveFieldDataValue_nil_method fuel query value structItem dept ctx Hm Hnil)).
  reflexivity.
Qed.

(** C10: a method-backed field whose function value is nil resolves to null
    with the errored flag unset and leaves the context as it was (no error
    is recorded, nothing is called); the field is then the member
    [key:null] of the enclosing object body. *)
Theorem nil_method_resolves_to_null (fuel : nat) (query : Field)
    (struct_ value : reflect.Value) (structType structItem : Obj) (dept : Z) (ctx : Ctx) :
  objContents structType !! name query = Some structItem ->
  valueType structItem = valueTypeMethod ->
  resolveField_value struct_ structItem = Done value ->
  reflect.IsNil value = Done true ->
  resolveFieldDataValue_ (S fuel) query value structItem dept ctx
    = Done (("null", false), ctx)
  /\ resolveField_ (S (S fuel)) query struct_ structType dept ctx
    = Done ((resolveField_res query "null", false), ctx)
  /\ resolveSelectionContent_ (S (S (S fuel))) [SelField query] struct_ structType dept ctx
    = Done (resolveField_res query "null", ctx).
Proof.
  intros Hitem Hm Hv Hnil.
  split; [exact (resolveFieldDataValue_nil_method _ _ _ _ _ _ Hm Hnil)|].
  split; [exact (resolveField_nil_method _ _ _ _ _ _ _ _ Hitem Hm Hv Hnil)|].
  rewrite resolveSelectionContent_S. unfold resolveSelectionContent_body.
  cbn [resolveSelectionContent_loop].
  rewrite (bind_Done _ _ _ _ _ (resolveField_nil_method _ _ _ _ _ _ _ _ Hitem Hm Hv Hnil)).
  reflexivity.
Qed.

(** *** A field that the object type does not have *)






(** *** The depth guard *)



(** *** The context only grows *)

Lemma grows_refl (ctx : Ctx) : grows ctx ctx.
Proof. repeat split; reflexivity. Qed.

Lemma grows_trans (c1 c2 c3 : Ctx) : grows c1 c2 -> grows c2 c3 -> grows c1 c3.
Proof.
  intros (S1 & F1 & E1 & I1) (S2 & F2 & E2 & I2). repeat split.
  - congruence.
  - congruence.
  - etrans; eassumption.
  - etrans; eassumption.
Qed.

Lemma accumulates_ret {A} (a : A) : accumulates (mret a).
Proof. intros ctx a' ctx' H. injection H as _ <-. apply grows_refl. Qed.

Lemma accumulates_lift {A} (o : outcome A) : accumulates (lift o).
Proof.
  intros ctx a ctx' H. unfold lift in H. destruct o; try discriminate.
  injection H as _ <-. apply grows_refl.
Qed.

Lemma accumulates_reads {A} (field : Ctx -> A) : accumulates (reads field).
Proof. intros ctx a ctx' H. injection H as _ <-. apply grows_refl. Qed.

Lemma accumulates_outOfFuel {A} : accumulates (@outOfFuel A).
Proof. intros ctx a ctx' H. discriminate. Qed.

Lemma accumulates_addErr (err : string) : accumulates (addErr err).
Proof.
  intros ctx a ctx' H. injection H as _ <-.
  repeat split; simpl; try reflexivity. now apply prefix_app_r.
Qed.

Lemma accumulates_Call (value : reflect.Value) (inputs : list reflect.Value) :
  accumulates (Call_ value inputs).
Proof.
  intros ctx a ctx' H. unfold Call in H.
  destruct (reflect.scalar value); try discriminate.
  injection H as _ <-. repeat split; simpl; try reflexivity. now apply prefix_app_r.
Qed.

Lemma accumulates_bind {A B} (m : M A) (k : A -> M B) :
  accumulates m -> (forall a, accumulates (k a)) -> accumulates (m ≫= k).
Proof.
  intros Hm Hk ctx b ctx' H. unfold mbind, M_bind in H.
  destruct (m ctx) as [[a ctx1]| |] eqn:E; try discriminate.
  eapply grows_trans; [exact (Hm _ _ _ E) | exact (Hk _ _ _ _ H)].
Qed.

(** The routine steps of an accumulation proof *)
Ltac accumulate :=
  repeat first
    [ apply accumulates_ret
    | apply accumulates_lift
    | apply accumulates_reads
    | apply accumulates_addErr
    | apply accumulates_Call
    | apply accumulates_outOfFuel
    | assumption
    | apply accumulates_bind; [|intros]
    | match goal with
      | |- accumulates (match ?x with _ => _ end) => destruct x
      | |- accumulates (if ?x then _ else _) => destruct x
      | |- accumulates (let (_, _) := ?x in _) => destruct x
      end ].

Lemma accumulates_loop
    (resolveField' : Field -> M (string * bool))
    (resolveSelectionContent' : SelectionSet -> M string) :
  (forall f, accumulates (resolveField' f)) ->
  (forall sel, accumulates (resolveSelectionContent' sel)) ->
  forall selectionSet res writtenToRes,
    accumulates (resolveSelectionContent_loop resolveField' resolveSelectionContent'
                   selectionSet res writtenToRes).
Proof.
  intros Hf Hc. induction selectionSet as [|selection rest IH]; intros res w;
    cbn [resolveSelectionContent_loop].
  - accumulate.
  - destruct selection as [field|fname|sel]; accumulate; auto.
Qed.

Lemma accumulates_arguments (query : Field) (method_ : Method) (args : Arguments_) :
  forall inputs, accumulates (arguments_ query method_ args inputs).
Proof.
  induction args as [|[queryKey queryValue] rest IH]; intros inputs;
    cbn [resolveFieldDataValue_arguments]; accumulate; auto.
Qed.

Lemma accumulates_errorOut (query : Field) (method_ : Method) (outs : list reflect.Value) :
  accumulates (resolveFieldDataValue_errorOut query method_ outs).
Proof. unfold resolveFieldDataValue_errorOut. accumulate. Qed.

Lemma accumulates_elements (resolveFieldDataValue' : reflect.Value -> M (string * bool)) :
  (forall v, accumulates (resolveFieldDataValue' v)) ->
  forall elems list_,
    accumulates (resolveFieldDataValue_elements resolveFieldDataValue' elems list_).
Proof.
  intros Hr. induction elems as [|v rest IH]; intros list_;
    cbn [resolveFieldDataValue_elements]; accumulate; auto.
Qed.

(** Whatever the fuel, the four methods only add to the context. *)
Lemma accumulates_executor (fuel : nat) :
  (forall sel v t d, accumulates (resolveSelection_ fuel sel v t d))
  /\ (forall sel v t d, accumulates (resolveSelectionContent_ fuel sel v t d))
  /\ (forall q v t d, accumulates (resolveField_ fuel q v t d))
  /\ (forall q v t d, accumulates (resolveFieldDataValue_ fuel q v t d)).
Proof.
  induction fuel as [|fuel (IHs & IHc & IHf & IHd)].
  - split; [|split; [|split]]; intros; apply accumulates_outOfFuel.
  - split; [|split; [|split]]; intros.
    + rewrite resolveSelection_S. unfold resolveSelection_body. accumulate. apply IHc.
    + rewrite resolveSelectionContent_S. unfold resolveSelectionContent_body.
      apply accumulates_loop; intros; [apply IHf | apply IHc].
    + rewrite resolveField_S. unfold resolveField_body. accumulate. apply IHd.
    + rewrite resolveFieldDataValue_S. unfold resolveFieldDataValue_body.
      accumulate; try apply accumulates_arguments; try apply accumulates_errorOut;
        try apply IHd; try apply IHs.
      apply accumulates_elements. intros. apply IHd.
Qed.


(** *** The arguments of a method *)



(** *** The errors are write-only *)

Lemma blind_ret {A} (a : A) : errors_blind (mret a).
Proof. intros c1 c2 H. exists c2. split; [reflexivity | exact H]. Qed.

Lemma blind_lift {A} (o : outcome A) : errors_blind (lift o).
Proof.
  intros c1 c2 H. unfold lift. destruct o; try reflexivity.
  exists c2. split; [reflexivity | exact H].
Qed.

Lemma blind_reads_schema : errors_blind (reads schema).
Proof.
  intros c1 c2 H. exists c2. unfold reads.
  split; [|exact H]. destruct H as (_ & -> & _). reflexivity.
Qed.

Lemma blind_reads_fragments : errors_blind (reads fragments).
Proof.
  intros c1 c2 H. exists c2. unfold reads.
  split; [|exact H]. destruct H as (-> & _). reflexivity.
Qed.

Lemma blind_outOfFuel {A} : errors_blind (@outOfFuel A).
Proof. intros c1 c2 H. reflexivity. Qed.

Lemma blind_addErr (err : string) : errors_blind (addErr err).
Proof.
  intros c1 c2 H. unfold addErr. eexists. split; [reflexivity|].
  destruct H as (F & S & V & D & I). repeat split; assumption.
Qed.

Lemma blind_Call (value : reflect.Value) (inputs : list reflect.Value) :
  errors_blind (Call_ value inputs).
Proof.
  intros c1 c2 H. unfold Call. destruct (reflect.scalar value); try reflexivity.
  eexists. split; [reflexivity|].
  destruct H as (F & S & V & D & I). repeat split; simpl; congruence.
Qed.

Lemma blind_bind {A B} (m : M A) (k : A -> M B) :
  errors_blind m -> (forall a, errors_blind (k a)) -> errors_blind (m ≫= k).
Proof.
  intros Hm Hk c1 c2 H. unfold mbind, M_bind. specialize (Hm c1 c2 H).
  destruct (m c1) as [[a c1']| |].
  - destruct Hm as (c2' & -> & H'). exact (Hk a c1' c2' H').
  - now rewrite Hm.
  - now rewrite Hm.
Qed.

(** The routine steps of a write-only proof *)
Ltac blind :=
  repeat first
    [ apply blind_ret
    | apply blind_lift
    | apply blind_reads_schema
    | apply blind_reads_fragments
    | apply blind_addErr
    | apply blind_Call
    | apply blind_outOfFuel
    | assumption
    | apply blind_bind; [|intros]
    | match goal with
      | |- errors_blind (match ?x with _ => _ end) => destruct x
      | |- errors_blind (if ?x then _ else _) => destruct x
      | |- errors_blind (let (_, _) := ?x in _) => destruct x
      end ].

Lemma blind_loop
    (resolveField' : Field -> M (string * bool))
    (resolveSelectionContent' : SelectionSet -> M string) :
  (forall f, errors_blind (resolveField' f)) ->
  (forall sel, errors_blind (resolveSelectionContent' sel)) ->
  forall selectionSet res writtenToRes,
    errors_blind (resolveSelectionContent_loop resolveField' resolveSelectionContent'
                    selectionSet res writtenToRes).
Proof.
  intros Hf Hc. induction selectionSet as [|selection rest IH]; intros res w;
    cbn [resolveSelectionContent_loop].
  - blind.
  - destruct selection as [field|fname|sel]; blind; auto.
Qed.

Lemma blind_arguments (query : Field) (method_ : Method) (args : Arguments_) :
  forall inputs, errors_blind (arguments_ query method_ args inputs).
Proof.
  induction args as [|[queryKey queryValue] rest IH]; intros inputs;
    cbn [resolveFieldDataValue_arguments]; blind; auto.
Qed.

Lemma blind_errorOut (query : Field) (method_ : Method) (outs : list reflect.Value) :
  errors_blind (resolveFieldDataValue_errorOut query method_ outs).
Proof. unfold resolveFieldDataValue_errorOut. blind. Qed.

Lemma blind_elements (resolveFieldDataValue' : reflect.Value -> M (string * bool)) :
  (forall v, errors_blind (resolveFieldDataValue' v)) ->
  forall elems list_,
    errors_blind (resolveFieldDataValue_elements resolveFieldDataValue' elems list_).
Proof.
  intros Hr. induction elems as [|v rest IH]; intros list_;
    cbn [resolveFieldDataValue_elements]; blind; auto.
Qed.


(** Whatever the fuel, the four methods never look at the errors. *)
Lemma blind_executor (fuel : nat) :
  (forall sel v t d, errors_blind (resolveSelection_ fuel sel v t d))
  /\ (forall sel v t d, errors_blind (resolveSelectionContent_ fuel sel v t d))
  /\ (forall q v t d, errors_blind (resolveField_ fuel q v t d))
  /\ (forall q v t d, errors_blind (resolveFieldDataValue_ fuel q v t d)).
Proof.
  induction fuel as [|fuel (IHs & IHc & IHf & IHd)].
  - split; [|split; [|split]]; intros; apply blind_outOfFuel.
  - split; [|split; [|split]]; intros.
    + rewrite resolveSelection_S. unfold resolveSelection_body. blind. apply IHc.
    + rewrite resolveSelectionContent_S. unfold resolveSelectionContent_body.
      apply blind_loop; intros; [apply IHf | apply IHc].
    + rewrite resolveField_S. unfold resolveField_body. blind. apply IHd.
    + rewrite resolveFieldDataValue_S. unfold resolveFieldDataValue_body.
      blind; try apply blind_arguments; try apply blind_errorOut;
        try apply IHd; try apply IHs.
      apply blind_elements. intros. apply IHd.
Qed.

(** *** Methods *)

Local Abbreviation invoke_ fuel :=
  (resolveFieldDataValue_invoke hostCall (resolveFieldDataValue_ fuel)).

(** The method case, once the function value and the inputs are there *)
Lemma resolveFieldDataValue_method (fuel : nat) (query : Field) (value : reflect.Value)
    (codeStructure : Obj) (method_ : Method) (inputs : list reflect.Value)
    (dept : Z) (ctx : Ctx) :
  valueType codeStructure = valueTypeMethod ->
  reflect.IsNil value = Done false ->
  method codeStructure = Some method_ ->
  method_inputs (ins method_) = Done inputs ->
  resolveFieldDataValue_ (S fuel) query value codeStructure dept ctx
  = match arguments_ query method_ (arguments query) inputs ctx with
    | Done (inl returned, ctx') => Done (returned, ctx')
    | Done (inr inputs', ctx') => invoke_ fuel query value method_ inputs' dept ctx'
    | Panic r => Panic r
    | OutOfFuel => OutOfFuel
    end.
Proof.
  intros Hm Hnil Hmeth Hins. rewrite resolveFieldDataValue_S.
  unfold resolveFieldDataValue_body. rewrite Hm.
  rewrite (bind_lift_Done _ _ _ _ Hnil). cbv iota. rewrite Hmeth.
  rewrite (bind_lift_Done _ _ _ _ eq_refl).
  rewrite (bind_lift_Done _ _ _ _ Hins).
  unfold mbind at 1. unfold M_bind at 1.
  destruct (arguments_ query method_ (arguments query) inputs ctx) as [[[r|i] c]| |];
    reflexivity.
Qed.







(** A leaf value without a selection is serialised by [valueToJson]. *)
Lemma resolveFieldDataValue_data (fuel : nat) (query : Field) (value : reflect.Value)
    (codeStructure : Obj) (dept : Z) (ctx : Ctx) :
  valueType codeStructure = valueTypeData ->
  selection query = [] ->
  value <> reflect.VInvalid ->
  resolveFieldDataValue_ (S fuel) query value codeStructure dept ctx
  = Done ((fst (valueToJson_ value), false), ctx).
Proof.
  intros Hd Hsel Hv. rewrite resolveFieldDataValue_S.
  unfold resolveFieldDataValue_body. rewrite Hd, Hsel.
  assert (Hi : Value_Interface value = Done value)
    by (destruct value; first [reflexivity | congruence]).
  rewrite (bind_lift_Done _ _ _ _ Hi).
  now destruct (valueToJson_ value).
Qed.

(** C5: when the method has a designated error output and the call yields a
    non-nil error there, the message of the error is recorded, and the field
    is what the value output resolves to against [outType]: for a leaf output,
    its JSON token, with the errored flag unset.  The message stays in the
    errors of the run. *)
Theorem method_error_is_recorded_and_value_serialised (fuel : nat) (query : Field)
    (value : reflect.Value) (codeStructure : Obj) (method_ : Method) (dept : Z) (ctx : Ctx)
    (inputs0 inputs : list reflect.Value) (ctx1 : Ctx) (id nr : nat) (msg : string)
    (out : reflect.Value) :
  valueType codeStructure = valueTypeMethod ->
  reflect.IsNil value = Done false ->
  method codeStructure = Some method_ ->
  method_inputs (ins method_) = Done inputs0 ->
  arguments_ query method_ (arguments query) inputs0 ctx = Done (inr inputs, ctx1) ->
  reflect.scalar value = reflect.VFunc id ->
  errorOutNr method_ = Some nr ->
  hostCall id inputs !! nr = Some (reflect.VError msg) ->
  hostCall id inputs !! outNr method_ = Some out ->
  let ctx2 := with_errors (with_invoked ctx1 (invoked ctx1 ++ [(id, inputs)]))
                          (errors ctx1 ++ [msg]) in
  resolveFieldDataValue_ (S fuel) query value codeStructure dept ctx
    = resolveFieldDataValue_ fuel query out (outType method_) dept ctx2
  /\ (valueType (outType method_) = valueTypeData -> selection query = [] ->
      out <> reflect.VInvalid ->
      resolveFieldDataValue_ (S (S fuel)) query value codeStructure dept ctx
      = Done ((fst (valueToJson_ out), false), ctx2))
  /\ (forall r c3,
        resolveFieldDataValue_ (S fuel) query value codeStructure dept ctx = Done (r, c3) ->
        In msg (errors c3)).
Proof.
  intros Hm Hnil Hmeth Hins Hargs Hf Hnr Herr Hout ctx2.
  assert (Hrun : forall n,
            resolveFieldDataValue_ (S n) query value codeStructure dept ctx
            = resolveFieldDataValue_ n query out (outType method_) dept ctx2).
  { intros n.
    rewrite (resolveFieldDataValue_method n query value codeStructure method_ inputs0
               dept ctx Hm Hnil Hmeth Hins), Hargs.
    unfold resolveFieldDataValue_invoke.
    unfold mbind at 1. unfold M_bind at 1. unfold Call at 1. rewrite Hf.
    unfold resolveFieldDataValue_errorOut. rewrite Hnr.
    unfold index. rewrite Herr, Hout. reflexivity. }
  split; [apply Hrun|]. split.
  - intros Hd Hsel Hv. rewrite Hrun.
    exact (resolveFieldDataValue_data fuel query out (outType method_) dept ctx2 Hd Hsel Hv).
  - intros r c3 Hdone. rewrite Hrun in Hdone.
    destruct (accumulates_executor fuel) as (_ & _ & _ & Hacc).
    apply Hacc in Hdone as (_ & _ & [k Hk] & _). rewrite Hk. simpl.
    apply in_or_app. left. apply in_or_app. right. now left.
Qed.

(** *** Lists *)

Lemma nwe_ret (s : string) (b : bool) :
  (b = true -> s = "null") -> null_when_errored (mret (s, b)).
Proof. intros H ctx s' ctx' E. injection E as <- -> _. now apply H. Qed.

Lemma nwe_lift_panic (r : string) : null_when_errored (lift (Panic r)).
Proof. intros ctx s ctx' E. discriminate. Qed.

Lemma nwe_bind {A} (m : M A) (k : A -> M (string * bool)) (Q : A -> Prop) :
  (forall ctx a ctx', m ctx = Done (a, ctx') -> Q a) ->
  (forall a, Q a -> null_when_errored (k a)) ->
  null_when_errored (m ≫= k).
Proof.
  intros Hm Hk ctx s ctx' E. unfold mbind, M_bind in E.
  destruct (m ctx) as [[a c]| |] eqn:Em; try discriminate.
  exact (Hk a (Hm _ _ _ Em) _ _ _ E).
Qed.

Lemma nwe_bind_any {A} (m : M A) (k : A -> M (string * bool)) :
  (forall a, null_when_errored (k a)) -> null_when_errored (m ≫= k).
Proof. intros Hk. apply (nwe_bind m k (fun _ => True)); auto. Qed.

(** What the loop over the arguments returns from inside is null, errored. *)
Lemma arguments_returned (query : Field) (method_ : Method) (args : Arguments_) :
  forall inputs ctx returned ctx',
    arguments_ query method_ args inputs ctx = Done (inl returned, ctx') ->
    returned = ("null", true).
Proof.
  induction args as [|[queryKey queryValue] rest IH]; intros inputs ctx returned ctx' H.
  - discriminate.
  - cbn [resolveFieldDataValue_arguments] in H.
    destruct (inFields method_ !! queryKey) as [inField|].
    + unfold mbind, M_bind, reads, lift in H.
      destruct (index inputs (inputIdx inField)) as [param| |]; try discriminate.
      destruct (reflect.FieldByName param (goFieldName (input inField)))
        as [goField| |]; try discriminate.
      destruct (matchInputValue_ (inTypes (schema ctx)) queryValue goField (input inField))
        as [[err|x]| |]; try discriminate.
      * now injection H as <- _.
      * exact (IH _ _ _ _ H).
    + unfold mbind, M_bind, addErr in H. exact (IH _ _ _ _ H).
Qed.

Lemma errorOut_returned (query : Field) (method_ : Method) (outs : list reflect.Value)
    (ctx ctx' : Ctx) (returned : string * bool) :
  resolveFieldDataValue_errorOut query method_ outs ctx = Done (Some returned, ctx') ->
  returned = ("null", true).
Proof.
  unfold resolveFieldDataValue_errorOut. intros H.
  destruct (errorOutNr method_) as [nr|]; [|discriminate].
  unfold mbind, M_bind, lift, addErr in H.
  destruct (index outs nr) as [errOut| |]; try discriminate.
  destruct (reflect.IsNil errOut) as [[]| |]; try discriminate.
  simpl in H. destruct (asError errOut); try discriminate.
  now injection H as <- _.
Qed.

Lemma errored_is_null (fuel : nat) :
  forall query value codeStructure dept,
    null_when_errored (resolveFieldDataValue_ fuel query value codeStructure dept).
Proof.
  induction fuel as [|fuel IH]; intros query value codeStructure dept.
  - intros ctx s ctx' E. discriminate.
  - rewrite resolveFieldDataValue_S. unfold resolveFieldDataValue_body.
    destruct (valueType codeStructure).
    + apply nwe_bind_any. intros _. now apply nwe_ret.
    + apply nwe_bind_any. intros [|]; [apply nwe_ret; discriminate|].
      destruct (innerContent codeStructure).
      * apply nwe_bind_any. intros elems. apply nwe_bind_any. intros l.
        apply nwe_ret. discriminate.
      * apply nwe_bind_any. intros _. now apply nwe_ret.
    + destruct (selection query).
      * apply nwe_bind_any. intros _. now apply nwe_ret.
      * apply nwe_bind_any. intros sch.
        destruct (bool_decide _); [destruct (types sch !! typeName codeStructure)|].
        -- apply nwe_bind_any. intros val. apply nwe_ret. discriminate.
        -- apply nwe_bind_any. intros _. now apply nwe_ret.
        -- apply nwe_bind_any. intros val. apply nwe_ret. discriminate.
    + destruct (selection query).
      * apply nwe_bind_any. intros _. now apply nwe_ret.
      * apply nwe_bind_any. intros sch.
        destruct (bool_decide _); [destruct (types sch !! typeName codeStructure)|].
        -- apply nwe_bind_any. intros val. apply nwe_ret. discriminate.
        -- apply nwe_bind_any. intros _. now apply nwe_ret.
        -- apply nwe_bind_any. intros val. apply nwe_ret. discriminate.
    + destruct (selection query).
      * apply nwe_bind_any. intros in_. destruct (valueToJson_ in_).
        apply nwe_ret. discriminate.
      * apply nwe_bind_any. intros _. now apply nwe_ret.
    + apply nwe_bind_any. intros [|]; [apply nwe_ret; discriminate|].
      apply nwe_bind_any. intros elem_.
      destruct (innerContent codeStructure); [apply IH | apply nwe_lift_panic].
    + apply nwe_bind_any. intros [|]; [apply nwe_ret; discriminate|].
      apply nwe_bind_any. intros method_. apply nwe_bind_any. intros inputs.
      eapply nwe_bind.
      * intros ctx a ctx' E. instantiate (1 := fun a => forall r, a = inl r -> r = ("null", true)).
        intros r ->. exact (arguments_returned _ _ _ _ _ _ _ E).
      * intros [returned|inputs'] Hq.
        -- rewrite (Hq returned eq_refl). now apply nwe_ret.
        -- unfold resolveFieldDataValue_invoke.
           apply nwe_bind_any. intros outs.
           eapply nwe_bind.
           ++ intros ctx a ctx' E.
              instantiate (1 := fun a => forall r, a = Some r -> r = ("null", true)).
              intros r ->. exact (errorOut_returned _ _ _ _ _ _ E).
           ++ intros [returned|] Hq'.
              ** rewrite (Hq' returned eq_refl). now apply nwe_ret.
              ** apply nwe_bind_any. intros out. apply IH.
    + destruct (definedEnums !! enumKey codeStructure) as [enum_|];
        [|apply nwe_lift_panic].
      destruct (reflect.MapIndex (valueKey enum_) value);
        first [apply nwe_lift_panic | apply nwe_ret; discriminate].
Qed.

(** The loop over the elements appends one entry per element, and the entry
    of an element that came back errored is null. *)
Lemma elements_entries (fuel : nat) (query : Field) (inner : Obj) (dept : Z)
    (elems : list reflect.Value) :
  forall list_ ctx out ctx',
    resolveFieldDataValue_elements
      (fun value_i => resolveFieldDataValue_ fuel query value_i inner dept)
      elems list_ ctx = Done (out, ctx') ->
    exists entries,
      out = (list_ ++ entries)%list
      /\ Forall2 (fun value_i entry =>
                    exists c c' flag,
                      resolveFieldDataValue_ fuel query value_i inner dept c
                      = Done ((entry, flag), c')
                      /\ (flag = true -> entry = "null"))
                 elems entries.
Proof.
  induction elems as [|v rest IH]; intros list_ ctx out ctx' H.
  - injection H as <- _. exists []. split; [now rewrite app_nil_r | constructor].
  - cbn [resolveFieldDataValue_elements] in H. unfold mbind, M_bind in H.
    destruct (resolveFieldDataValue_ fuel query v inner dept ctx)
      as [[[res flag] c]| |] eqn:E; try discriminate.
    apply IH in H as (entries & -> & Hall).
    exists (res :: entries). split; [now rewrite <- app_assoc|].
    constructor; [|exact Hall].
    exists ctx, c, flag. split; [exact E|].
    intros ->. exact (errored_is_null fuel query v inner dept ctx res c E).
Qed.

(** A non-nil slice: the bracketed, comma-joined entries of its elements, one
    per element, with the errored flag unset whatever the elements did. *)
Lemma resolveFieldDataValue_slice (fuel : nat) (query : Field) (e : reflect.Type_)
    (l : list reflect.Value) (codeStructure inner : Obj) (dept : Z) (ctx : Ctx) :
  valueType codeStructure = valueTypeArray ->
  innerContent codeStructure = Some inner ->
  resolveFieldDataValue_ (S fuel) query (reflect.VSlice e l) codeStructure dept ctx
  = match resolveFieldDataValue_elements
            (fun value_i => resolveFieldDataValue_ fuel query value_i inner dept) l [] ctx with
    | Done (list_, ctx') => Done (("[" +:+ strings_Join list_ "," +:+ "]", false), ctx')
    | Panic r => Panic r
    | OutOfFuel => OutOfFuel
    end
  /\ (forall r ctx',
        resolveFieldDataValue_ (S fuel) query (reflect.VSlice e l) codeStructure dept ctx
        = Done (r, ctx') ->
        exists entries,
          r = ("[" +:+ strings_Join entries "," +:+ "]", false)
          /\ length entries = length l).
Proof.
  intros Ha Hin.
  assert (Heq : resolveFieldDataValue_ (S fuel) query (reflect.VSlice e l) codeStructure dept ctx
    = match resolveFieldDataValue_elements
              (fun value_i => resolveFieldDataValue_ fuel query value_i inner dept) l [] ctx with
      | Done (list_, ctx') => Done (("[" +:+ strings_Join list_ "," +:+ "]", false), ctx')
      | Panic r => Panic r
      | OutOfFuel => OutOfFuel
      end).
  { rewrite resolveFieldDataValue_S. unfold resolveFieldDataValue_body. rewrite Ha, Hin.
    cbn [reflect.kind reflect.IsNil reflect.elements].
    change (negb (bool_decide (reflect.Slice = reflect.Array))
            && negb (bool_decide (reflect.Slice = reflect.Slice))) with false. cbv iota.
    rewrite (bind_lift_Done _ _ _ _ eq_refl). cbv iota.
    rewrite (bind_lift_Done _ _ _ _ eq_refl).
    unfold mbind, M_bind.
    destruct (resolveFieldDataValue_elements _ l [] ctx) as [[list_ c]| |]; reflexivity. }
  split; [exact Heq|].
  intros r ctx' H. rewrite Heq in H.
  destruct (resolveFieldDataValue_elements _ l [] ctx) as [[list_ c]| |] eqn:E;
    try discriminate.
  injection H as <- _.
  apply elements_entries in E as (entries & -> & Hall).
  exists entries. split; [reflexivity|].
  symmetry. exact (Forall2_length _ _ _ Hall).
Qed.

(** A non-nil slice of leaf values, selected without a selection set: the
    executor returns, with the JSON tokens of the elements. *)
Lemma resolveFieldDataValue_slice_of_leaves (fuel : nat) (query : Field)
    (e : reflect.Type_) (l : list reflect.Value) (codeStructure inner : Obj)
    (dept : Z) (ctx : Ctx) :
  valueType codeStructure = valueTypeArray ->
  innerContent codeStructure = Some inner ->
  valueType inner = valueTypeData ->
  selection query = [] ->
  Forall (fun v => v <> reflect.VInvalid) l ->
  resolveFieldDataValue_ (S (S fuel)) query (reflect.VSlice e l) codeStructure dept ctx
  = Done (("[" +:+ strings_Join (map (fun v => fst (valueToJson_ v)) l) "," +:+ "]", false),
          ctx).
Proof.
  intros Ha Hin Hd Hsel Hall.
  destruct (resolveFieldDataValue_slice (S fuel) query e l codeStructure inner dept ctx Ha Hin)
    as [-> _].
  assert (Hloop : forall list_,
    resolveFieldDataValue_elements
      (fun value_i => resolveFieldDataValue_ (S fuel) query value_i inner dept) l list_ ctx
    = Done ((list_ ++ map (fun v => fst (valueToJson_ v)) l)%list, ctx)).
  { induction Hall as [|v rest Hv Hrest IH]; intros list_.
    - simpl. now rewrite app_nil_r.
    - cbn [resolveFieldDataValue_elements].
      rewrite (bind_Done _ _ _ _ _
                 (resolveFieldDataValue_data fuel query v inner dept ctx Hd Hsel Hv)).
      rewrite IH. simpl. now rewrite <- app_assoc. }
  now rewrite Hloop.
Qed.

(** C8, at the failing input: for a field that is a Go array (of fixed
    length), the guard of the list case calls [IsNil] on the array, and the
    executor panics instead of writing the list. *)
Theorem fixed_array_panics (fuel : nat) (query : Field) (e : reflect.Type_)
    (l : list reflect.Value) (tn sfn ek : string) (oc : gmap string Obj)
    (inner : option Obj) (m : option Method) (cov : option reflect.Value)
    (dept : Z) (ctx : Ctx) :
  resolveFieldDataValue_ (S fuel) query (reflect.VArray e l)
    (mkObj valueTypeArray tn sfn oc inner m ek cov) dept ctx
  = Panic "reflect: call of reflect.Value.IsNil on a value that cannot be nil".
Proof. reflexivity. Qed.

(** *** [valueToJson] *)

(** The leaf scalars, one by one: booleans, integers of every width in
    decimal, strings through the verb q of [fmt] (a JSON string when the
    string is made of plain bytes), nil pointers as null, other pointers through
    the value they point to, and every other value as null with the error
    [invalid data type]. *)
Lemma valueToJson_leaf_scalars :
  (forall b, valueToJson_ (reflect.VBool b) = ((if b then "true" else "false"), None))
  /\ (forall k n, valueToJson_ (reflect.VInt k n) = (fmt_d n, None)
                  /\ parse_decimal (fmt_d n) = Some n)
  /\ (forall s, valueToJson_ (reflect.VString s) = (strconv.Quote isPrintTable s, None)
                /\ (plainString s = true ->
                    json_string_literal (strconv.Quote isPrintTable s) = true))
  /\ (forall t, isBasicType t = true ->
                valueToJson_ (reflect.VNil (reflect.TPtr t)) = ("null", None))
  /\ (forall v, isBasicValue v = true -> valueToJson_ (reflect.VPtr v) = valueToJson_ v)
  /\ (forall v, supportedValue v = false ->
                valueToJson_ v = ("null", Some "invalid data type")).
Proof.
  split; [|split; [|split; [|split; [|split]]]].
  - intros []; reflexivity.
  - intros k n. split; [reflexivity | apply fmt_d_roundtrip].
  - intros s. split; [reflexivity | apply fmt_q_plain_is_json].
  - intros t Ht. simpl. now rewrite Ht.
  - intros v Hv. cbn [valueToJson]. now rewrite Hv.
  - intros v Hv. destruct v as [| | | | | |x|t| | | | | | |]; try discriminate Hv;
      try reflexivity.
    + simpl in Hv. cbn [valueToJson]. now rewrite Hv.
    + destruct t; try reflexivity. simpl in Hv. simpl. now rewrite Hv.
Qed.

(** C7, at the failing input: the string that holds the one byte 7 (bell)
    comes out as a backslash and the letter a between double quotes, which is
    Go syntax and not a JSON string. *)
Theorem valueToJson_bell_is_not_json :
  valueToJson_ (reflect.VString bell) = (DQ +:+ BS +:+ "a" +:+ DQ, None)
  /\ json_string_literal (fst (valueToJson_ (reflect.VString bell))) = false.
Proof. split; reflexivity. Qed.

(** *** [Resolve] *)

Variable ParseQueryAndCheckNames :
  string -> gmap string Operator * list (string * Operator) * list string.

Local Abbreviation Resolve_ :=
  (Resolve isPrintTable floatToJson float64_of_int float64_of_float32
     float32_of_float64 hostCall definedEnums ParseQueryAndCheckNames).


(** With parse errors, [Resolve] returns them and runs nothing. *)
Lemma Resolve_parse_errors (fuel : nat) (s : Schema) (query operatorTarget : string)
    (fragments_ : gmap string Operator) (operatorsMap : list (string * Operator))
    (err : string) (errs : list string) :
  ParseQueryAndCheckNames query = (fragments_, operatorsMap, err :: errs) ->
  Resolve_ fuel s query operatorTarget = Done ("{}", err :: errs).
Proof. intros Hparse. unfold Resolve. now rewrite Hparse. Qed.

(** With several operators, a target that names one of them runs it. *)
Lemma Resolve_target (fuel : nat) (s : Schema) (query operatorTarget : string)
    (fragments_ : gmap string Operator) (operatorsMap : list (string * Operator))
    (operator : Operator) :
  ParseQueryAndCheckNames query = (fragments_, operatorsMap, []) ->
  1 < length operatorsMap -> operatorTarget <> EmptyString ->
  reflect.assoc operatorTarget operatorsMap = Some operator ->
  Resolve_ fuel s query operatorTarget
  = returning (start_ fuel operator) (initialCtx fragments_ s).
Proof.
  intros Hparse Hlen Hne Hsome. unfold Resolve. rewrite Hparse.
  destruct operatorsMap as [|o1 [|o2 rest]]; simpl in Hlen; try lia.
  cbn [length Nat.ltb Nat.leb]. rewrite bool_decide_eq_false_2 by exact Hne.
  now rewrite Hsome.
Qed.

End ExecutorProperties.

(** * Further properties *)

(** ** [GenerateResponse], for every input *)

(** X1: the response is the data member alone when there are no errors;
    otherwise the data member, then at once the errors member with one entry
    per error, in order, the entries separated by commas. *)
Theorem GenerateResponse_shape (t : Z -> bool) (data : string) (errs : list string) :
  GenerateResponse t data errs
  = "{" +:+ quoted "data" +:+ ":" +:+ data
    +:+ match errs with
        | [] => EmptyString
        | _ => quoted "errors" +:+ ":[" +:+ strings_Join (map (errorEntry t) errs) "," +:+ "]"
        end
    +:+ "}".
Proof.
  destruct errs as [|err errs].
  - rewrite GenerateResponse_no_errors. str_norm.
  - rewrite GenerateResponse_with_errors.
    generalize (strings_Join (map (errorEntry t) (err :: errs)) ","); intros j.
    str_norm.
Qed.

(** ** The tokens of the leaves, read back *)

Lemma json_string_value_tail_plain (t : Z -> bool) (c : ascii) (rest b : string) :
  plainByte c = true ->
  json_string_value_tail (strconv.quoteBody t O (String c rest) +:+ b)
  = String c <$> json_string_value_tail (strconv.quoteBody t O rest +:+ b).
Proof.
  intros Hc.
  destruct c as [[] [] [] [] [] [] [] []]; vm_compute in Hc; try discriminate Hc;
    reflexivity.
Qed.

Lemma fmt_q_plain_value (t : Z -> bool) (s : string) :
  plainString s = true -> json_string_value (fmt_q t s) = Some s.
Proof.
  intros Hs. unfold fmt_q, strconv.Quote, DQ. simpl.
  induction s as [|c s IH].
  - reflexivity.
  - simpl in Hs. apply andb_prop in Hs as [Hc Hs].
    rewrite json_string_value_tail_plain by exact Hc. now rewrite (IH Hs).
Qed.

(** ** The executor *)

Section ExecutorCoverage.

Variable isPrintTable : Z -> bool.
Variable floatToJson : Z -> Z -> string.
Variable float64_of_int : Z -> Z.
Variable float64_of_float32 : Z -> Z.
Variable float32_of_float64 : Z -> Z.
Variable hostCall : nat -> list reflect.Value -> list reflect.Value.
Variable definedEnums : gmap string enum.

Local Abbreviation valueToJson_ := (valueToJson isPrintTable floatToJson float64_of_float32).
Local Abbreviation matchInputValue_ :=
  (matchInputValue float64_of_int float32_of_float64 definedEnums).
Local Abbreviation arguments_ :=
  (resolveFieldDataValue_arguments float64_of_int float32_of_float64 definedEnums).
Local Abbreviation resolveSelection_ :=
  (resolveSelection isPrintTable floatToJson float64_of_int float64_of_float32
     float32_of_float64 hostCall definedEnums).
Local Abbreviation resolveSelectionContent_ :=
  (resolveSelectionContent isPrintTable floatToJson float64_of_int float64_of_float32
     float32_of_float64 hostCall definedEnums).
Local Abbreviation resolveField_ :=
  (resolveField isPrintTable floatToJson float64_of_int float64_of_float32
     float32_of_float64 hostCall definedEnums).
Local Abbreviation resolveFieldDataValue_ :=
  (resolveFieldDataValue isPrintTable floatToJson float64_of_int float64_of_float32
     float32_of_float64 hostCall definedEnums).
Local Abbreviation start_ :=
  (start isPrintTable floatToJson float64_of_int float64_of_float32
     float32_of_float64 hostCall definedEnums).
Local Abbreviation invoke_ fuel :=
  (resolveFieldDataValue_invoke hostCall (resolveFieldDataValue_ fuel)).

(** *** What a run does to the context *)

(** [start] pushes the directives of the operator, which are no part of
    what grows. *)
Lemma accumulates_start (fuel : nat) (operator : Operator) :
  accumulates (start_ fuel operator).
Proof.
  unfold start. apply accumulates_bind.
  - destruct (op_directives operator) as [ds|]; [|apply accumulates_ret].
    destruct (0 <? length ds)%nat; [|apply accumulates_ret].
    intros ctx a ctx' H. injection H as _ <-. repeat split; reflexivity.
  - intros _. apply accumulates_bind; [apply accumulates_reads|]. intros schema_.
    repeat match goal with
           | |- accumulates (if ?x then _ else _) => destruct x
           end;
      try apply (accumulates_executor isPrintTable floatToJson float64_of_int
                   float64_of_float32 float32_of_float64 hostCall definedEnums fuel);
      (apply accumulates_bind; [apply accumulates_addErr | intros; apply accumulates_ret]).
Qed.

(** X2: whatever the fuel, a run of [start] or of one of the four resolve
    methods that returns leaves the schema and the fragments as they were,
    and the errors and the calls it found are still there, in front of those
    it added: nothing recorded is ever dropped or reordered. *)
Theorem executor_only_appends (fuel : nat) :
  (forall operator ctx res ctx',
     start_ fuel operator ctx = Done (res, ctx') -> grows ctx ctx')
  /\ (forall sel v t d ctx res ctx',
        resolveSelection_ fuel sel v t d ctx = Done (res, ctx') -> grows ctx ctx')
  /\ (forall sel v t d ctx res ctx',
        resolveSelectionContent_ fuel sel v t d ctx = Done (res, ctx') -> grows ctx ctx')
  /\ (forall q v t d ctx res ctx',
        resolveField_ fuel q v t d ctx = Done (res, ctx') -> grows ctx ctx')
  /\ (forall q v t d ctx res ctx',
        resolveFieldDataValue_ fuel q v t d ctx = Done (res, ctx') -> grows ctx ctx').
Proof.
  destruct (accumulates_executor isPrintTable floatToJson float64_of_int
              float64_of_float32 float32_of_float64 hostCall definedEnums fuel)
    as (Hs & Hc & Hf & Hv).
  split; [|split; [|split; [|split]]]; intros.
  - eapply accumulates_start; eassumption.
  - eapply Hs; eassumption.
  - eapply Hc; eassumption.
  - eapply Hf; eassumption.
  - eapply Hv; eassumption.
Qed.

Lemma blind_start (fuel : nat) (operator : Operator) :
  errors_blind (start_ fuel operator).
Proof.
  unfold start. apply blind_bind.
  - destruct (op_directives operator) as [ds|]; [|apply blind_ret].
    destruct (0 <? length ds)%nat; [|apply blind_ret].
    intros c1 c2 (F & S & V & D & I). eexists. split; [reflexivity|].
    repeat split; simpl; congruence.
  - intros _. apply blind_bind; [apply blind_reads_schema|]. intros schema_.
    repeat match goal with
           | |- errors_blind (if ?x then _ else _) => destruct x
           end;
      try apply (blind_executor isPrintTable floatToJson float64_of_int
                   float64_of_float32 float32_of_float64 hostCall definedEnums fuel);
      (apply blind_bind; [apply blind_addErr | intros; apply blind_ret]).
Qed.

(** X3: the errors are write-only.  From two contexts that differ at most in
    the errors recorded so far, [start] and the four resolve methods end the
    same way: the same response, the same calls with the same inputs, or the
    same panic; the errors already there never change what is returned. *)
Theorem errors_never_change_the_response (fuel : nat) (c1 c2 : Ctx) :
  same_but_errors c1 c2 ->
  (forall operator res c1',
     start_ fuel operator c1 = Done (res, c1') ->
     exists c2', start_ fuel operator c2 = Done (res, c2') /\ same_but_errors c1' c2')
  /\ (forall sel v t d res c1',
        resolveSelection_ fuel sel v t d c1 = Done (res, c1') ->
        exists c2', resolveSelection_ fuel sel v t d c2 = Done (res, c2')
                    /\ same_but_errors c1' c2')
  /\ (forall q v t d res c1',
        resolveField_ fuel q v t d c1 = Done (res, c1') ->
        exists c2', resolveField_ fuel q v t d c2 = Done (res, c2')
                    /\ same_but_errors c1' c2')
  /\ (forall q v t d res c1',
        resolveFieldDataValue_ fuel q v t d c1 = Done (res, c1') ->
        exists c2', resolveFieldDataValue_ fuel q v t d c2 = Done (res, c2')
                    /\ same_but_errors c1' c2')
  /\ (forall operator reason,
        start_ fuel operator c1 = Panic reason -> start_ fuel operator c2 = Panic reason).
Proof.
  intros Hsame.
  destruct (blind_executor isPrintTable floatToJson float64_of_int
              float64_of_float32 float32_of_float64 hostCall definedEnums fuel)
    as (Hs & Hc & Hf & Hv).
  split; [|split; [|split; [|split]]].
  - intros operator res c1' H. pose proof (blind_start fuel operator c1 c2 Hsame) as B.
    now rewrite H in B.
  - intros sel v t d res c1' H. pose proof (Hs sel v t d c1 c2 Hsame) as B.
    now rewrite H in B.
  - intros q v t d res c1' H. pose proof (Hf q v t d c1 c2 Hsame) as B.
    now rewrite H in B.
  - intros q v t d res c1' H. pose proof (Hv q v t d c1 c2 Hsame) as B.
    now rewrite H in B.
  - intros operator reason H. pose proof (blind_start fuel operator c1 c2 Hsame) as B.
    now rewrite H in B.
Qed.

(** *** The errored flag *)

Lemma grows_errors_length (ctx ctx' : Ctx) :
  grows ctx ctx' -> (length (errors ctx) <= length (errors ctx'))%nat.
Proof. intros (_ & _ & He & _). exact (prefix_length _ _ He). Qed.

Lemma rwe_ret_false (s : string) : records_when_errored (mret (s, false)).
Proof. intros ctx s' ctx' H. discriminate H. Qed.

Lemma rwe_addErr (err : string) (r : string * bool) :
  records_when_errored (_ ← addErr err; mret r).
Proof.
  intros ctx s ctx' H. injection H as _ <-. simpl. rewrite length_app. simpl. lia.
Qed.

Lemma rwe_lift_panic (r : string) : records_when_errored (lift (Panic r)).
Proof. intros ctx s ctx' H. discriminate H. Qed.

Lemma rwe_bind {A} (m : M A) (k : A -> M (string * bool)) :
  accumulates m -> (forall a, records_when_errored (k a)) ->
  records_when_errored (m ≫= k).
Proof.
  intros Hm Hk ctx s ctx' H. unfold mbind, M_bind in H.
  destruct (m ctx) as [[a c]| |] eqn:E; try discriminate.
  apply Hm, grows_errors_length in E. apply Hk in H. lia.
Qed.

(** The loop over the arguments returns from inside only after it has
    recorded an error. *)
Lemma arguments_returned_recorded (query : Field) (method_ : Method) (args : Arguments_) :
  forall inputs ctx returned ctx',
    arguments_ query method_ args inputs ctx = Done (inl returned, ctx') ->
    (length (errors ctx) < length (errors ctx'))%nat.
Proof.
  induction args as [|[queryKey queryValue] rest IH]; intros inputs ctx returned ctx' H.
  - discriminate.
  - cbn [resolveFieldDataValue_arguments] in H.
    destruct (inFields method_ !! queryKey) as [inField|].
    + unfold mbind, M_bind, reads, lift in H.
      destruct (index inputs (inputIdx inField)) as [param| |]; try discriminate.
      destruct (reflect.FieldByName param (goFieldName (input inField)))
        as [goField| |]; try discriminate.
      destruct (matchInputValue_ (inTypes (schema ctx)) queryValue goField (input inField))
        as [[err|x]| |]; try discriminate.
      * injection H as _ <-. simpl. rewrite length_app. simpl. lia.
      * exact (IH _ _ _ _ H).
    + unfold mbind, M_bind, addErr in H. apply IH in H. simpl in H.
      rewrite length_app in H. simpl in H. lia.
Qed.

Lemma errorOut_returned_recorded (query : Field) (method_ : Method)
    (outs : list reflect.Value) (ctx ctx' : Ctx) (returned : string * bool) :
  resolveFieldDataValue_errorOut query method_ outs ctx = Done (Some returned, ctx') ->
  (length (errors ctx) < length (errors ctx'))%nat.
Proof.
  unfold resolveFieldDataValue_errorOut. intros H.
  destruct (errorOutNr method_) as [nr|]; [|discriminate].
  unfold mbind, M_bind, lift, addErr in H.
  destruct (index outs nr) as [errOut| |]; try discriminate.
  destruct (reflect.IsNil errOut) as [[]| |]; try discriminate.
  simpl in H. destruct (asError errOut); try discriminate.
  injection H as _ <-. simpl. rewrite length_app. simpl. lia.
Qed.

(** The routine steps of a proof that the context only grows *)
Ltac grow :=
  repeat first
    [ apply accumulates_ret
    | apply accumulates_lift
    | apply accumulates_reads
    | apply accumulates_addErr
    | apply accumulates_Call
    | apply accumulates_outOfFuel
    | apply accumulates_arguments
    | apply accumulates_errorOut
    | assumption
    | apply accumulates_bind; [|intros]
    | match goal with
      | |- accumulates (match ?x with _ => _ end) => destruct x
      | |- accumulates (if ?x then _ else _) => destruct x
      | |- accumulates (let (_, _) := ?x in _) => destruct x
      end ].

Lemma errored_has_recorded (fuel : nat) :
  forall query value codeStructure dept,
    records_when_errored (resolveFieldDataValue_ fuel query value codeStructure dept).
Proof.
  induction fuel as [|fuel IH]; intros query value codeStructure dept.
  - intros ctx s ctx' E. discriminate.
  - destruct (accumulates_executor isPrintTable floatToJson float64_of_int
                float64_of_float32 float32_of_float64 hostCall definedEnums fuel)
      as (Hs & Hc & Hf & Hv).
    change (records_when_errored
              (resolveFieldDataValue_body isPrintTable floatToJson float64_of_int
                 float64_of_float32 float32_of_float64 hostCall definedEnums
                 (resolveSelection_ fuel) (resolveFieldDataValue_ fuel)
                 query value codeStructure dept)).
    unfold resolveFieldDataValue_body.
    destruct (valueType codeStructure).
    + apply rwe_addErr.
    + apply rwe_bind; [grow|]. intros [|]; [apply rwe_ret_false|].
      destruct (innerContent codeStructure).
      * apply rwe_bind; [grow|]. intros elems. apply rwe_bind.
        -- apply accumulates_elements. intros. apply Hv.
        -- intros l. apply rwe_ret_false.
      * apply rwe_addErr.
    + destruct (selection query).
      * apply rwe_addErr.
      * apply rwe_bind; [grow|]. intros sch.
        destruct (bool_decide _); [destruct (types sch !! typeName codeStructure)|].
        -- apply rwe_bind; [apply Hs|]. intros val. apply rwe_ret_false.
        -- apply rwe_addErr.
        -- apply rwe_bind; [apply Hs|]. intros val. apply rwe_ret_false.
    + destruct (selection query).
      * apply rwe_addErr.
      * apply rwe_bind; [grow|]. intros sch.
        destruct (bool_decide _); [destruct (types sch !! typeName codeStructure)|].
        -- apply rwe_bind; [apply Hs|]. intros val. apply rwe_ret_false.
        -- apply rwe_addErr.
        -- apply rwe_bind; [apply Hs|]. intros val. apply rwe_ret_false.
    + destruct (selection query).
      * apply rwe_bind; [grow|]. intros in_. destruct (valueToJson_ in_).
        apply rwe_ret_false.
      * apply rwe_addErr.
    + apply rwe_bind; [grow|]. intros [|]; [apply rwe_ret_false|].
      apply rwe_bind; [grow|]. intros elem_.
      destruct (innerContent codeStructure); [apply IH | apply rwe_lift_panic].
    + apply rwe_bind; [grow|]. intros [|]; [apply rwe_ret_false|].
      apply rwe_bind; [grow|]. intros method_. apply rwe_bind; [grow|]. intros inputs.
      intros ctx s ctx' H. unfold mbind at 1 in H. unfold M_bind at 1 in H.
      destruct (arguments_ query method_ (arguments query) inputs ctx)
        as [[[returned|inputs'] c]| |] eqn:Ea; try discriminate.
      * apply arguments_returned_recorded in Ea. injection H as _ <-. exact Ea.
      * apply accumulates_arguments, grows_errors_length in Ea.
        unfold resolveFieldDataValue_invoke in H.
        unfold mbind at 1 in H. unfold M_bind at 1 in H.
        destruct (Call hostCall value inputs' c) as [[outs c1]| |] eqn:Ec; try discriminate.
        apply accumulates_Call, grows_errors_length in Ec.
        unfold mbind at 1 in H. unfold M_bind at 1 in H.
        destruct (resolveFieldDataValue_errorOut query method_ outs c1)
          as [[[returned|] c2]| |] eqn:Ee; try discriminate.
        -- apply errorOut_returned_recorded in Ee. injection H as _ <-. lia.
        -- apply accumulates_errorOut, grows_errors_length in Ee.
           unfold mbind, M_bind, lift in H.
           destruct (index outs (outNr method_)) as [out| |]; try discriminate.
           apply IH in H. lia.
    + destruct (definedEnums !! enumKey codeStructure) as [enum_|];
        [|apply rwe_lift_panic].
      destruct (reflect.MapIndex (valueKey enum_) value);
        first [apply rwe_lift_panic | apply rwe_ret_false].
Qed.

(** A field that comes back errored is the member [key:null], and an error has
    been recorded on the way. *)
Lemma resolveField_errored (fuel : nat) (query : Field) (struct_ : reflect.Value)
    (codeStructure : Obj) (dept : Z) (ctx ctx' : Ctx) (s : string) :
  resolveField_ fuel query struct_ codeStructure dept ctx = Done ((s, true), ctx') ->
  s = quoted (memberKey query) +:+ ":null"
  /\ (length (errors ctx) < length (errors ctx'))%nat.
Proof.
  destruct fuel as [|fuel]; [discriminate|].
  change (resolveField_ (S fuel)) with (resolveField_body (resolveFieldDataValue_ fuel)).
  unfold resolveField_body. intros H.
  assert (Hkey : forall data, resolveField_res query data
                              = quoted (memberKey query) +:+ ":" +:+ data).
  { intros data. unfold resolveField_res, memberKey. now destruct (alias query). }
  destruct (objContents codeStructure !! name query) as [structItem|].
  - unfold mbind, M_bind, lift in H.
    destruct (resolveField_value struct_ structItem) as [v| |]; try discriminate.
    destruct (resolveFieldDataValue_ fuel query v structItem dept ctx)
      as [[[fieldValue flag] c]| |] eqn:E; try discriminate.
    injection H as <- -> <-. split.
    + rewrite Hkey. f_equal. f_equal.
      exact (errored_is_null isPrintTable floatToJson float64_of_int float64_of_float32
               float32_of_float64 hostCall definedEnums fuel query v structItem
               dept ctx fieldValue c E).
    + exact (errored_has_recorded fuel query v structItem dept ctx fieldValue c E).
  - injection H as <- <-. split; [apply Hkey|].
    simpl. rewrite length_app. simpl. lia.
Qed.

(** X4: a value that comes back with the errored flag set is [null], and
    an error has been recorded on the way; so has a field that comes back with
    the flag set, and it is the member [key:null].  A member is thus left out
    of its object only with an error in the response. *)
Theorem errored_is_null_and_recorded (fuel : nat) (query : Field)
    (value : reflect.Value) (codeStructure : Obj) (dept : Z) (ctx ctx' : Ctx) (s : string) :
  (resolveFieldDataValue_ fuel query value codeStructure dept ctx = Done ((s, true), ctx') ->
   s = "null" /\ (length (errors ctx) < length (errors ctx'))%nat)
  /\ (resolveField_ fuel query value codeStructure dept ctx = Done ((s, true), ctx') ->
      s = quoted (memberKey query) +:+ ":null"
      /\ (length (errors ctx) < length (errors ctx'))%nat).
Proof.
  split.
  - intros H. split.
    + exact (errored_is_null isPrintTable floatToJson float64_of_int float64_of_float32
               float32_of_float64 hostCall definedEnums fuel query value codeStructure
               dept ctx s ctx' H).
    + exact (errored_has_recorded fuel query value codeStructure dept ctx s ctx' H).
  - apply resolveField_errored.
Qed.

(** *** The body of an object *)

Lemma appendMembers_written (members : list string) :
  forall res, appendMembers res true members
              = res +:+ fold_right (fun m acc => "," +:+ m +:+ acc) EmptyString members.
Proof.
  induction members as [|m rest IH]; intros res; cbn [appendMembers appendMember fold_right].
  - now rewrite append_nil_r.
  - rewrite IH. now rewrite !append_assoc.
Qed.

Lemma Join_cons (m : string) (rest : list string) :
  strings_Join (m :: rest) ","
  = m +:+ fold_right (fun m acc => "," +:+ m +:+ acc) EmptyString rest.
Proof.
  unfold strings_Join. revert m. induction rest as [|m' rest IH]; intros m.
  - simpl. now rewrite append_nil_r.
  - change (String.concat "," (m :: m' :: rest))
      with (m +:+ "," +:+ String.concat "," (m' :: rest)).
    rewrite IH. reflexivity.
Qed.

(** Written one by one with the comma logic of the loop, the members are
    their join with commas. *)
Lemma appendMembers_Join (members : list string) :
  appendMembers EmptyString false members = strings_Join members ",".
Proof.
  destruct members as [|m rest]; [reflexivity|].
  cbn [appendMembers appendMember]. rewrite appendMembers_written. now rewrite Join_cons.
Qed.

Lemma loop_members
    (resolveField' : Field -> M (string * bool))
    (resolveSelectionContent' : SelectionSet -> M string)
    (selectionSet : SelectionSet) :
  forall res writtenToRes ctx,
    resolveSelectionContent_loop resolveField' resolveSelectionContent'
      selectionSet res writtenToRes ctx
    = (members ← resolveSelectionContent_members resolveField' resolveSelectionContent'
                   selectionSet;
       mret (appendMembers res writtenToRes members)) ctx.
Proof.
  induction selectionSet as [|selection rest IH]; intros res w ctx; [reflexivity|].
  cbn [resolveSelectionContent_loop resolveSelectionContent_members].
  assert (Hrest : forall res w c,
            resolveSelectionContent_loop resolveField' resolveSelectionContent' rest res w c
            = match resolveSelectionContent_members resolveField' resolveSelectionContent'
                      rest c with
              | Done (ms, c') => Done (appendMembers res w ms, c')
              | Panic r => Panic r
              | OutOfFuel => OutOfFuel
              end).
  { intros res' w' c. rewrite IH. unfold mbind, M_bind.
    now destruct (resolveSelectionContent_members _ _ rest c) as [[ms c']| |]. }
  destruct selection as [field|fname|sel]; unfold mbind, M_bind, reads, addErr.
  - destruct (resolveField' field ctx) as [[[value flag] c]| |]; try reflexivity.
    destruct flag; cbn [negb appendMember]; cbv iota beta; rewrite Hrest;
      destruct (resolveSelectionContent_members _ _ rest c) as [[ms c']| |]; reflexivity.
  - destruct (fragments ctx !! fname) as [operator|].
    + destruct (fragment operator) as [fragment_|]; [|reflexivity].
      destruct (resolveSelectionContent' (frag_selection fragment_) ctx)
        as [[value c]| |]; try reflexivity.
      destruct (nonempty value); cbn [appendMember]; cbv iota beta; rewrite Hrest;
        destruct (resolveSelectionContent_members _ _ rest c) as [[ms c']| |]; reflexivity.
    + rewrite Hrest.
      now destruct (resolveSelectionContent_members _ _ rest _) as [[ms c']| |].
  - destruct (resolveSelectionContent' sel ctx) as [[value c]| |]; try reflexivity.
    destruct (nonempty value); cbn [appendMember]; cbv iota beta; rewrite Hrest;
      destruct (resolveSelectionContent_members _ _ rest c) as [[ms c']| |]; reflexivity.
Qed.

(** X5: the body that [resolveSelectionContent] returns is the join with
    commas of the members it has to write, in the order of the selection set:
    the member of each field that did not come back errored and the content of
    each fragment that is not empty; no comma leads, trails or doubles. *)
Theorem resolveSelectionContent_joins_members (fuel : nat) (selectionSet : SelectionSet)
    (struct_ : reflect.Value) (structType : Obj) (dept : Z) (ctx : Ctx) :
  resolveSelectionContent_ (S fuel) selectionSet struct_ structType dept ctx
  = (members ← resolveSelectionContent_members
                 (fun field => resolveField_ fuel field struct_ structType dept)
                 (fun sel => resolveSelectionContent_ fuel sel struct_ structType dept)
                 selectionSet;
     mret (strings_Join members ",")) ctx.
Proof.
  change (resolveSelectionContent_ (S fuel))
    with (resolveSelectionContent_body (resolveField_ fuel) (resolveSelectionContent_ fuel)).
  unfold resolveSelectionContent_body. rewrite loop_members.
  unfold mbind, M_bind.
  destruct (resolveSelectionContent_members _ _ selectionSet ctx) as [[ms c]| |];
    try reflexivity.
  now rewrite appendMembers_Join.
Qed.

(** *** Fragments *)

(** X6: a fragment is inlined without a look at its type condition.  The
    body of a selection set that is one inline fragment is the body of the
    selection set of the fragment, against the same value and the same type;
    and so is the body of a spread of a fragment that the document defines. *)
Theorem fragments_are_inlined (fuel : nat) (struct_ : reflect.Value) (structType : Obj)
    (dept : Z) (ctx : Ctx) :
  (forall sel,
     resolveSelectionContent_ (S (S fuel)) [SelInlineFragment sel] struct_ structType dept ctx
     = resolveSelectionContent_ (S fuel) sel struct_ structType dept ctx)
  /\ (forall fname operator fragment_,
        fragments ctx !! fname = Some operator ->
        fragment operator = Some fragment_ ->
        resolveSelectionContent_ (S (S fuel)) [SelFragmentSpread fname]
          struct_ structType dept ctx
        = resolveSelectionContent_ (S fuel) (frag_selection fragment_)
            struct_ structType dept ctx).
Proof.
  split.
  - intros sel.
    change (resolveSelectionContent_ (S (S fuel)))
      with (resolveSelectionContent_body (resolveField_ (S fuel))
              (resolveSelectionContent_ (S fuel))).
    unfold resolveSelectionContent_body. cbn [resolveSelectionContent_loop].
    unfold mbind, M_bind.
    destruct (resolveSelectionContent_ (S fuel) sel struct_ structType dept ctx)
      as [[value c]| |]; try reflexivity.
    now destruct value.
  - intros fname operator fragment_ Hf Hfr.
    change (resolveSelectionContent_ (S (S fuel)))
      with (resolveSelectionContent_body (resolveField_ (S fuel))
              (resolveSelectionContent_ (S fuel))).
    unfold resolveSelectionContent_body. cbn [resolveSelectionContent_loop].
    unfold mbind, M_bind, reads. rewrite Hf, Hfr.
    destruct (resolveSelectionContent_ (S fuel) (frag_selection fragment_)
                struct_ structType dept ctx) as [[value c]| |]; try reflexivity.
    now destruct value.
Qed.

(** X7: the spread of a fragment that the document does not define records
    the error [unknown fragment N] and writes nothing: the body is that of the
    selections that follow. *)
Theorem unknown_fragment_is_skipped (fuel : nat) (fname : string) (rest : SelectionSet)
    (struct_ : reflect.Value) (structType : Obj) (dept : Z) (ctx : Ctx) :
  fragments ctx !! fname = None ->
  resolveSelectionContent_ (S fuel) (SelFragmentSpread fname :: rest)
    struct_ structType dept ctx
  = resolveSelectionContent_ (S fuel) rest struct_ structType dept
      (with_errors ctx (errors ctx ++ ["unknown fragment " +:+ fname])).
Proof.
  intros Hf.
  change (resolveSelectionContent_ (S fuel))
    with (resolveSelectionContent_body (resolveField_ fuel) (resolveSelectionContent_ fuel)).
  unfold resolveSelectionContent_body. cbn [resolveSelectionContent_loop].
  unfold mbind at 1. unfold M_bind at 1. unfold reads at 1. now rewrite Hf.
Qed.

(** X8: the executor has no guard of its own against a fragment that
    spreads itself.  When the selection set of the fragment [F] begins with
    the spread of [F], a selection set that begins with that spread never
    returns: the executor recurses for ever, at the same depth, whatever
    [MaxDepth] is; in the model, no fuel is enough. *)
Theorem fragment_cycle_never_returns (fuel : nat) (fname : string) (operator : Operator)
    (fragment_ : InlineFragment) (inside rest : SelectionSet)
    (struct_ : reflect.Value) (structType : Obj) (dept : Z) (ctx : Ctx) :
  fragments ctx !! fname = Some operator ->
  fragment operator = Some fragment_ ->
  frag_selection fragment_ = SelFragmentSpread fname :: inside ->
  resolveSelectionContent_ fuel (SelFragmentSpread fname :: rest)
    struct_ structType dept ctx
  = OutOfFuel.
Proof.
  intros Hf Hfr Hsel. revert rest.
  induction fuel as [|fuel IH]; intros rest; [reflexivity|].
  change (resolveSelectionContent_ (S fuel))
    with (resolveSelectionContent_body (resolveField_ fuel) (resolveSelectionContent_ fuel)).
  unfold resolveSelectionContent_body. cbn [resolveSelectionContent_loop].
  unfold mbind, M_bind, reads. rewrite Hf, Hfr, Hsel. now rewrite IH.
Qed.

(** *** A run without errors *)




(** *** Operations that are not served *)

(** X10: an operation that is neither a query nor a mutation is not run:
    [start] returns the empty object and records one error, [subscription not
    suppored yet] for a subscription, [T cannot be used as operator] for any
    other operation type [T]; no fuel is needed and nothing is called. *)
Theorem start_rejects_other_operations (fuel : nat) (operator : Operator) (ctx : Ctx) :
  operationType operator <> "query" ->
  operationType operator <> "mutation" ->
  let pushed :=
    match op_directives operator with
    | Some (d :: ds) => with_directvies ctx (directvies ctx ++ [d :: ds])
    | _ => ctx
    end in
  let err :=
    if bool_decide (operationType operator = "subscription")
    then "subscription not suppored yet"
    else operationType operator +:+ " cannot be used as operator" in
  start_ fuel operator ctx = Done ("{}", with_errors pushed (errors ctx ++ [err]))
  /\ invoked pushed = invoked ctx.
Proof.
  intros Hq Hm pushed err. unfold start.
  rewrite (bool_decide_eq_false_2 _ Hq), (bool_decide_eq_false_2 _ Hm).
  subst pushed err.
  destruct (op_directives operator) as [[|d ds]|];
    destruct (bool_decide (operationType operator = "subscription"));
    split; reflexivity.
Qed.

(** *** The cases of [resolveFieldDataValue] *)

(** X11: a selection set must fit the type of the field.  A leaf field
    queried with a selection set is null, errored, with the error [field F
    cannot have a selection]; an object field queried without one is null,
    errored, with the error [field F must have a selection].  Nothing below
    the field is resolved. *)
Theorem selection_must_fit_the_type (fuel : nat) (query : Field) (value : reflect.Value)
    (codeStructure : Obj) (dept : Z) (ctx : Ctx) :
  (valueType codeStructure = valueTypeData -> selection query <> [] ->
   resolveFieldDataValue_ (S fuel) query value codeStructure dept ctx
   = Done (("null", true),
           with_errors ctx (errors ctx ++ ["field " +:+ name query
                                             +:+ " cannot have a selection"])))
  /\ (valueType codeStructure = valueTypeObj \/ valueType codeStructure = valueTypeObjRef ->
      selection query = [] ->
      resolveFieldDataValue_ (S fuel) query value codeStructure dept ctx
      = Done (("null", true),
              with_errors ctx (errors ctx ++ ["field " +:+ name query
                                                +:+ " must have a selection"]))).
Proof.
  change (resolveFieldDataValue_ (S fuel))
    with (resolveFieldDataValue_body isPrintTable floatToJson float64_of_int
            float64_of_float32 float32_of_float64 hostCall definedEnums
            (resolveSelection_ fuel) (resolveFieldDataValue_ fuel)).
  unfold resolveFieldDataValue_body. split.
  - intros -> Hsel. destruct (selection query); [congruence | reflexivity].
  - intros [-> | ->] ->; reflexivity.
Qed.

(** X12: an optional field.  A nil pointer, and any value that is not a
    pointer, is null, not errored, and nothing is recorded; a pointer to a
    value is resolved as that value, against the inner type, at the same
    depth. *)
Theorem pointer_is_null_or_its_pointee (fuel : nat) (query : Field)
    (codeStructure : Obj) (dept : Z) (ctx : Ctx) :
  valueType codeStructure = valueTypePtr ->
  (forall value,
     reflect.kind value <> reflect.Ptr
     \/ (reflect.kind value = reflect.Ptr /\ reflect.IsNil value = Done true) ->
     resolveFieldDataValue_ (S fuel) query value codeStructure dept ctx
     = Done (("null", false), ctx))
  /\ (forall x inner,
        innerContent codeStructure = Some inner ->
        resolveFieldDataValue_ (S fuel) query (reflect.VPtr x) codeStructure dept ctx
        = resolveFieldDataValue_ fuel query x inner dept ctx).
Proof.
  intros Hp.
  change (resolveFieldDataValue_ (S fuel))
    with (resolveFieldDataValue_body isPrintTable floatToJson float64_of_int
            float64_of_float32 float32_of_float64 hostCall definedEnums
            (resolveSelection_ fuel) (resolveFieldDataValue_ fuel)).
  unfold resolveFieldDataValue_body. rewrite Hp. split.
  - intros value [Hk | [Hk Hnil]].
    + now rewrite (bool_decide_eq_false_2 _ Hk).
    + rewrite (bool_decide_eq_true_2 _ Hk). cbn [negb]. cbv iota.
      now rewrite (bind_lift_Done _ _ _ _ Hnil).
  - intros x inner Hin. rewrite Hin. reflexivity.
Qed.

(** X13: a reference to an object type is looked up in the types of the
    schema, by its name.  A name that the schema does not have makes the field
    null, errored, with the error [field F cannot have a selection]; a name
    that it has makes the field the object that the selection set resolves to
    against the type found, so that a reference to an object type resolves as
    that type itself. *)
Theorem object_reference_is_looked_up (fuel : nat) (query : Field) (value : reflect.Value)
    (codeStructure : Obj) (dept : Z) (ctx : Ctx) :
  valueType codeStructure = valueTypeObjRef ->
  selection query <> [] ->
  (types (schema ctx) !! typeName codeStructure = None ->
   resolveFieldDataValue_ (S fuel) query value codeStructure dept ctx
   = Done (("null", true),
           with_errors ctx (errors ctx ++ ["field " +:+ name query
                                             +:+ " cannot have a selection"])))
  /\ (forall found,
        types (schema ctx) !! typeName codeStructure = Some found ->
        resolveFieldDataValue_ (S fuel) query value codeStructure dept ctx
        = (val ← resolveSelection_ fuel (selection query) value found dept;
           mret (val, false)) ctx
        /\ (valueType found = valueTypeObj ->
            resolveFieldDataValue_ (S fuel) query value codeStructure dept ctx
            = resolveFieldDataValue_ (S fuel) query value found dept ctx)).
Proof.
  intros Hr Hsel.
  assert (Heq : resolveFieldDataValue_ (S fuel) query value codeStructure dept ctx
                = match types (schema ctx) !! typeName codeStructure with
                  | Some found =>
                    (val ← resolveSelection_ fuel (selection query) value found dept;
                     mret (val, false)) ctx
                  | None =>
                    Done (("null", true),
                          with_errors ctx (errors ctx ++ ["field " +:+ name query
                                                            +:+ " cannot have a selection"]))
                  end).
  { change (resolveFieldDataValue_ (S fuel))
      with (resolveFieldDataValue_body isPrintTable floatToJson float64_of_int
              float64_of_float32 float32_of_float64 hostCall definedEnums
              (resolveSelection_ fuel) (resolveFieldDataValue_ fuel)).
    unfold resolveFieldDataValue_body. rewrite Hr.
    destruct (selection query) as [|s0 sel] eqn:Es; [congruence|].
    rewrite (bool_decide_eq_true_2 _ eq_refl).
    unfold mbind at 1. unfold M_bind at 1. unfold reads at 1.
    now destruct (types (schema ctx) !! typeName codeStructure). }
  rewrite Heq. split.
  - intros ->. reflexivity.
  - intros found ->. split; [reflexivity|].
    intros Hobj.
    change (resolveFieldDataValue_ (S fuel))
      with (resolveFieldDataValue_body isPrintTable floatToJson float64_of_int
              float64_of_float32 float32_of_float64 hostCall definedEnums
              (resolveSelection_ fuel) (resolveFieldDataValue_ fuel)).
    unfold resolveFieldDataValue_body. rewrite Hobj.
    destruct (selection query) as [|s0 sel] eqn:Es; [congruence|].
    rewrite bool_decide_eq_false_2 by discriminate. reflexivity.
Qed.

(** X14: a list field that holds no list.  A nil slice, and any value that
    is neither a slice nor an array, is null, not errored, and nothing is
    recorded; an empty slice that is not nil is the empty list. *)
Theorem absent_list_is_null (fuel : nat) (query : Field) (codeStructure : Obj)
    (dept : Z) (ctx : Ctx) :
  valueType codeStructure = valueTypeArray ->
  (forall value,
     (reflect.kind value <> reflect.Array /\ reflect.kind value <> reflect.Slice)
     \/ (reflect.kind value = reflect.Slice /\ reflect.IsNil value = Done true) ->
     resolveFieldDataValue_ (S fuel) query value codeStructure dept ctx
     = Done (("null", false), ctx))
  /\ (forall e inner,
        innerContent codeStructure = Some inner ->
        resolveFieldDataValue_ (S fuel) query (reflect.VSlice e []) codeStructure dept ctx
        = Done (("[]", false), ctx)).
Proof.
  intros Ha.
  change (resolveFieldDataValue_ (S fuel))
    with (resolveFieldDataValue_body isPrintTable floatToJson float64_of_int
            float64_of_float32 float32_of_float64 hostCall definedEnums
            (resolveSelection_ fuel) (resolveFieldDataValue_ fuel)).
  unfold resolveFieldDataValue_body. rewrite Ha. split.
  - intros value [[Hk1 Hk2] | [Hk Hnil]].
    + now rewrite (bool_decide_eq_false_2 _ Hk1), (bool_decide_eq_false_2 _ Hk2).
    + rewrite (bool_decide_eq_true_2 _ Hk). rewrite andb_false_r.
      now rewrite (bind_lift_Done _ _ _ _ Hnil).
  - intros e inner ->. reflexivity.
Qed.


(** X16: an enum value is written by its name.  When the registry has the
    enum of the field, a value that is among the entries of the enum is the
    name of its entry between double quotes, and a value that is not is null;
    neither is errored and nothing is recorded. *)
Theorem enum_is_written_by_name (fuel : nat) (query : Field) (value : reflect.Value)
    (codeStructure : Obj) (enum_ : enum) (dept : Z) (ctx : Ctx) :
  valueType codeStructure = valueTypeEnum ->
  definedEnums !! enumKey codeStructure = Some enum_ ->
  (forall key, reflect.MapIndex (valueKey enum_) value = reflect.VString key ->
     resolveFieldDataValue_ (S fuel) query value codeStructure dept ctx
     = Done ((quoted key, false), ctx))
  /\ (reflect.MapIndex (valueKey enum_) value = reflect.VInvalid ->
      resolveFieldDataValue_ (S fuel) query value codeStructure dept ctx
      = Done (("null", false), ctx)).
Proof.
  intros He Hreg.
  change (resolveFieldDataValue_ (S fuel))
    with (resolveFieldDataValue_body isPrintTable floatToJson float64_of_int
            float64_of_float32 float32_of_float64 hostCall definedEnums
            (resolveSelection_ fuel) (resolveFieldDataValue_ fuel)).
  unfold resolveFieldDataValue_body. rewrite He, Hreg. split.
  - intros key ->. reflexivity.
  - intros ->. reflexivity.
Qed.

(** X17: a leaf whose type [valueToJson] does not support is written as
    null without a trace: [valueToJson] returns the error [invalid data type],
    and the field drops it; the field is not errored and nothing is
    recorded. *)
Theorem unsupported_leaf_is_silently_null (fuel : nat) (query : Field)
    (value : reflect.Value) (codeStructure : Obj) (dept : Z) (ctx : Ctx) :
  valueType codeStructure = valueTypeData ->
  selection query = [] ->
  value <> reflect.VInvalid ->
  supportedValue value = false ->
  valueToJson_ value = ("null", Some "invalid data type")
  /\ resolveFieldDataValue_ (S fuel) query value codeStructure dept ctx
     = Done (("null", false), ctx).
Proof.
  intros Hd Hsel Hv Hs.
  destruct (valueToJson_leaf_scalars isPrintTable floatToJson float64_of_float32)
    as (_ & _ & _ & _ & _ & Hun).
  split; [exact (Hun value Hs)|].
  rewrite (resolveFieldDataValue_data isPrintTable floatToJson float64_of_int
             float64_of_float32 float32_of_float64 hostCall definedEnums
             fuel query value codeStructure dept ctx Hd Hsel Hv).
  now rewrite (Hun value Hs).
Qed.

(** X18: the token of a leaf reads back as the value.  A leaf field
    without a selection set is never errored and records nothing; the token
    of an integer of any width is a decimal numeral that reads back as the
    integer; the token of a boolean is [true] or [false]; and the token of a
    string made of printable ASCII, backspace, tab, newline, form feed and
    carriage return is a JSON string literal that denotes the string. *)
Theorem leaf_token_reads_back (fuel : nat) (query : Field) (codeStructure : Obj)
    (dept : Z) (ctx : Ctx) :
  valueType codeStructure = valueTypeData ->
  selection query = [] ->
  (forall k n,
     exists token,
       resolveFieldDataValue_ (S fuel) query (reflect.VInt k n) codeStructure dept ctx
       = Done ((token, false), ctx)
       /\ parse_decimal token = Some n)
  /\ (forall b,
        resolveFieldDataValue_ (S fuel) query (reflect.VBool b) codeStructure dept ctx
        = Done ((if b then "true" else "false", false), ctx))
  /\ (forall s, plainString s = true ->
        exists token,
          resolveFieldDataValue_ (S fuel) query (reflect.VString s) codeStructure dept ctx
          = Done ((token, false), ctx)
          /\ json_string_literal token = true
          /\ json_string_value token = Some s).
Proof.
  intros Hd Hsel.
  pose proof (fun value Hv =>
    resolveFieldDataValue_data isPrintTable floatToJson float64_of_int
      float64_of_float32 float32_of_float64 hostCall definedEnums
      fuel query value codeStructure dept ctx Hd Hsel Hv) as Hleaf.
  split; [|split].
  - intros k n. eexists. split; [apply Hleaf; discriminate|]. apply fmt_d_roundtrip.
  - intros b. rewrite Hleaf by discriminate. now destruct b.
  - intros s Hs. eexists. split; [apply Hleaf; discriminate|].
    split; [apply fmt_q_plain_is_json | apply fmt_q_plain_value]; exact Hs.
Qed.

(** *** Directives *)

Lemma M_bind_ext {A B} (m m' : M A) (k k' : A -> M B) (ctx : Ctx) :
  m ctx = m' ctx -> (forall a c, k a c = k' a c) -> (m ≫= k) ctx = (m' ≫= k') ctx.
Proof.
  intros Hm Hk. unfold mbind, M_bind. rewrite Hm.
  destruct (m' ctx) as [[a c]| |]; [apply Hk | reflexivity | reflexivity].
Qed.

Lemma loop_withoutDirectives
    (resolveField' : Field -> M (string * bool))
    (resolveSelectionContent' : SelectionSet -> M string) :
  (forall f c, resolveField' (fieldWithoutDirectives f) c = resolveField' f c) ->
  (forall sel c, resolveSelectionContent' (map withoutDirectives sel) c
                 = resolveSelectionContent' sel c) ->
  forall selectionSet res writtenToRes ctx,
    resolveSelectionContent_loop resolveField' resolveSelectionContent'
      (map withoutDirectives selectionSet) res writtenToRes ctx
    = resolveSelectionContent_loop resolveField' resolveSelectionContent'
        selectionSet res writtenToRes ctx.
Proof.
  intros Hf Hc. induction selectionSet as [|selection rest IH]; intros res w ctx;
    [reflexivity|].
  destruct selection as [[n a args sel ds]|fname|sel];
    cbn [map withoutDirectives resolveSelectionContent_loop].
  - apply M_bind_ext.
    + exact (Hf (mkField n a args sel ds) ctx).
    + intros [value flag] c. destruct flag; cbn [negb appendMember]; apply IH.
  - apply M_bind_ext; [reflexivity|]. intros fragments_ c.
    destruct (fragments_ !! fname) as [operator|].
    + destruct (fragment operator) as [fragment_|]; [|reflexivity].
      apply M_bind_ext; [reflexivity|]. intros value c'.
      destruct (nonempty value); cbn [appendMember]; apply IH.
    + apply M_bind_ext; [reflexivity|]. intros _ c'. apply IH.
  - apply M_bind_ext; [apply Hc|]. intros value c.
    destruct (nonempty value); cbn [appendMember]; apply IH.
Qed.

(** The loop over the arguments and the block of the error output read the
    name of the field and nothing else of it. *)
Lemma arguments_by_name (query query' : Field) (method_ : Method) (args : Arguments_) :
  name query' = name query ->
  forall inputs ctx,
    arguments_ query' method_ args inputs ctx = arguments_ query method_ args inputs ctx.
Proof.
  intros Hn. induction args as [|[queryKey queryValue] rest IH]; intros inputs ctx;
    [reflexivity|].
  cbn [resolveFieldDataValue_arguments]. rewrite Hn.
  destruct (inFields method_ !! queryKey) as [inField|].
  - apply M_bind_ext; [reflexivity|]. intros schema_ c.
    apply M_bind_ext; [reflexivity|]. intros param c1.
    apply M_bind_ext; [reflexivity|]. intros goField c2.
    apply M_bind_ext; [reflexivity|]. intros [err|x] c3; [reflexivity | apply IH].
  - apply M_bind_ext; [reflexivity|]. intros _ c. apply IH.
Qed.

Lemma errorOut_by_name (query query' : Field) (method_ : Method)
    (outs : list reflect.Value) (ctx : Ctx) :
  name query' = name query ->
  resolveFieldDataValue_errorOut query' method_ outs ctx
  = resolveFieldDataValue_errorOut query method_ outs ctx.
Proof. intros Hn. unfold resolveFieldDataValue_errorOut. now rewrite Hn. Qed.

Lemma elements_ext (f g : reflect.Value -> M (string * bool)) :
  (forall v c, f v c = g v c) ->
  forall elems list_ ctx,
    resolveFieldDataValue_elements f elems list_ ctx
    = resolveFieldDataValue_elements g elems list_ ctx.
Proof.
  intros Hfg. induction elems as [|v rest IH]; intros list_ ctx; [reflexivity|].
  cbn [resolveFieldDataValue_elements].
  apply M_bind_ext; [apply Hfg|]. intros [res flag] c. apply IH.
Qed.

Lemma executor_withoutDirectives (fuel : nat) :
  (forall sel v t d ctx,
     resolveSelection_ fuel (map withoutDirectives sel) v t d ctx
     = resolveSelection_ fuel sel v t d ctx)
  /\ (forall sel v t d ctx,
        resolveSelectionContent_ fuel (map withoutDirectives sel) v t d ctx
        = resolveSelectionContent_ fuel sel v t d ctx)
  /\ (forall q v t d ctx,
        resolveField_ fuel (fieldWithoutDirectives q) v t d ctx
        = resolveField_ fuel q v t d ctx)
  /\ (forall q v t d ctx,
        resolveFieldDataValue_ fuel (fieldWithoutDirectives q) v t d ctx
        = resolveFieldDataValue_ fuel q v t d ctx).
Proof.
  induction fuel as [|fuel (IHs & IHc & IHf & IHd)].
  - split; [|split; [|split]]; reflexivity.
  - split; [|split; [|split]].
    + intros sel v t d ctx.
      change (resolveSelection_ (S fuel))
        with (resolveSelection_body (resolveSelectionContent_ fuel)).
      unfold resolveSelection_body.
      apply M_bind_ext; [reflexivity|]. intros schema_ c.
      destruct (d >=? MaxDepth schema_)%Z; [reflexivity|].
      apply M_bind_ext; [apply IHc | reflexivity].
    + intros sel v t d ctx.
      change (resolveSelectionContent_ (S fuel))
        with (resolveSelectionContent_body (resolveField_ fuel)
                (resolveSelectionContent_ fuel)).
      unfold resolveSelectionContent_body.
      apply loop_withoutDirectives; intros; [apply IHf | apply IHc].
    + intros q v t d ctx.
      change (resolveField_ (S fuel)) with (resolveField_body (resolveFieldDataValue_ fuel)).
      unfold resolveField_body. destruct q as [n a args sel ds].
      cbn [fieldWithoutDirectives name alias arguments selection].
      destruct (objContents t !! n) as [structItem|]; [|reflexivity].
      apply M_bind_ext; [reflexivity|]. intros value c.
      apply M_bind_ext; [exact (IHd (mkField n a args sel ds) value structItem d c)|].
      intros [fieldValue flag] c'. reflexivity.
    + intros q v t d ctx.
      change (resolveFieldDataValue_ (S fuel))
        with (resolveFieldDataValue_body isPrintTable floatToJson float64_of_int
                float64_of_float32 float32_of_float64 hostCall definedEnums
                (resolveSelection_ fuel) (resolveFieldDataValue_ fuel)).
      unfold resolveFieldDataValue_body.
      assert (Hn : name (fieldWithoutDirectives q) = name q) by reflexivity.
      assert (Ha : arguments (fieldWithoutDirectives q) = arguments q) by reflexivity.
      assert (Hsel : selection (fieldWithoutDirectives q)
                     = map withoutDirectives (selection q)) by reflexivity.
      rewrite Hn, Ha, Hsel.
      destruct (valueType t).
      * reflexivity.
      * apply M_bind_ext; [reflexivity|]. intros [|] c; [reflexivity|].
        destruct (innerContent t) as [inner|]; [|reflexivity].
        apply M_bind_ext; [reflexivity|]. intros elems c1.
        apply M_bind_ext; [|reflexivity].
        apply elements_ext. intros. apply IHd.
      * destruct (selection q) as [|s0 sel] eqn:Es; [reflexivity|].
        cbn [map]. apply M_bind_ext; [reflexivity|]. intros schema_ c.
        destruct (bool_decide _);
          [destruct (types schema_ !! typeName t) as [found|]; [|reflexivity]|];
          (apply M_bind_ext; [exact (IHs (s0 :: sel) _ _ _ _) | reflexivity]).
      * destruct (selection q) as [|s0 sel] eqn:Es; [reflexivity|].
        cbn [map]. apply M_bind_ext; [reflexivity|]. intros schema_ c.
        destruct (bool_decide _);
          [destruct (types schema_ !! typeName t) as [found|]; [|reflexivity]|];
          (apply M_bind_ext; [exact (IHs (s0 :: sel) _ _ _ _) | reflexivity]).
      * destruct (selection q) as [|s0 sel]; reflexivity.
      * apply M_bind_ext; [reflexivity|]. intros [|] c; [reflexivity|].
        apply M_bind_ext; [reflexivity|]. intros elem_ c1.
        destruct (innerContent t) as [inner|]; [apply IHd | reflexivity].
      * apply M_bind_ext; [reflexivity|]. intros [|] c; [reflexivity|].
        apply M_bind_ext; [reflexivity|]. intros method_ c1.
        apply M_bind_ext; [reflexivity|]. intros inputs c2.
        apply M_bind_ext; [apply arguments_by_name; exact Hn|].
        intros [returned|inputs'] c3; [reflexivity|].
        unfold resolveFieldDataValue_invoke.
        apply M_bind_ext; [reflexivity|]. intros outs c4.
        apply M_bind_ext; [apply errorOut_by_name; exact Hn|].
        intros [returned|] c5; [reflexivity|].
        apply M_bind_ext; [reflexivity|]. intros out c6. apply IHd.
      * reflexivity.
Qed.

(** X19: directives are never applied.  Taking the directives away from
    every field of a selection set, at every level, changes nothing: the same
    response, the same errors, the same calls, the same panic; a field under
    [skip] or [include] is resolved and written like any other. *)
Theorem directives_are_ignored (fuel : nat) :
  (forall sel v t d ctx,
     resolveSelection_ fuel (map withoutDirectives sel) v t d ctx
     = resolveSelection_ fuel sel v t d ctx)
  /\ (forall n a args sel ds v t d ctx,
        resolveField_ fuel (mkField n a args sel ds) v t d ctx
        = resolveField_ fuel (mkField n a args sel []) v t d ctx)
  /\ (forall operator ctx,
        start_ fuel
          (mkOperator (operationType operator) (op_name operator)
             (map withoutDirectives (op_selection operator))
             (op_directives operator) (fragment operator)) ctx
        = start_ fuel operator ctx).
Proof.
  destruct (executor_withoutDirectives fuel) as (Hs & Hc & Hf & Hv).
  split; [exact Hs|]. split.
  - intros n a args sel ds v t d ctx.
    rewrite <- (Hf (mkField n a args sel ds)), <- (Hf (mkField n a args sel [])).
    reflexivity.
  - intros operator ctx. unfold start. cbn [operationType op_selection op_directives].
    apply M_bind_ext; [reflexivity|]. intros _ c.
    apply M_bind_ext; [reflexivity|]. intros schema_ c'.
    repeat match goal with
           | |- (if ?x then _ else _) _ = _ => destruct x
           end; try reflexivity; apply Hs.
Qed.

(** *** The directives and the variables of the context *)

















(** *** [matchInputValue] *)

(** The list case of [matchInputValue], by its loop *)
Lemma matchInputValue_list (inTypes_ : gmap string Input) (queryValue : Value)
    (goField : reflect.Value) (goAnylizedData elem_ : Input) :
  plainLiteral queryValue ->
  valType queryValue = reflect.Array ->
  kind goAnylizedData = reflect.Slice ->
  elem goAnylizedData = Some elem_ ->
  matchInputValue_ inTypes_ queryValue goField goAnylizedData
  = (arr ← (t ← reflect.type goField;
            reflect.MakeSlice t (length (listValue queryValue)));
     r ← matchInputValue_items
           (fun item arrayItem => matchInputValue_ inTypes_ item arrayItem elem_)
           (listValue queryValue) O arr;
     match r with
     | Mismatch err => Done (Mismatch err)
     | Matched arr => Done (Matched (reflect.Set_ goField arr))
     end).
Proof.
  intros (Hvar & Hnull & Henum) HvT Hkind Helem.
  destruct queryValue, goAnylizedData. simpl in Hvar, Hnull, Henum, HvT, Hkind, Helem.
  subst. reflexivity.
Qed.

(** The object case of [matchInputValue], by its loop *)
Lemma matchInputValue_object (inTypes_ : gmap string Input) (queryValue : Value)
    (goField : reflect.Value) (goAnylizedData : Input) :
  plainLiteral queryValue ->
  valType queryValue = reflect.Map ->
  kind goAnylizedData = reflect.Struct ->
  matchInputValue_ inTypes_ queryValue goField goAnylizedData
  = matchInputValue_properties (matchInputValue_ inTypes_)
      (if isStructPointers goAnylizedData
       then inTypes_ !! structName goAnylizedData
       else Some goAnylizedData)
      (objectValue queryValue) goField.
Proof.
  intros (Hvar & Hnull & Henum) HvT Hkind.
  destruct queryValue, goAnylizedData. simpl in Hvar, Hnull, Henum, HvT, Hkind.
  subst. reflexivity.
Qed.

Lemma insert_middle {A} (l1 l2 : list A) (x y : A) :
  <[length l1 := y]> (l1 ++ x :: l2)%list = (l1 ++ y :: l2)%list.
Proof.
  rewrite insert_app_r_alt by reflexivity. now rewrite Nat.sub_diag.
Qed.

Lemma items_filled (matchItem : Value -> reflect.Value -> outcome matched)
    (e : reflect.Type_) (l : list Value) :
  forall done xs,
    Forall2 (fun item x => matchItem item (reflect.Zero e) = Done (Matched x)) l xs ->
    matchInputValue_items matchItem l (length done)
      (reflect.VSlice e (done ++ replicate (length l) (reflect.Zero e))%list)
    = Done (Matched (reflect.VSlice e (done ++ xs)%list)).
Proof.
  induction l as [|item rest IH]; intros done xs Hall; inversion Hall as [|? x ? xs' Hx Hrest];
    subst.
  - reflexivity.
  - cbn [matchInputValue_items length replicate reflect.elements].
    unfold mbind, outcome_mbind, outcome_bind, index.
    rewrite (list_lookup_middle done _ _ (length done) eq_refl).
    rewrite Hx. cbn [reflect.SetIndex].
    rewrite insert_middle.
    specialize (IH (done ++ [x])%list xs' Hrest).
    rewrite length_app, Nat.add_1_r, <- !app_assoc in IH. exact IH.
Qed.

Lemma items_refused (matchItem : Value -> reflect.Value -> outcome matched)
    (e : reflect.Type_) (item : Value) (post : list Value) (err : string) (pre : list Value) :
  matchItem item (reflect.Zero e) = Done (Mismatch err) ->
  forall done xs,
    Forall2 (fun item x => matchItem item (reflect.Zero e) = Done (Matched x)) pre xs ->
    matchInputValue_items matchItem (pre ++ item :: post)%list (length done)
      (reflect.VSlice e
         (done ++ replicate (length (pre ++ item :: post)%list) (reflect.Zero e))%list)
    = Done (Mismatch (err +:+ ", Array index: ["
                          +:+ fmt_d (Z.of_nat (length done + length pre)) +:+ "]")).
Proof.
  intros Herr.
  induction pre as [|p pre IH]; intros done xs Hall; inversion Hall as [|? x ? xs' Hx Hrest];
    subst.
  - cbn [app matchInputValue_items length replicate reflect.elements].
    unfold mbind, outcome_mbind, outcome_bind, index.
    rewrite (list_lookup_middle done _ _ (length done) eq_refl).
    rewrite Herr. now rewrite Nat.add_0_r.
  - cbn [app matchInputValue_items length replicate reflect.elements].
    unfold mbind, outcome_mbind, outcome_bind, index.
    rewrite (list_lookup_middle done _ _ (length done) eq_refl).
    rewrite Hx. cbn [reflect.SetIndex].
    rewrite insert_middle.
    specialize (IH (done ++ [x])%list xs' Hrest).
    rewrite length_app, Nat.add_1_r, <- !app_assoc in IH. cbn [app] in IH.
    rewrite IH. now rewrite Nat.add_succ_r.
Qed.

(** X21: a list literal into a slice.  When every item coerces into an element,
    the argument becomes the slice of the coerced items, one for each item
    of the literal, in order; otherwise the coercion stops at the first item
    that fails, with the error of the item followed by [Array index: [i]],
    [i] counting the items from 0. *)
Theorem list_literal_fills_the_slice (inTypes_ : gmap string Input) (queryValue : Value)
    (e : reflect.Type_) (goAnylizedData elem_ : Input) :
  plainLiteral queryValue ->
  valType queryValue = reflect.Array ->
  kind goAnylizedData = reflect.Slice ->
  elem goAnylizedData = Some elem_ ->
  (forall xs,
     Forall2 (fun item x =>
                matchInputValue_ inTypes_ item (reflect.Zero e) elem_ = Done (Matched x))
             (listValue queryValue) xs ->
     matchInputValue_ inTypes_ queryValue (reflect.VNil (reflect.TSlice e)) goAnylizedData
     = Done (Matched (reflect.VSlice e xs))
     /\ length xs = length (listValue queryValue))
  /\ (forall pre item post xs err,
        listValue queryValue = (pre ++ item :: post)%list ->
        Forall2 (fun item x =>
                   matchInputValue_ inTypes_ item (reflect.Zero e) elem_ = Done (Matched x))
                pre xs ->
        matchInputValue_ inTypes_ item (reflect.Zero e) elem_ = Done (Mismatch err) ->
        matchInputValue_ inTypes_ queryValue (reflect.VNil (reflect.TSlice e)) goAnylizedData
        = Done (Mismatch (err +:+ ", Array index: ["
                              +:+ fmt_d (Z.of_nat (length pre)) +:+ "]"))).
Proof.
  intros Hplain HvT Hkind Helem.
  rewrite (matchInputValue_list inTypes_ queryValue _ goAnylizedData elem_
             Hplain HvT Hkind Helem).
  cbn [reflect.type]. unfold mbind, outcome_mbind, outcome_bind.
  cbn [reflect.MakeSlice]. split.
  - intros xs Hall. split; [|symmetry; exact (Forall2_length _ _ _ Hall)].
    pose proof (items_filled (fun item arrayItem => matchInputValue_ inTypes_ item arrayItem elem_)
                  e (listValue queryValue) [] xs Hall) as Hloop.
    cbn [length app] in Hloop. now rewrite Hloop.
  - intros pre item post xs err Hl Hall Herr. rewrite Hl.
    pose proof (items_refused (fun item arrayItem => matchInputValue_ inTypes_ item arrayItem elem_)
                  e item post err pre Herr [] xs Hall) as Hloop.
    cbn [length app Nat.add] in Hloop. now rewrite Hloop.
Qed.

Lemma properties_app (matchProperty : Value -> reflect.Value -> Input -> outcome matched)
    (data : option Input) (pre post : list (string * Value)) :
  forall goField,
    matchInputValue_properties matchProperty data (pre ++ post) goField
    = match matchInputValue_properties matchProperty data pre goField with
      | Done (Matched goField1) => matchInputValue_properties matchProperty data post goField1
      | other => other
      end.
Proof.
  induction pre as [|[queryKey arg] pre IH]; intros goField; [reflexivity|].
  cbn [app matchInputValue_properties].
  destruct data as [d|]; [|reflexivity].
  destruct (structContent d !! queryKey) as [meta|]; [|reflexivity].
  unfold mbind, outcome_mbind, outcome_bind.
  destruct (reflect.FieldByName goField (goFieldName meta)) as [field| |]; try reflexivity.
  destruct (matchProperty arg field meta) as [[err|x]| |]; try reflexivity.
  apply IH.
Qed.

(** X22: an object literal into a struct.  The properties are coerced one
    by one into the fields of the struct.  The coercion stops at the first
    property that the input type does not have, with the error [undefined
    property K], or whose value fails, with the error of the value followed by
    [property: K]; a property that coerces is stored in its field, and the
    coercion goes on with the properties that follow. *)
Theorem object_literal_fills_the_struct (inTypes_ : gmap string Input) (queryValue : Value)
    (goField goField1 : reflect.Value) (goAnylizedData data : Input)
    (pre post : list (string * Value)) (K : string) (arg : Value) :
  plainLiteral queryValue ->
  valType queryValue = reflect.Map ->
  kind goAnylizedData = reflect.Struct ->
  (if isStructPointers goAnylizedData
   then inTypes_ !! structName goAnylizedData
   else Some goAnylizedData) = Some data ->
  objectValue queryValue = (pre ++ (K, arg) :: post)%list ->
  matchInputValue_properties (matchInputValue_ inTypes_) (Some data) pre goField
  = Done (Matched goField1) ->
  (structContent data !! K = None ->
   matchInputValue_ inTypes_ queryValue goField goAnylizedData
   = Done (Mismatch ("undefined property " +:+ K)))
  /\ (forall structItemMeta field,
        structContent data !! K = Some structItemMeta ->
        reflect.FieldByName goField1 (goFieldName structItemMeta) = Done field ->
        (forall err,
           matchInputValue_ inTypes_ arg field structItemMeta = Done (Mismatch err) ->
           matchInputValue_ inTypes_ queryValue goField goAnylizedData
           = Done (Mismatch (err +:+ ", property: " +:+ K)))
        /\ (forall x,
              matchInputValue_ inTypes_ arg field structItemMeta = Done (Matched x) ->
              matchInputValue_ inTypes_ queryValue goField goAnylizedData
              = matchInputValue_properties (matchInputValue_ inTypes_) (Some data) post
                  (reflect.SetFieldByName goField1 (goFieldName structItemMeta) x))).
Proof.
  intros Hplain HvT Hkind Hdata Hl Hpre.
  rewrite (matchInputValue_object inTypes_ queryValue goField goAnylizedData
             Hplain HvT Hkind).
  rewrite Hdata, Hl, properties_app, Hpre. cbn [matchInputValue_properties].
  split.
  - intros ->. reflexivity.
  - intros meta field -> Hfield. unfold mbind, outcome_mbind, outcome_bind.
    rewrite Hfield. split.
    + intros err ->. reflexivity.
    + intros x ->. reflexivity.
Qed.

(** X23: an integer literal is never refused for its size.  Into a signed
    integer of any width it is stored wrapped around to the width, and so it
    is into an unsigned integer, a negative literal included; a literal that
    the type can hold is stored as it is. *)
Theorem integer_literal_is_wrapped (inTypes_ : gmap string Input) (queryValue : Value)
    (k : reflect.Kind) (old : Z) (goAnylizedData : Input) :
  plainLiteral queryValue ->
  valType queryValue = reflect.Int ->
  kind goAnylizedData = k ->
  (reflect.isSigned k = true ->
   matchInputValue_ inTypes_ queryValue (reflect.VInt k old) goAnylizedData
   = Done (Matched (reflect.VInt k (reflect.wrap k (intValue queryValue))))
   /\ (- 2 ^ (reflect.bits k - 1) <= reflect.wrap k (intValue queryValue)
       < 2 ^ (reflect.bits k - 1))%Z
   /\ ((- 2 ^ (reflect.bits k - 1) <= intValue queryValue < 2 ^ (reflect.bits k - 1))%Z ->
       reflect.wrap k (intValue queryValue) = intValue queryValue))
  /\ (reflect.isUnsigned k = true -> k <> reflect.Uintptr ->
      matchInputValue_ inTypes_ queryValue (reflect.VInt k old) goAnylizedData
      = Done (Matched (reflect.VInt k (intValue queryValue mod 2 ^ reflect.bits k)%Z))).
Proof.
  intros (Hvar & Hnull & Henum) HvT Hkind.
  destruct queryValue as [vt v n e z f s b ev lv ov], goAnylizedData.
  simpl in Hvar, Hnull, Henum, HvT, Hkind. subst. cbn [intValue].
  split.
  - intros Hs. split; [|split].
    + destruct k; try discriminate Hs; reflexivity.
    + unfold reflect.wrap. rewrite Hs.
      assert (0 < 2 ^ reflect.bits k)%Z by (destruct k; reflexivity).
      assert (2 ^ reflect.bits k = 2 * 2 ^ (reflect.bits k - 1))%Z
        by (destruct k; reflexivity).
      pose proof (Z.mod_pos_bound (z + 2 ^ (reflect.bits k - 1)) (2 ^ reflect.bits k)).
      lia.
    + intros Hr. unfold reflect.wrap. rewrite Hs.
      assert (2 ^ reflect.bits k = 2 * 2 ^ (reflect.bits k - 1))%Z
        by (destruct k; reflexivity).
      rewrite Z.mod_small by lia. lia.
  - intros Hu Hptr.
    assert (Hdiv : (2 ^ reflect.bits k | 2 ^ 64)%Z).
    { destruct k; try discriminate Hu;
        first [ exists 1%Z; reflexivity | exists (2 ^ 32)%Z; reflexivity
              | exists (2 ^ 48)%Z; reflexivity | exists (2 ^ 56)%Z; reflexivity ]. }
    rewrite <- (Z.mod_mod_divide z _ _ Hdiv).
    destruct k; try discriminate Hu; try congruence; reflexivity.
Qed.

(** X24: a null literal leaves the argument as it is, at the zero value of
    its type, whatever the type: an input that is not optional takes null
    too.  A variable is refused with the error [variable function arguments
    are currently unsupported]. *)
Theorem null_and_variable_arguments (inTypes_ : gmap string Input) (queryValue : Value)
    (goField : reflect.Value) (goAnylizedData : Input) :
  (isNull queryValue = true ->
   kind goAnylizedData = reflect.Ptr \/ isVar queryValue = false ->
   matchInputValue_ inTypes_ queryValue goField goAnylizedData = Done (Matched goField))
  /\ (isVar queryValue = true ->
      kind goAnylizedData <> reflect.Ptr ->
      matchInputValue_ inTypes_ queryValue goField goAnylizedData
      = Done (Mismatch "variable function arguments are currently unsupported")).
Proof.
  destruct queryValue as [vt v n e z f s b ev lv ov],
           goAnylizedData as [k ie ek el sp sn sc gf].
  cbn [isNull isVar kind]. split.
  - intros -> [-> | ->].
    + reflexivity.
    + cbn [matchInputValue]. cbn [kind isNull isVar]. now destruct (bool_decide _).
  - intros -> Hk. cbn [matchInputValue]. cbn [kind isNull isVar].
    now rewrite (bool_decide_eq_false_2 _ Hk).
Qed.

(** X25: an optional argument.  A literal that is not null is coerced into
    the type that the pointer points to, and the argument becomes a pointer to
    the result; an error of the coercion is the error of the argument, as it
    is. *)
Theorem optional_argument_is_a_pointer (inTypes_ : gmap string Input) (queryValue : Value)
    (t : reflect.Type_) (goAnylizedData elem_ : Input) :
  kind goAnylizedData = reflect.Ptr ->
  elem goAnylizedData = Some elem_ ->
  isNull queryValue = false ->
  matchInputValue_ inTypes_ queryValue (reflect.VNil (reflect.TPtr t)) goAnylizedData
  = match matchInputValue_ inTypes_ queryValue (reflect.Zero t) elem_ with
    | Done (Matched x) => Done (Matched (reflect.VPtr x))
    | other => other
    end.
Proof.
  intros Hk He Hn.
  destruct queryValue as [vt v n e z f s b ev lv ov],
           goAnylizedData as [k ie ek el sp sn sc gf].
  cbn [isNull kind elem] in Hk, He, Hn. subst.
  cbn [matchInputValue]. cbn [kind isNull elem reflect.type reflect.TypeElem].
  rewrite (bool_decide_eq_true_2 _ eq_refl).
  unfold mbind, outcome_mbind, outcome_bind. cbn [reflect.TypeElem reflect.Set_].
  match goal with
  | |- match ?a with _ => _ end = match ?b with _ => _ end =>
    change a with b; destruct b as [[err|x]| |]; reflexivity
  end.
Qed.

(** X26: an enum name as an argument.  An input that is not an enum
    refuses it as a type mismatch; an enum input looks the name up in the
    registry, under the key of the enum: a name that the enum does not have
    gives the error [unknown enum value V for enum E], and a name that it has
    stores its value in the argument, with [SetString] or [SetInt]. *)
Theorem enum_argument_is_looked_up (inTypes_ : gmap string Input) (queryValue : Value)
    (goField : reflect.Value) (goAnylizedData : Input) :
  isVar queryValue = false -> isNull queryValue = false -> isEnum queryValue = true ->
  kind goAnylizedData <> reflect.Ptr ->
  (input_isEnum goAnylizedData = false ->
   forall t, reflect.type goField = Done t ->
     matchInputValue_ inTypes_ queryValue goField goAnylizedData
     = Done (Mismatch ("function arguments type missmatch expected "
                         +:+ kindName (reflect.TypeKind (stripPtr t)))))
  /\ (input_isEnum goAnylizedData = true ->
      (from_option keyValue ∅ (definedEnums !! input_enumKey goAnylizedData)
         !! enumValue queryValue = None ->
       matchInputValue_ inTypes_ queryValue goField goAnylizedData
       = Done (Mismatch ("unknown enum value " +:+ enumValue queryValue +:+ " for enum "
                           +:+ input_enumKey goAnylizedData)))
      /\ (forall enum_ value s,
            definedEnums !! input_enumKey goAnylizedData = Some enum_ ->
            keyValue enum_ !! enumValue queryValue = Some value ->
            reflect.scalar value = reflect.VString s ->
            matchInputValue_ inTypes_ queryValue goField goAnylizedData
            = assigned (reflect.SetString goField s)
            /\ forall name_ old, goField = reflect.VNamed name_ (reflect.VString old) ->
                  matchInputValue_ inTypes_ queryValue goField goAnylizedData
                  = Done (Matched (reflect.VNamed name_ (reflect.VString s))))
      /\ (forall enum_ value k n,
            definedEnums !! input_enumKey goAnylizedData = Some enum_ ->
            keyValue enum_ !! enumValue queryValue = Some value ->
            reflect.scalar value = reflect.VInt k n ->
            reflect.isSigned k = true ->
            matchInputValue_ inTypes_ queryValue goField goAnylizedData
            = assigned (reflect.SetInt goField n))).
Proof.
  intros Hvar Hnull Henum Hk.
  destruct queryValue as [vt v n e z f s b ev lv ov],
           goAnylizedData as [k ie ek el sp sn sc gf].
  cbn [isNull isVar isEnum kind input_isEnum input_enumKey enumValue] in *. subst.
  cbn [matchInputValue].
  cbn [isNull isVar isEnum kind input_isEnum input_enumKey enumValue].
  rewrite (bool_decide_eq_false_2 _ Hk). split.
  - intros -> t Ht. cbn [negb]. unfold returnErr, mismatchError. now rewrite Ht.
  - intros ->. cbn [negb]. split; [|split].
    + intros ->. reflexivity.
    + intros enum_ value s' -> Hv Hs. cbn [from_option]. rewrite Hv, Hs.
      split; [reflexivity|]. intros name_ old ->. reflexivity.
    + intros enum_ value k0 n0 -> Hv Hs Hk0. cbn [from_option].
      now rewrite Hv, Hs, Hk0.
Qed.

(** X27: a scalar literal needs an input of its kind.  A string literal is
    stored in a string and a boolean literal in a boolean; an integer literal
    is also taken by a float, converted, while a float literal is refused by an
    integer.  A refusal is the error [function arguments type missmatch
    expected T], [T] being what the Go type of the argument is called; a
    literal of no known type is refused with [undefined function input
    type]. *)
Theorem scalar_literal_needs_its_kind (inTypes_ : gmap string Input) (queryValue : Value)
    (goField : reflect.Value) (goAnylizedData : Input) :
  plainLiteral queryValue ->
  kind goAnylizedData <> reflect.Ptr ->
  let refused t :=
    Done (Mismatch ("function arguments type missmatch expected "
                      +:+ kindName (reflect.TypeKind (stripPtr t)))) in
  let result := matchInputValue_ inTypes_ queryValue goField goAnylizedData in
  (valType queryValue = reflect.String ->
   (kind goAnylizedData = reflect.String -> forall old, goField = reflect.VString old ->
    result = Done (Matched (reflect.VString (stringValue queryValue))))
   /\ (kind goAnylizedData <> reflect.String -> forall t, reflect.type goField = Done t ->
       result = refused t))
  /\ (valType queryValue = reflect.Bool ->
      (kind goAnylizedData = reflect.Bool -> forall old, goField = reflect.VBool old ->
       result = Done (Matched (reflect.VBool (booleanValue queryValue))))
      /\ (kind goAnylizedData <> reflect.Bool -> forall t, reflect.type goField = Done t ->
          result = refused t))
  /\ (valType queryValue = reflect.Float64 ->
      (kind goAnylizedData = reflect.Float64 -> forall old, goField = reflect.VFloat64 old ->
       result = Done (Matched (reflect.VFloat64 (floatValue queryValue))))
      /\ (kind goAnylizedData <> reflect.Float32 -> kind goAnylizedData <> reflect.Float64 ->
          forall t, reflect.type goField = Done t -> result = refused t))
  /\ (valType queryValue = reflect.Int ->
      kind goAnylizedData = reflect.Float64 -> forall old, goField = reflect.VFloat64 old ->
      result = Done (Matched (reflect.VFloat64 (float64_of_int (intValue queryValue)))))
  /\ (valType queryValue <> reflect.Int -> valType queryValue <> reflect.Float64 ->
      valType queryValue <> reflect.String -> valType queryValue <> reflect.Bool ->
      valType queryValue <> reflect.Array -> valType queryValue <> reflect.Map ->
      result = Done (Mismatch "undefined function input type")).
Proof.
  intros (Hvar & Hnull & Henum) Hk refused result. subst refused result.
  destruct queryValue as [vt v n e z f s b ev lv ov],
           goAnylizedData as [k ie ek el sp sn sc gf].
  cbn [isNull isVar isEnum kind valType stringValue booleanValue floatValue intValue] in *.
  subst. cbn [matchInputValue]. cbn [isNull isVar isEnum kind valType stringValue
                                      booleanValue floatValue intValue].
  rewrite (bool_decide_eq_false_2 _ Hk).
  split; [|split; [|split; [|split]]].
  - intros ->. split.
    + intros -> old ->. reflexivity.
    + intros Hs t Ht. rewrite (bool_decide_eq_false_2 _ Hs).
      unfold returnErr, mismatchError. now rewrite Ht.
  - intros ->. split.
    + intros -> old ->. reflexivity.
    + intros Hs t Ht. rewrite (bool_decide_eq_false_2 _ Hs).
      unfold returnErr, mismatchError. now rewrite Ht.
  - intros ->. split.
    + intros -> old ->. reflexivity.
    + intros H32 H64 t Ht. unfold returnErr, mismatchError. rewrite Ht.
      destruct k; try congruence; reflexivity.
  - intros -> -> old ->. reflexivity.
  - intros. destruct vt; try congruence; reflexivity.
Qed.

(** *** [Resolve] *)

Variable ParseQueryAndCheckNames :
  string -> gmap string Operator * list (string * Operator) * list string.

Local Abbreviation Resolve_ :=
  (Resolve isPrintTable floatToJson float64_of_int float64_of_float32
     float32_of_float64 hostCall definedEnums ParseQueryAndCheckNames).

(** X28: what [Resolve] returns besides the error cases of the choice of
    an operator.  With parse errors it returns the empty object and these
    errors, and runs nothing.  With several operators and a target that names
    one of them, it runs that operator from a context without errors, and
    returns the response of the run with the errors that the run recorded, in
    the order in which they were recorded. *)
Theorem Resolve_returns_the_run (fuel : nat) (s : Schema) (query operatorTarget : string)
    (fragments_ : gmap string Operator) (operatorsMap : list (string * Operator))
    (errs : list string) :
  ParseQueryAndCheckNames query = (fragments_, operatorsMap, errs) ->
  (errs <> [] -> Resolve_ fuel s query operatorTarget = Done ("{}", errs))
  /\ (errs = [] -> 1 < length operatorsMap -> operatorTarget <> EmptyString ->
      forall operator, reflect.assoc operatorTarget operatorsMap = Some operator ->
        Resolve_ fuel s query operatorTarget
        = match start_ fuel operator (initialCtx fragments_ s) with
          | Done (res, ctx') => Done (res, errors ctx')
          | Panic reason => Panic reason
          | OutOfFuel => OutOfFuel
          end
        /\ (forall res recorded,
              Resolve_ fuel s query operatorTarget = Done (res, recorded) ->
              exists ctx',
                start_ fuel operator (initialCtx fragments_ s) = Done (res, ctx')
                /\ recorded = errors ctx'
                /\ schema ctx' = s /\ fragments ctx' = fragments_)).
Proof.
  intros Hparse. split.
  - intros Hne. destruct errs as [|err errs]; [congruence|].
    exact (Resolve_parse_errors isPrintTable floatToJson float64_of_int float64_of_float32
             float32_of_float64 hostCall definedEnums ParseQueryAndCheckNames
             fuel s query operatorTarget fragments_ operatorsMap err errs Hparse).
  - intros -> Hlen Hne operator Hop.
    assert (Heq : Resolve_ fuel s query operatorTarget
                  = match start_ fuel operator (initialCtx fragments_ s) with
                    | Done (res, ctx') => Done (res, errors ctx')
                    | Panic reason => Panic reason
                    | OutOfFuel => OutOfFuel
                    end).
    { rewrite (Resolve_target isPrintTable floatToJson float64_of_int float64_of_float32
                 float32_of_float64 hostCall definedEnums ParseQueryAndCheckNames
                 fuel s query operatorTarget fragments_ operatorsMap operator
                 Hparse Hlen Hne Hop).
      unfold returning, mbind, outcome_mbind, outcome_bind.
      now destruct (start_ fuel operator (initialCtx fragments_ s)) as [[res c]| |]. }
    split; [exact Heq|].
    intros res recorded H. rewrite Heq in H.
    destruct (start_ fuel operator (initialCtx fragments_ s)) as [[res' c]| |] eqn:E;
      try discriminate.
    injection H as <- <-. exists c. split; [reflexivity|]. split; [reflexivity|].
    apply accumulates_start in E as (Hs & Hf & _). split; assumption.
Qed.

(** *** Termination *)

(** The computations of [reflect] end. *)

Lemma ends_Done {A} (a : A) : ends (Done a).
Proof. discriminate. Qed.

Lemma ends_Panic {A} (r : string) : ends (@Panic A r).
Proof. discriminate. Qed.

Lemma ends_bind {A B} (o : outcome A) (k : A -> outcome B) :
  ends o -> (forall a, ends (k a)) -> ends (o ≫= k).
Proof.
  intros Ho Hk. unfold mbind, outcome_mbind, outcome_bind.
  destruct o as [a| |]; [apply Hk | discriminate | now destruct Ho].
Qed.

(** The routine steps of a proof that a computation ends *)
Ltac ends :=
  repeat first
    [ apply ends_Done
    | apply ends_Panic
    | assumption
    | apply ends_bind; [|intros]
    | match goal with
      | |- ends (match ?x with _ => _ end) => destruct x
      | |- ends (if ?x then _ else _) => destruct x
      | |- ends (let (_, _) := ?x in _) => destruct x
      end ].

Lemma ends_type : forall v, ends (reflect.type v).
Proof.
  fix IH 1. intros [| | | | | |v|t|e l|e l|fs ms| | | |n v]; cbn [reflect.type];
    try apply ends_Done; try apply ends_Panic.
  - apply ends_bind; [apply IH | intros; apply ends_Done].
  - apply ends_bind; [|intros; apply ends_Done].
    induction fs as [|[n f] fs IHfs]; [apply ends_Done|].
    apply ends_bind; [apply IH|]. intros t.
    apply ends_bind; [exact IHfs | intros; apply ends_Done].
  - apply ends_bind; [apply IH | intros; apply ends_Done].
Qed.

Lemma ends_TypeElem (t : reflect.Type_) : ends (reflect.TypeElem t).
Proof. induction t; cbn [reflect.TypeElem]; ends. Qed.

Lemma ends_IsNil (v : reflect.Value) : ends (reflect.IsNil v).
Proof. induction v; cbn [reflect.IsNil]; ends. Qed.

Lemma ends_Elem (v : reflect.Value) : ends (reflect.Elem v).
Proof. induction v; cbn [reflect.Elem]; ends. Qed.

Lemma ends_elements (v : reflect.Value) : ends (reflect.elements v).
Proof. induction v; cbn [reflect.elements]; ends. Qed.

Lemma ends_FieldByName (v : reflect.Value) (name_ : string) :
  ends (reflect.FieldByName v name_).
Proof. induction v; cbn [reflect.FieldByName]; ends. Qed.

Lemma ends_MethodByName (v : reflect.Value) (name_ : string) :
  ends (reflect.MethodByName v name_).
Proof. induction v; cbn [reflect.MethodByName]; ends. Qed.

Lemma ends_SetInt (v : reflect.Value) (x : Z) : ends (reflect.SetInt v x).
Proof. induction v; cbn [reflect.SetInt]; ends. Qed.

Lemma ends_SetUint (v : reflect.Value) (x : Z) : ends (reflect.SetUint v x).
Proof. induction v; cbn [reflect.SetUint]; ends. Qed.

Lemma ends_SetString (v : reflect.Value) (x : string) : ends (reflect.SetString v x).
Proof. induction v; cbn [reflect.SetString]; ends. Qed.

Lemma ends_SetBool (v : reflect.Value) (x : bool) : ends (reflect.SetBool v x).
Proof. induction v; cbn [reflect.SetBool]; ends. Qed.

Lemma ends_SetFloat (narrow : Z -> Z) (v : reflect.Value) (x : Z) :
  ends (reflect.SetFloat narrow v x).
Proof. induction v; cbn [reflect.SetFloat]; ends. Qed.

Lemma ends_MakeSlice (t : reflect.Type_) (n : nat) : ends (reflect.MakeSlice t n).
Proof. induction t; cbn [reflect.MakeSlice]; ends. Qed.

Lemma ends_index {A} (l : list A) (i : nat) : ends (index l i).
Proof. unfold index, indexOutOfRange. ends. Qed.

Lemma ends_Interface (v : reflect.Value) : ends (Value_Interface v).
Proof. destruct v; cbn [Value_Interface]; ends. Qed.

Lemma ends_method_inputs (ins_ : list baseInput) : ends (method_inputs ins_).
Proof.
  induction ins_ as [|in_ rest IH]; cbn [method_inputs]; unfold nilDeref; ends.
Qed.

Lemma ends_resolveField_value (struct_ : reflect.Value) (structItem : Obj) :
  ends (resolveField_value struct_ structItem).
Proof.
  unfold resolveField_value, nilDeref.
  ends; first [apply ends_MethodByName | apply ends_FieldByName].
Qed.

Lemma ends_mismatchError (goField : reflect.Value) : ends (returnErr (mismatchError goField)).
Proof. unfold returnErr, mismatchError. ends. apply ends_type. Qed.

Lemma ends_assigned (o : outcome reflect.Value) : ends o -> ends (assigned o).
Proof. intros Ho. unfold assigned. ends. Qed.

(** *** [matchInputValue] ends *)

Lemma ends_items (matchItem : Value -> reflect.Value -> outcome matched) (l : list Value) :
  (forall item, In item l -> forall arrayItem, ends (matchItem item arrayItem)) ->
  forall i arr, ends (matchInputValue_items matchItem l i arr).
Proof.
  induction l as [|item rest IH]; intros Hl i arr; cbn [matchInputValue_items].
  - apply ends_Done.
  - apply ends_bind.
    + apply ends_bind; [apply ends_elements | intros; apply ends_index].
    + intros arrayItem. apply ends_bind; [apply Hl; now left|].
      intros [err|x]; [apply ends_Done|]. apply IH. intros item' Hin. apply Hl. now right.
Qed.

Lemma ends_properties (matchProperty : Value -> reflect.Value -> Input -> outcome matched)
    (data : option Input) (l : list (string * Value)) :
  (forall kv, In kv l -> forall field meta, ends (matchProperty (snd kv) field meta)) ->
  forall goField, ends (matchInputValue_properties matchProperty data l goField).
Proof.
  induction l as [|[queryKey arg] rest IH]; intros Hl goField;
    cbn [matchInputValue_properties].
  - apply ends_Done.
  - destruct data as [d|]; [|apply ends_Panic].
    destruct (structContent d !! queryKey) as [meta|]; [|apply ends_Done].
    apply ends_bind; [apply ends_FieldByName|]. intros field.
    apply ends_bind; [exact (Hl (queryKey, arg) (or_introl eq_refl) field meta)|].
    intros [err|x]; [apply ends_Done|]. apply IH. intros kv Hin. apply Hl. now right.
Qed.

Lemma valueSize_item (item : Value) (l : list Value) :
  In item l -> (valueSize item <= list_sum (map valueSize l))%nat.
Proof.
  induction l as [|x l IH]; intros Hin; [destruct Hin|].
  cbn [map list_sum fold_right]. destruct Hin as [-> | Hin]; [lia|].
  apply IH in Hin. unfold list_sum in Hin. lia.
Qed.

Lemma valueSize_property (kv : string * Value) (l : list (string * Value)) :
  In kv l -> (valueSize (snd kv) <= list_sum (map (fun kv => valueSize (snd kv)) l))%nat.
Proof.
  induction l as [|x l IH]; intros Hin; [destruct Hin|].
  cbn [map list_sum fold_right]. destruct Hin as [-> | Hin]; [lia|].
  apply IH in Hin. unfold list_sum in Hin. lia.
Qed.

Lemma ends_matchInputValue_sized (inTypes_ : gmap string Input) :
  forall n queryValue, (valueSize queryValue < n)%nat ->
  forall m goAnylizedData, (inputDepth goAnylizedData < m)%nat ->
  forall goField, ends (matchInputValue_ inTypes_ queryValue goField goAnylizedData).
Proof.
  induction n as [|n IHn]; [intros; lia|]. intros queryValue Hn.
  induction m as [|m IHm]; [intros; lia|]. intros goAnylizedData Hm goField.
  destruct queryValue as [vt v nl e z f s b ev lv ov],
           goAnylizedData as [k ie ek el sp sn sc gf].
  cbn [valueSize] in Hn. cbn [inputDepth] in Hm.
  assert (Hitems : forall item, In item lv ->
            forall goField' in', ends (matchInputValue_ inTypes_ item goField' in')).
  { intros item Hin goField' in'. pose proof (valueSize_item item lv Hin).
    apply (IHn item ltac:(lia) (S (inputDepth in')) in' ltac:(lia)). }
  assert (Hprops : forall kv, In kv ov ->
            forall goField' in', ends (matchInputValue_ inTypes_ (snd kv) goField' in')).
  { intros kv Hin goField' in'. pose proof (valueSize_property kv ov Hin).
    apply (IHn (snd kv) ltac:(lia) (S (inputDepth in')) in' ltac:(lia)). }
  assert (Helem : forall elem_ goField', el = Some elem_ ->
            ends (matchInputValue_ inTypes_ (mkValue vt v nl e z f s b ev lv ov)
                    goField' elem_)).
  { intros elem_ goField' ->. apply IHm. lia. }
  clear IHn IHm Hn Hm.
  cbn [matchInputValue].
  cbn [kind isNull isVar isEnum valType elem input_isEnum input_enumKey enumValue
       intValue floatValue stringValue booleanValue listValue objectValue
       isStructPointers structName].
  unfold nilDeref.
  repeat first
    [ apply ends_Done
    | apply ends_Panic
    | apply ends_mismatchError
    | apply ends_assigned
    | apply ends_SetInt | apply ends_SetUint | apply ends_SetString
    | apply ends_SetBool | apply ends_SetFloat
    | apply ends_type | apply ends_TypeElem | apply ends_MakeSlice
    | match goal with
      | |- ends (match el with _ => _ end) => destruct el as [elem_|]
      | |- ends (_ ≫= _) => apply ends_bind; [|intros]
      | |- ends (match ?x with _ => _ end) => destruct x
      | |- ends (if ?x then _ else _) => destruct x
      end ].
  all: try exact (Helem _ _ eq_refl).
  - destruct el as [elem_|].
    + match goal with
      | |- ends (_ _ _ ?arr) =>
        change (ends (matchInputValue_items
                        (fun item arrayItem =>
                           matchInputValue_ inTypes_ item arrayItem elem_) lv O arr))
      end.
      apply ends_items. intros. now apply Hitems.
    + match goal with
      | |- ends (_ _ _ ?arr) =>
        change (ends (matchInputValue_items
                        (fun _ _ => Panic "invalid memory address or nil pointer dereference")
                        lv O arr))
      end.
      apply ends_items. intros. apply ends_Panic.
  - change (ends (matchInputValue_properties (matchInputValue_ inTypes_)
                    (if sp then inTypes_ !! sn
                     else Some (mkInput k ie ek el sp sn sc gf)) ov goField)).
    apply ends_properties. intros. now apply Hprops.
Qed.

Lemma ends_matchInputValue (inTypes_ : gmap string Input) (queryValue : Value)
    (goField : reflect.Value) (goAnylizedData : Input) :
  ends (matchInputValue_ inTypes_ queryValue goField goAnylizedData).
Proof.
  exact (ends_matchInputValue_sized inTypes_ (S (valueSize queryValue)) queryValue
           (Nat.lt_succ_diag_r _) (S (inputDepth goAnylizedData)) goAnylizedData
           (Nat.lt_succ_diag_r _) goField).
Qed.

(** *** The executor ends on a document without fragment spreads *)

Lemma halts_ret {A} (s : Schema) (a : A) : halts s (mret a).
Proof. intros ctx _. discriminate. Qed.

Lemma halts_lift {A} (s : Schema) (o : outcome A) : ends o -> halts s (lift o).
Proof. intros Ho ctx _. unfold lift. now destruct o. Qed.

Lemma halts_addErr (s : Schema) (err : string) : halts s (addErr err).
Proof. intros ctx _. discriminate. Qed.

Lemma halts_Call (s : Schema) (value : reflect.Value) (inputs : list reflect.Value) :
  halts s (Call hostCall value inputs).
Proof. intros ctx _. unfold Call. now destruct (reflect.scalar value). Qed.

Lemma halts_bind {A B} (s : Schema) (m : M A) (k : A -> M B) :
  accumulates m -> halts s m -> (forall a, halts s (k a)) -> halts s (m ≫= k).
Proof.
  intros Hacc Hm Hk ctx Hs. unfold mbind, M_bind.
  destruct (m ctx) as [[a c]| |] eqn:E.
  - apply Hk. apply Hacc in E as (Hsc & _). congruence.
  - discriminate.
  - now apply Hm in E.
Qed.

(** After [ctx.schema] is read, the schema is the one of the context. *)
Lemma halts_reads_schema {B} (s : Schema) (k : Schema -> M B) :
  halts s (k s) -> halts s (reads schema ≫= k).
Proof. intros Hk ctx Hs. unfold mbind, M_bind, reads. rewrite Hs. now apply Hk. Qed.

Lemma halts_reads_fragments {B} (s : Schema) (k : gmap string Operator -> M B) :
  (forall a, halts s (k a)) -> halts s (reads fragments ≫= k).
Proof. intros Hk ctx Hs. unfold mbind, M_bind, reads. now apply Hk. Qed.

Lemma halts_lift_Done {A B} (s : Schema) (a : A) (k : A -> M B) :
  halts s (k a) -> halts s (lift (Done a) ≫= k).
Proof. intros Hk ctx Hs. now apply Hk. Qed.

Lemma halts_lift_Panic {A B} (s : Schema) (r : string) (k : A -> M B) :
  halts s (lift (Panic r) ≫= k).
Proof. intros ctx Hs. discriminate. Qed.

(** The routine steps of a proof that a method ends *)
Ltac halt :=
  repeat first
    [ apply halts_ret
    | apply halts_addErr
    | apply halts_Call
    | apply halts_lift;
      first [ apply ends_IsNil | apply ends_Elem | apply ends_elements
            | apply ends_Interface | apply ends_method_inputs | apply ends_index
            | apply ends_resolveField_value | apply ends_FieldByName
            | apply ends_matchInputValue | apply ends_Done | apply ends_Panic
            | match goal with
              | |- ends (match ?x with _ => _ end) => destruct x; ends
              end ]
    | assumption
    | apply halts_lift_Panic
    | apply halts_lift_Done
    | apply halts_reads_schema
    | apply halts_reads_fragments; intros
    | apply halts_bind; [grow | | intros]
    | match goal with
      | |- halts _ (match ?x with _ => _ end) => destruct x
      | |- halts _ (if ?x then _ else _) => destruct x
      | |- halts _ (let (_, _) := ?x in _) => destruct x
      end ].

Lemma halts_arguments (s : Schema) (query : Field) (method_ : Method) (args : Arguments_) :
  forall inputs, halts s (arguments_ query method_ args inputs).
Proof.
  induction args as [|[queryKey queryValue] rest IH]; intros inputs;
    cbn [resolveFieldDataValue_arguments]; halt; auto.
Qed.

Lemma halts_errorOut (s : Schema) (query : Field) (method_ : Method)
    (outs : list reflect.Value) :
  halts s (resolveFieldDataValue_errorOut query method_ outs).
Proof. unfold resolveFieldDataValue_errorOut. halt. Qed.

Lemma halts_elements (s : Schema)
    (resolveFieldDataValue' : reflect.Value -> M (string * bool)) :
  (forall v, accumulates (resolveFieldDataValue' v)) ->
  (forall v, halts s (resolveFieldDataValue' v)) ->
  forall elems list_,
    halts s (resolveFieldDataValue_elements resolveFieldDataValue' elems list_).
Proof.
  intros Hacc Hr. induction elems as [|v rest IH]; intros list_;
    cbn [resolveFieldDataValue_elements]; halt; auto.
Qed.

Lemma halts_loop (s : Schema)
    (resolveField' : Field -> M (string * bool))
    (resolveSelectionContent' : SelectionSet -> M string)
    (selectionSet : SelectionSet) :
  (forall f, accumulates (resolveField' f)) ->
  (forall sel, accumulates (resolveSelectionContent' sel)) ->
  (forall f, In (SelField f) selectionSet -> halts s (resolveField' f)) ->
  (forall sel, In (SelInlineFragment sel) selectionSet ->
               halts s (resolveSelectionContent' sel)) ->
  forallb spreadFree selectionSet = true ->
  forall res writtenToRes,
    halts s (resolveSelectionContent_loop resolveField' resolveSelectionContent'
               selectionSet res writtenToRes).
Proof.
  intros Haf Hac. induction selectionSet as [|selection rest IH]; intros Hf Hc Hfree res w;
    cbn [resolveSelectionContent_loop].
  - halt.
  - cbn [forallb] in Hfree. apply andb_prop in Hfree as [Hsel Hrest].
    assert (IH' : forall res w,
              halts s (resolveSelectionContent_loop resolveField' resolveSelectionContent'
                         rest res w)).
    { apply IH; [| |exact Hrest]; intros; [apply Hf | apply Hc]; now right. }
    destruct selection as [field|fname|sel]; [| discriminate Hsel |].
    + apply halts_bind; [apply Haf | apply Hf; now left|].
      intros [value flag]. destruct flag; cbn [negb appendMember]; apply IH'.
    + apply halts_bind; [apply Hac | apply Hc; now left|].
      intros value. destruct (nonempty value); cbn [appendMember]; apply IH'.
Qed.

Lemma chain_inner (codeStructure inner : Obj) :
  innerContent codeStructure = Some inner -> (chain inner < chain codeStructure)%nat.
Proof. destruct codeStructure. simpl. intros ->. lia. Qed.

Lemma chain_outType (codeStructure : Obj) (method_ : Method) :
  method codeStructure = Some method_ ->
  (chain (outType method_) < chain codeStructure)%nat.
Proof.
  destruct codeStructure. simpl. intros ->. destruct method_. simpl. lia.
Qed.

Lemma selectionSize_item (item : Selection) (l : SelectionSet) :
  In item l -> (selectionSize item <= list_sum (map selectionSize l))%nat.
Proof.
  induction l as [|x l IH]; intros Hin; [destruct Hin|].
  cbn [map list_sum fold_right]. destruct Hin as [-> | Hin]; [lia|].
  apply IH in Hin. unfold list_sum in Hin. lia.
Qed.

Lemma spreadFree_item (item : Selection) (l : SelectionSet) :
  forallb spreadFree l = true -> In item l -> spreadFree item = true.
Proof. intros Hall Hin. rewrite forallb_forall in Hall. now apply Hall. Qed.

(** With enough fuel, [resolveSelection] ends when its content does. *)
Lemma halts_resolveSelection (s : Schema) (sel : SelectionSet) (t : Obj) (N : nat) :
  (forall fuel, (N <= fuel)%nat ->
     forall v d, halts s (resolveSelectionContent_ fuel sel v t d)) ->
  forall fuel, (S N <= fuel)%nat -> forall v d, halts s (resolveSelection_ fuel sel v t d).
Proof.
  intros Hc fuel Hfuel v d. destruct fuel as [|fuel]; [lia|].
  change (resolveSelection_ (S fuel))
    with (resolveSelection_body (resolveSelectionContent_ fuel)).
  unfold resolveSelection_body.
  destruct (accumulates_executor isPrintTable floatToJson float64_of_int
              float64_of_float32 float32_of_float64 hostCall definedEnums fuel)
    as (_ & Hacc & _ & _).
  halt; [apply Hacc | apply Hc; lia].
Qed.

(** With enough fuel, a value ends when the values under it and the
    selection set of its field do. *)
Lemma halts_resolveFieldDataValue (s : Schema) (query : Field) (t : Obj) (N : nat) :
  (forall inner, innerContent t = Some inner ->
     forall fuel, (N <= fuel)%nat ->
     forall v d, halts s (resolveFieldDataValue_ fuel query v inner d)) ->
  (forall method_, method t = Some method_ ->
     forall fuel, (N <= fuel)%nat ->
     forall v d, halts s (resolveFieldDataValue_ fuel query v (outType method_) d)) ->
  (forall fuel, (N <= fuel)%nat ->
     forall v d, halts s (resolveSelection_ fuel (selection query) v t d)) ->
  (forall found, types s !! typeName t = Some found ->
     forall fuel, (N <= fuel)%nat ->
     forall v d, halts s (resolveSelection_ fuel (selection query) v found d)) ->
  forall fuel, (S N <= fuel)%nat ->
  forall v d, halts s (resolveFieldDataValue_ fuel query v t d).
Proof.
  intros Hinner Hout Hsel Href fuel Hfuel v d. destruct fuel as [|fuel]; [lia|].
  assert (HN : (N <= fuel)%nat) by lia.
  change (resolveFieldDataValue_ (S fuel))
    with (resolveFieldDataValue_body isPrintTable floatToJson float64_of_int
            float64_of_float32 float32_of_float64 hostCall definedEnums
            (resolveSelection_ fuel) (resolveFieldDataValue_ fuel)).
  unfold resolveFieldDataValue_body.
  destruct (accumulates_executor isPrintTable floatToJson float64_of_int
              float64_of_float32 float32_of_float64 hostCall definedEnums fuel)
    as (Has & _ & _ & Hav).
  destruct (valueType t).
  - halt.
  - apply halts_bind; [grow | halt | intros [|]; [halt|] ].
    destruct (innerContent t) as [inner|] eqn:Ei; [|halt].
    apply halts_bind; [grow | halt | intros elems].
    apply halts_bind; [| |intros; halt].
    + apply accumulates_elements. intros. apply Hav.
    + apply halts_elements; intros; [apply Hav | now apply (Hinner inner)].
  - destruct (selection query) eqn:Es; [halt|].
    apply halts_reads_schema. rewrite (bool_decide_eq_true_2 _ eq_refl).
    destruct (types s !! typeName t) as [found|] eqn:Ef; [|halt].
    apply halts_bind; [apply Has | | intros; halt].
    now apply (Href found).
  - destruct (selection query) eqn:Es; [halt|].
    apply halts_reads_schema. rewrite bool_decide_eq_false_2 by discriminate.
    apply halts_bind; [apply Has | | intros; halt].
    now apply Hsel.
  - halt.
  - apply halts_bind; [grow | halt | intros [|]; [halt|] ].
    apply halts_bind; [grow | halt | intros elem_].
    destruct (innerContent t) as [inner|] eqn:Ei; [|halt].
    now apply (Hinner inner).
  - apply halts_bind; [grow | halt | intros [|]; [halt|] ].
    destruct (method t) as [method_|] eqn:Em; [|halt].
    apply halts_lift_Done.
    apply halts_bind; [grow | halt | intros inputs].
    apply halts_bind; [apply accumulates_arguments | apply halts_arguments |].
    intros [returned|inputs']; [halt|].
    unfold resolveFieldDataValue_invoke.
    apply halts_bind; [grow | halt | intros outs].
    apply halts_bind; [apply accumulates_errorOut | apply halts_errorOut |].
    intros [returned|]; [halt|].
    apply halts_bind; [grow | halt | intros out].
    now apply (Hout method_).
  - halt.
Qed.

(** With enough fuel, a field ends when its value does. *)
Lemma halts_resolveField (s : Schema) (query : Field) (t : Obj) (N : nat) :
  (forall structItem, objContents t !! name query = Some structItem ->
     forall fuel, (N <= fuel)%nat ->
     forall v d, halts s (resolveFieldDataValue_ fuel query v structItem d)) ->
  forall fuel, (S N <= fuel)%nat -> forall v d, halts s (resolveField_ fuel query v t d).
Proof.
  intros Hv fuel Hfuel v d. destruct fuel as [|fuel]; [lia|].
  change (resolveField_ (S fuel)) with (resolveField_body (resolveFieldDataValue_ fuel)).
  unfold resolveField_body.
  destruct (accumulates_executor isPrintTable floatToJson float64_of_int
              float64_of_float32 float32_of_float64 hostCall definedEnums fuel)
    as (_ & _ & _ & Hav).
  destruct (objContents t !! name query) as [structItem|] eqn:E; [|halt].
  apply halts_bind; [grow | halt | intros value].
  apply halts_bind; [apply Hav | apply (Hv structItem eq_refl); lia | intros [fv flag]; halt].
Qed.

Lemma terminates_sized (s : Schema) :
  forall n,
    (forall q, (selectionSize (SelField q) < n)%nat -> spreadFree (SelField q) = true ->
       forall t, exists N, forall fuel, (N <= fuel)%nat ->
         forall v d, halts s (resolveFieldDataValue_ fuel q v t d))
    /\ (forall sel, (list_sum (map selectionSize sel) < n)%nat ->
          forallb spreadFree sel = true ->
          forall t, exists N, forall fuel, (N <= fuel)%nat ->
            forall v d, halts s (resolveSelectionContent_ fuel sel v t d)).
Proof.
  induction n as [|n [IHq IHsel]]; [split; intros; lia|].
  assert (HFDV : forall q, (selectionSize (SelField q) < S n)%nat ->
            spreadFree (SelField q) = true ->
            forall t, exists N, forall fuel, (N <= fuel)%nat ->
              forall v d, halts s (resolveFieldDataValue_ fuel q v t d)).
  { intros q Hsize Hfree.
    assert (Hc : forall t, exists N, forall fuel, (N <= fuel)%nat ->
              forall v d, halts s (resolveSelectionContent_ fuel (selection q) v t d)).
    { destruct q as [qn qa qargs qsel qds]. cbn [selectionSize spreadFree] in Hsize, Hfree.
      apply IHsel; [cbn [selection]; lia | exact Hfree]. }
    assert (Hchain : forall c t, (chain t < c)%nat ->
              exists N, forall fuel, (N <= fuel)%nat ->
                forall v d, halts s (resolveFieldDataValue_ fuel q v t d)).
    { induction c as [|c IHc]; [intros; lia|]. intros t Hct.
      destruct (Hc t) as [N3 H3].
      assert (H4 : exists N4, forall found, types s !! typeName t = Some found ->
                forall fuel, (N4 <= fuel)%nat ->
                forall v d, halts s (resolveSelectionContent_ fuel (selection q) v found d)).
      { destruct (types s !! typeName t) as [found|].
        - destruct (Hc found) as [N4 H4]. exists N4. intros ? [= <-]. exact H4.
        - exists O. intros ? [=]. }
      destruct H4 as [N4 H4].
      assert (H1 : exists N1, forall inner, innerContent t = Some inner ->
                forall fuel, (N1 <= fuel)%nat ->
                forall v d, halts s (resolveFieldDataValue_ fuel q v inner d)).
      { destruct (innerContent t) as [inner|] eqn:Ei.
        - pose proof (chain_inner t inner Ei).
          destruct (IHc inner ltac:(lia)) as [N1 H1]. exists N1. intros ? [= <-]. exact H1.
        - exists O. intros ? [=]. }
      destruct H1 as [N1 H1].
      assert (H2 : exists N2, forall method_, method t = Some method_ ->
                forall fuel, (N2 <= fuel)%nat ->
                forall v d, halts s (resolveFieldDataValue_ fuel q v (outType method_) d)).
      { destruct (method t) as [method_|] eqn:Em.
        - pose proof (chain_outType t method_ Em).
          destruct (IHc (outType method_) ltac:(lia)) as [N2 H2].
          exists N2. intros ? [= <-]. exact H2.
        - exists O. intros ? [=]. }
      destruct H2 as [N2 H2].
      exists (S (N1 + N2 + S N3 + S N4)).
      apply (halts_resolveFieldDataValue s q t (N1 + N2 + S N3 + S N4)).
      - intros inner Hi fuel Hf. apply (H1 inner Hi). lia.
      - intros method_ Hm fuel Hf. apply (H2 method_ Hm). lia.
      - intros fuel Hf. apply (halts_resolveSelection s _ t N3 H3). lia.
      - intros found Hfound fuel Hf.
        apply (halts_resolveSelection s _ found N4 (H4 found Hfound)). lia. }
    intros t. exact (Hchain (S (chain t)) t (Nat.lt_succ_diag_r _)). }
  split; [exact HFDV|].
  intros sel Hsize Hfree t.
  assert (Hitems : forall l, (forall item, In item l -> In item sel) ->
            exists N, forall fuel, (N <= fuel)%nat ->
              (forall f, In (SelField f) l ->
                 forall v d, halts s (resolveField_ fuel f v t d))
              /\ (forall sel', In (SelInlineFragment sel') l ->
                    forall v d, halts s (resolveSelectionContent_ fuel sel' v t d))).
  { induction l as [|item l IHl]; intros Hsub.
    - exists O. intros fuel _. split; intros ? [].
    - destruct IHl as [N' IH']; [intros; apply Hsub; now right|].
      pose proof (selectionSize_item item sel (Hsub item (or_introl eq_refl))) as Hle.
      pose proof (spreadFree_item item sel Hfree (Hsub item (or_introl eq_refl))) as Hfr.
      destruct item as [f|fname|sel'].
      + assert (Hf : exists Nf, forall structItem,
                  objContents t !! name f = Some structItem ->
                  forall fuel, (Nf <= fuel)%nat ->
                  forall v d, halts s (resolveFieldDataValue_ fuel f v structItem d)).
        { destruct (objContents t !! name f) as [structItem|].
          - destruct (HFDV f ltac:(lia) Hfr structItem) as [Nf Hf].
            exists Nf. intros ? [= <-]. exact Hf.
          - exists O. intros ? [=]. }
        destruct Hf as [Nf Hf].
        exists (N' + S Nf)%nat. intros fuel Hfuel.
        destruct (IH' fuel ltac:(lia)) as [IHf IHc]. split.
        * intros f' [[= <-] | Hin]; [|now apply IHf].
          apply (halts_resolveField s f t Nf Hf). lia.
        * intros sel'' [[=] | Hin]. now apply IHc.
      + discriminate Hfr.
      + cbn [selectionSize spreadFree] in Hle, Hfr.
        destruct (IHsel sel' ltac:(lia) Hfr t) as [Nc Hc'].
        exists (N' + Nc)%nat. intros fuel Hfuel.
        destruct (IH' fuel ltac:(lia)) as [IHf IHc]. split.
        * intros f' [[=] | Hin]. now apply IHf.
        * intros sel'' [[= <-] | Hin]; [|now apply IHc]. apply Hc'. lia. }
  destruct (Hitems sel (fun _ H => H)) as [N HN].
  exists (S N). intros fuel Hfuel v d. destruct fuel as [|fuel]; [lia|].
  change (resolveSelectionContent_ (S fuel))
    with (resolveSelectionContent_body (resolveField_ fuel) (resolveSelectionContent_ fuel)).
  unfold resolveSelectionContent_body.
  destruct (accumulates_executor isPrintTable floatToJson float64_of_int
              float64_of_float32 float32_of_float64 hostCall definedEnums fuel)
    as (_ & Hac & Haf & _).
  destruct (HN fuel ltac:(lia)) as [Hf Hc].
  apply halts_loop; intros; first [apply Haf | apply Hac | now apply Hf | now apply Hc
                                  | exact Hfree].
Qed.

(** *** More fuel changes no result *)

Lemma extends_refl {A} (m : M A) : extends m m.
Proof. intros ctx _. reflexivity. Qed.

Lemma extends_bind {A B} (m m' : M A) (k k' : A -> M B) :
  extends m m' -> (forall a, extends (k a) (k' a)) -> extends (m ≫= k) (m' ≫= k').
Proof.
  intros Hm Hk ctx H. unfold mbind, M_bind in *.
  destruct (m ctx) as [[a c]| |] eqn:E.
  - rewrite (Hm ctx) by (rewrite E; discriminate). rewrite E. now apply Hk.
  - rewrite (Hm ctx) by (rewrite E; discriminate). now rewrite E.
  - now destruct H.
Qed.

(** The routine steps of such a proof *)
Ltac extend :=
  repeat first
    [ apply extends_refl
    | assumption
    | apply extends_bind; [|intros]
    | match goal with
      | |- extends (match ?x with _ => _ end) _ => destruct x
      | |- extends (if ?x then _ else _) _ => destruct x
      | |- extends (let (_, _) := ?x in _) _ => destruct x
      end ].

Lemma extends_loop
    (resolveField' resolveField'' : Field -> M (string * bool))
    (resolveSelectionContent' resolveSelectionContent'' : SelectionSet -> M string) :
  (forall f, extends (resolveField' f) (resolveField'' f)) ->
  (forall sel, extends (resolveSelectionContent' sel) (resolveSelectionContent'' sel)) ->
  forall selectionSet res writtenToRes,
    extends (resolveSelectionContent_loop resolveField' resolveSelectionContent'
               selectionSet res writtenToRes)
            (resolveSelectionContent_loop resolveField'' resolveSelectionContent''
               selectionSet res writtenToRes).
Proof.
  intros Hf Hc. induction selectionSet as [|selection rest IH]; intros res w;
    cbn [resolveSelectionContent_loop].
  - extend.
  - destruct selection as [field|fname|sel]; extend; auto.
Qed.

Lemma extends_elements (f g : reflect.Value -> M (string * bool)) :
  (forall v, extends (f v) (g v)) ->
  forall elems list_,
    extends (resolveFieldDataValue_elements f elems list_)
            (resolveFieldDataValue_elements g elems list_).
Proof.
  intros Hfg. induction elems as [|v rest IH]; intros list_;
    cbn [resolveFieldDataValue_elements]; extend; auto.
Qed.

Lemma extends_executor (fuel : nat) :
  (forall sel v t d, extends (resolveSelection_ fuel sel v t d)
                             (resolveSelection_ (S fuel) sel v t d))
  /\ (forall sel v t d, extends (resolveSelectionContent_ fuel sel v t d)
                                (resolveSelectionContent_ (S fuel) sel v t d))
  /\ (forall q v t d, extends (resolveField_ fuel q v t d)
                              (resolveField_ (S fuel) q v t d))
  /\ (forall q v t d, extends (resolveFieldDataValue_ fuel q v t d)
                              (resolveFieldDataValue_ (S fuel) q v t d)).
Proof.
  induction fuel as [|fuel (IHs & IHc & IHf & IHd)].
  - split; [|split; [|split]]; intros; intros ctx H; now destruct H.
  - split; [|split; [|split]]; intros.
    + change (extends (resolveSelection_body (resolveSelectionContent_ fuel) sel v t d)
                      (resolveSelection_body (resolveSelectionContent_ (S fuel)) sel v t d)).
      unfold resolveSelection_body. extend. apply IHc.
    + change (extends (resolveSelectionContent_body (resolveField_ fuel)
                         (resolveSelectionContent_ fuel) sel v t d)
                      (resolveSelectionContent_body (resolveField_ (S fuel))
                         (resolveSelectionContent_ (S fuel)) sel v t d)).
      unfold resolveSelectionContent_body.
      apply extends_loop; intros; [apply IHf | apply IHc].
    + change (extends (resolveField_body (resolveFieldDataValue_ fuel) q v t d)
                      (resolveField_body (resolveFieldDataValue_ (S fuel)) q v t d)).
      unfold resolveField_body. extend. apply IHd.
    + change (extends
                (resolveFieldDataValue_body isPrintTable floatToJson float64_of_int
                   float64_of_float32 float32_of_float64 hostCall definedEnums
                   (resolveSelection_ fuel) (resolveFieldDataValue_ fuel) q v t d)
                (resolveFieldDataValue_body isPrintTable floatToJson float64_of_int
                   float64_of_float32 float32_of_float64 hostCall definedEnums
                   (resolveSelection_ (S fuel)) (resolveFieldDataValue_ (S fuel)) q v t d)).
      unfold resolveFieldDataValue_body, resolveFieldDataValue_invoke.
      extend; try apply IHd; try apply IHs.
      apply extends_elements. intros. apply IHd.
Qed.

Lemma extends_resolveSelection (n fuel : nat) :
  (n <= fuel)%nat ->
  forall sel v t d, extends (resolveSelection_ n sel v t d) (resolveSelection_ fuel sel v t d).
Proof.
  induction 1 as [|fuel Hle IH]; intros sel v t d; [apply extends_refl|].
  intros ctx H. rewrite <- (IH sel v t d ctx H).
  apply (extends_executor fuel). now rewrite (IH sel v t d ctx H).
Qed.

(** With enough fuel [start] ends on an operation without fragment spreads,
    and more fuel changes nothing. *)
Lemma start_terminates (s : Schema) (operator : Operator) :
  forallb spreadFree (op_selection operator) = true ->
  exists N, forall ctx, schema ctx = s ->
    start_ N operator ctx <> OutOfFuel
    /\ forall fuel, (N <= fuel)%nat -> start_ fuel operator ctx = start_ N operator ctx.
Proof.
  intros Hfree.
  destruct (terminates_sized s (S (list_sum (map selectionSize (op_selection operator)))))
    as [_ Hsel].
  destruct (Hsel (op_selection operator) (Nat.lt_succ_diag_r _) Hfree (rootQuery s))
    as [Nq Hq].
  destruct (Hsel (op_selection operator) (Nat.lt_succ_diag_r _) Hfree (rootMethod s))
    as [Nm Hm].
  pose proof (halts_resolveSelection s _ (rootQuery s) Nq Hq) as Hsq.
  pose proof (halts_resolveSelection s _ (rootMethod s) Nm Hm) as Hsm.
  exists (S Nq + S Nm)%nat. intros ctx Hs. split.
  - revert ctx Hs.
    change (halts s (start_ (S Nq + S Nm) operator)). unfold start.
    apply halts_bind.
    + destruct (op_directives operator) as [ds|]; [|apply accumulates_ret].
      destruct (0 <? length ds)%nat; [|apply accumulates_ret].
      intros ctx a ctx' H. injection H as _ <-. repeat split; reflexivity.
    + destruct (op_directives operator) as [ds|]; [|apply halts_ret].
      destruct (0 <? length ds)%nat; [|apply halts_ret]. intros ctx _. discriminate.
    + intros _. apply halts_reads_schema.
      repeat match goal with
             | |- halts _ (if ?x then _ else _) => destruct x
             end; try halt; [apply Hsq | apply Hsm]; lia.
  - intros fuel Hfuel.
    assert (Hext : extends (start_ (S Nq + S Nm) operator) (start_ fuel operator)).
    { unfold start. apply extends_bind; [apply extends_refl|]. intros _.
      apply extends_bind; [apply extends_refl|]. intros schema_.
      repeat match goal with
             | |- extends (if ?x then _ else _) _ => destruct x
             end; try apply extends_refl; now apply extends_resolveSelection. }
    apply Hext. revert ctx Hs.
    change (halts s (start_ (S Nq + S Nm) operator)). unfold start.
    apply halts_bind.
    + destruct (op_directives operator) as [ds|]; [|apply accumulates_ret].
      destruct (0 <? length ds)%nat; [|apply accumulates_ret].
      intros ctx a ctx' H. injection H as _ <-. repeat split; reflexivity.
    + destruct (op_directives operator) as [ds|]; [|apply halts_ret].
      destruct (0 <? length ds)%nat; [|apply halts_ret]. intros ctx _. discriminate.
    + intros _. apply halts_reads_schema.
      repeat match goal with
             | |- halts _ (if ?x then _ else _) => destruct x
             end; try halt; [apply Hsq | apply Hsm]; lia.
Qed.

Lemma assoc_In {A} (name_ : string) (l : list (string * A)) (a : A) :
  reflect.assoc name_ l = Some a -> exists key, In (key, a) l.
Proof.
  induction l as [|[n x] l IH]; [discriminate|]. cbn [reflect.assoc].
  destruct (bool_decide (n = name_)).
  - intros [= <-]. exists n. now left.
  - intros H. destruct (IH H) as [key Hin]. exists key. now right.
Qed.

(** One fuel for all the operators of a document *)
Lemma operators_terminate (s : Schema) (operatorsMap : list (string * Operator)) :
  Forall (fun kv => forallb spreadFree (op_selection (snd kv)) = true) operatorsMap ->
  exists N, forall kv, In kv operatorsMap -> forall ctx, schema ctx = s ->
    start_ N (snd kv) ctx <> OutOfFuel
    /\ forall fuel, (N <= fuel)%nat -> start_ fuel (snd kv) ctx = start_ N (snd kv) ctx.
Proof.
  induction 1 as [|kv l Hkv Hl [N IH]].
  - exists O. intros ? [].
  - destruct (start_terminates s (snd kv) Hkv) as [N1 H1].
    exists (N + N1)%nat. intros kv' [<- | Hin] ctx Hs.
    + destruct (H1 ctx Hs) as [He Hst].
      assert (Heq : start_ (N + N1) (snd kv) ctx = start_ N1 (snd kv) ctx)
        by (apply Hst; lia).
      split; [now rewrite Heq|]. intros fuel Hf. rewrite Heq. apply Hst. lia.
    + destruct (IH kv' Hin ctx Hs) as [He Hst].
      assert (Heq : start_ (N + N1) (snd kv') ctx = start_ N (snd kv') ctx)
        by (apply Hst; lia).
      split; [now rewrite Heq|]. intros fuel Hf. rewrite Heq. apply Hst. lia.
Qed.

(** X29: a document without fragment spreads is always answered.  When no
    selection set of the operators has a fragment spread, at any level,
    [Resolve] ends, with a response or with a panic of Go, the methods of the
    host being taken to return: some fuel is enough for the model, and more
    fuel gives the same outcome.  The recursion of the executor goes down the
    selection sets of the document and the chains of inner types and method
    outputs of the schema, both finite, whatever [MaxDepth] is. *)
Theorem spread_free_document_is_answered (s : Schema) (query operatorTarget : string)
    (fragments_ : gmap string Operator) (operatorsMap : list (string * Operator))
    (errs : list string) :
  ParseQueryAndCheckNames query = (fragments_, operatorsMap, errs) ->
  Forall (fun kv => forallb spreadFree (op_selection (snd kv)) = true) operatorsMap ->
  exists N,
    Resolve_ N s query operatorTarget <> OutOfFuel
    /\ forall fuel, (N <= fuel)%nat ->
         Resolve_ fuel s query operatorTarget = Resolve_ N s query operatorTarget.
Proof.
  intros Hparse Hfree.
  destruct (operators_terminate s operatorsMap Hfree) as [N HN].
  exists N. unfold Resolve. rewrite Hparse.
  destruct (0 <? length errs)%nat; [split; [discriminate | reflexivity]|].
  assert (Hrun : forall key operator, In (key, operator) operatorsMap ->
            returning (start_ N operator) (initialCtx fragments_ s) <> OutOfFuel
            /\ forall fuel, (N <= fuel)%nat ->
                 returning (start_ fuel operator) (initialCtx fragments_ s)
                 = returning (start_ N operator) (initialCtx fragments_ s)).
  { intros key operator Hin.
    destruct (HN (key, operator) Hin (initialCtx fragments_ s) eq_refl) as [He Hst].
    cbn [snd] in He, Hst. unfold returning, mbind, outcome_mbind, outcome_bind. split.
    - destruct (start_ N operator (initialCtx fragments_ s)) as [[res c]| |];
        [discriminate | discriminate | now destruct He].
    - intros fuel Hf. now rewrite (Hst fuel Hf). }
  destruct operatorsMap as [|[key operator] [|kv2 rest]].
  - split; [discriminate | reflexivity].
  - cbn [length Resolve_each].
    destruct (Hrun key operator (or_introl eq_refl)) as [He Hst].
    assert (Heach : forall fuel,
              returning (res ← start_ fuel operator; mret res) (initialCtx fragments_ s)
              = returning (start_ fuel operator) (initialCtx fragments_ s)).
    { intros fuel. unfold returning, mbind, outcome_mbind, outcome_bind, M_bind.
      now destruct (start_ fuel operator (initialCtx fragments_ s)) as [[res c]| |]. }
    fold (initialCtx fragments_ s). split.
    + now rewrite Heach.
    + intros fuel Hf. rewrite !Heach. now apply Hst.
  - cbn [length].
    destruct (bool_decide (operatorTarget = EmptyString));
      [split; [discriminate | reflexivity]|].
    destruct (reflect.assoc operatorTarget ((key, operator) :: kv2 :: rest))
      as [found|] eqn:Ea; [|split; [discriminate | reflexivity]].
    destruct (assoc_In _ _ _ Ea) as [key' Hin].
    fold (initialCtx fragments_ s). exact (Hrun key' found Hin).
Qed.

End ExecutorCoverage.

(** * The properties at work *)

(** ** The properties at work on the todo schema *)

Import Todos.

(** A nil function field: the member [later:null], nothing recorded *)
Lemma nil_method_resolves_to_null_witness :
  runContent 3 [SelField (field "later" [] [])] root QueryRoot 1%Z (ctx0 255)
  = Done (quoted "later" +:+ ":null", ctx0 255).
Proof.
  exact (proj2 (proj2
    (nil_method_resolves_to_null (fun _ => true) (fun _ _ => "0") (fun z => z)
       (fun z => z) (fun z => z) host ∅
       0 (field "later" [] []) root (reflect.VNil reflect.TFunc)
       QueryRoot (methodObj "Later" later) 1%Z (ctx0 255)
       eq_refl eq_refl eq_refl eq_refl))).
Defined.






(** The loop returns at the first failure: in [updateTodo(title: 1, id: 2)]
    the literal of [id] would not fit its string input either, and only the
    error of [title] is recorded. *)
Lemma only_first_mismatch_is_recorded :
  matchInputValue (fun z => z) (fun z => z) ∅ ∅ (intLiteral 2)
    (reflect.VString EmptyString) (stringInput "Id")
  = Done (Mismatch "function arguments type missmatch expected a string")
  /\ match run 3 (field "updateTodo" [("title", intLiteral 1); ("id", intLiteral 2)] [])
             (reflect.VFunc 1) (methodObj "UpdateTodo" updateTodo) 1%Z (ctx0 255) with
     | Done (_, ctx') =>
       errors ctx'
       = ["function arguments type missmatch expected a string, function: updateTodo, property: title"]
       /\ ~ In "function arguments type missmatch expected a string, function: updateTodo, property: id"
              (errors ctx')
     | _ => False
     end.
Proof.
  split; [vm_compute; reflexivity|].
  vm_compute. split; [reflexivity|]. intros [H|[]]. discriminate H.
Qed.


(** [deleteTodo]: the error of the method, and its value all the same *)
Lemma method_error_is_recorded_and_value_serialised_witness :
  run 2 (field "deleteTodo" [] []) (reflect.VFunc 2)
    (methodObj "DeleteTodo" deleteTodo) 1%Z (ctx0 255)
  = Done ((quoted "1", false),
          mkCtx ∅ (schemaWith 255) [] [] ["not found"] [(2, [])]).
Proof.
  exact (proj1 (proj2
    (method_error_is_recorded_and_value_serialised (fun _ => true) (fun _ _ => "0")
       (fun z => z) (fun z => z) (fun z => z) host ∅
       0 (field "deleteTodo" [] []) (reflect.VFunc 2)
       (methodObj "DeleteTodo" deleteTodo) deleteTodo 1%Z (ctx0 255)
       [] [] (ctx0 255) 2 1 "not found" (reflect.VString "1")
       eq_refl eq_refl eq_refl eq_refl eq_refl eq_refl eq_refl eq_refl eq_refl))
    eq_refl eq_refl ltac:(discriminate)).
Defined.


(** ** The further properties at work on the todo schema *)

Import Cases.

(** The field [nope] resolves alike with and without an earlier error. *)
Lemma errors_never_change_the_response_witness :
  exists c2',
    runField 1 (field "nope" [] []) root QueryRoot 1%Z ctxAfterError
    = Done ((quoted "nope" +:+ ":null", true), c2')
    /\ same_but_errors
         (mkCtx ∅ (schemaWith 255) [] [] ["field nope does not exists on QueryRoot"] []) c2'.
Proof.
  apply (proj1 (proj2 (proj2
    (errors_never_change_the_response (fun _ => true) (fun _ _ => "0") (fun z => z)
       (fun z => z) (fun z => z) host ∅ 1 (ctx0 255) ctxAfterError
       (conj eq_refl (conj eq_refl (conj eq_refl (conj eq_refl eq_refl)))))))).
  reflexivity.
Defined.

(** The unknown field: null, errored, and one error more than before *)
Lemma errored_is_null_and_recorded_witness :
  quoted "nope" +:+ ":null" = quoted (memberKey (field "nope" [] [])) +:+ ":null"
  /\ (length (errors (ctx0 255))
      < length ["field nope does not exists on QueryRoot"])%nat.
Proof.
  apply (proj2
    (errored_is_null_and_recorded (fun _ => true) (fun _ _ => "0") (fun z => z)
       (fun z => z) (fun z => z) host ∅
       1 (field "nope" [] []) root QueryRoot 1%Z (ctx0 255)
       (mkCtx ∅ (schemaWith 255) [] [] ["field nope does not exists on QueryRoot"] [])
       (quoted "nope" +:+ ":null"))).
  reflexivity.
Defined.

(** [...F] in a document without fragments *)
Lemma unknown_fragment_is_skipped_witness :
  runContent 1 [SelFragmentSpread "F"] root QueryRoot 1%Z (ctx0 255)
  = Done (EmptyString, mkCtx ∅ (schemaWith 255) [] [] ["unknown fragment F"] []).
Proof.
  rewrite (unknown_fragment_is_skipped (fun _ => true) (fun _ _ => "0") (fun z => z)
             (fun z => z) (fun z => z) host ∅
             0 "F" [] root QueryRoot 1%Z (ctx0 255) eq_refl).
  reflexivity.
Defined.

(** [fragment F on Todo { ...F id }], spread on a todo *)
Lemma fragment_cycle_never_returns_witness :
  runContent 1000 [SelFragmentSpread "F"] todo1 Todo 1%Z ctxWithF = OutOfFuel.
Proof.
  exact (fragment_cycle_never_returns (fun _ => true) (fun _ _ => "0") (fun z => z)
           (fun z => z) (fun z => z) host ∅
           1000 "F" operatorF fragmentF [SelField (field "id" [] [])] []
           todo1 Todo 1%Z ctxWithF eq_refl eq_refl eq_refl).
Defined.


(** A subscription is refused without a look at its selection set. *)
Lemma start_rejects_other_operations_witness :
  runStart 0 subscription (ctx0 255)
  = Done ("{}", mkCtx ∅ (schemaWith 255) [] [] ["subscription not suppored yet"] []).
Proof.
  exact (proj1
    (start_rejects_other_operations (fun _ => true) (fun _ _ => "0") (fun z => z)
       (fun z => z) (fun z => z) host ∅
       0 subscription (ctx0 255) ltac:(discriminate) ltac:(discriminate))).
Defined.

(** [id { title }] on a todo, and [todos] without a selection set *)
Lemma selection_must_fit_the_type_witness :
  run 1 (field "id" [] [SelField (field "title" [] [])]) (reflect.VString "1")
    (leaf "Id") 1%Z (ctx0 255)
  = Done (("null", true),
          mkCtx ∅ (schemaWith 255) [] [] ["field id cannot have a selection"] [])
  /\ run 1 (field "todo" [] []) todo1 Todo 1%Z (ctx0 255)
     = Done (("null", true),
             mkCtx ∅ (schemaWith 255) [] [] ["field todo must have a selection"] []).
Proof.
  split.
  - exact (proj1
      (selection_must_fit_the_type (fun _ => true) (fun _ _ => "0") (fun z => z)
         (fun z => z) (fun z => z) host ∅
         0 (field "id" [] [SelField (field "title" [] [])]) (reflect.VString "1")
         (leaf "Id") 1%Z (ctx0 255)) eq_refl ltac:(discriminate)).
  - exact (proj2
      (selection_must_fit_the_type (fun _ => true) (fun _ _ => "0") (fun z => z)
         (fun z => z) (fun z => z) host ∅
         0 (field "todo" [] []) todo1 Todo 1%Z (ctx0 255)) (or_introl eq_refl) eq_refl).
Defined.

(** The nil [next] of the root *)
Lemma pointer_is_null_or_its_pointee_witness :
  run 1 (field "next" [] [SelField (field "id" [] [])])
    (reflect.VNil (reflect.TPtr TodoType)) nextField 1%Z (ctx0 255)
  = Done (("null", false), ctx0 255).
Proof.
  exact (proj1
    (pointer_is_null_or_its_pointee (fun _ => true) (fun _ _ => "0") (fun z => z)
       (fun z => z) (fun z => z) host ∅
       0 (field "next" [] [SelField (field "id" [] [])]) nextField 1%Z (ctx0 255) eq_refl)
    (reflect.VNil (reflect.TPtr TodoType)) (or_intror (conj eq_refl eq_refl))).
Defined.

(** A reference to [Todo] in a schema whose types do not have it *)
Lemma object_reference_is_looked_up_witness :
  run 1 (field "item" [] [SelField (field "id" [] [])]) todo1 todoRef 1%Z (ctx0 255)
  = Done (("null", true),
          mkCtx ∅ (schemaWith 255) [] [] ["field item cannot have a selection"] []).
Proof.
  exact (proj1
    (object_reference_is_looked_up (fun _ => true) (fun _ _ => "0") (fun z => z)
       (fun z => z) (fun z => z) host ∅
       0 (field "item" [] [SelField (field "id" [] [])]) todo1 todoRef 1%Z (ctx0 255)
       eq_refl ltac:(discriminate)) eq_refl).
Defined.

(** [todos] over a nil slice *)
Lemma absent_list_is_null_witness :
  run 1 (field "todos" [] [SelField (field "id" [] [])])
    (reflect.VNil (reflect.TSlice TodoType)) todosField 1%Z (ctx0 255)
  = Done (("null", false), ctx0 255).
Proof.
  exact (proj1
    (absent_list_is_null (fun _ => true) (fun _ _ => "0") (fun z => z)
       (fun z => z) (fun z => z) host ∅
       0 (field "todos" [] [SelField (field "id" [] [])]) todosField 1%Z (ctx0 255) eq_refl)
    (reflect.VNil (reflect.TSlice TodoType)) (or_intror (conj eq_refl eq_refl))).
Defined.


(** The value [red] of the enum [Color] *)
Lemma enum_is_written_by_name_witness :
  runEnum 1 (field "color" [] []) red colorField 1%Z (ctx0 255)
  = Done ((quoted "RED", false), ctx0 255).
Proof.
  exact (proj1
    (enum_is_written_by_name (fun _ => true) (fun _ _ => "0") (fun z => z)
       (fun z => z) (fun z => z) host enums
       0 (field "color" [] []) red colorField Color 1%Z (ctx0 255) eq_refl eq_refl)
    "RED" eq_refl).
Defined.

(** A value of the defined string type [Color] where a leaf is expected: it
    is no [string] for the type switch *)
Lemma unsupported_leaf_is_silently_null_witness :
  valueToJson (fun _ => true) (fun _ _ => "0") (fun z => z) red
  = ("null", Some "invalid data type")
  /\ run 1 (field "id" [] []) red (leaf "Id") 1%Z (ctx0 255)
     = Done (("null", false), ctx0 255).
Proof.
  exact (unsupported_leaf_is_silently_null (fun _ => true) (fun _ _ => "0") (fun z => z)
           (fun z => z) (fun z => z) host ∅
           0 (field "id" [] []) red (leaf "Id") 1%Z (ctx0 255)
           eq_refl eq_refl ltac:(discriminate) eq_refl).
Defined.

(** The integer 42 as a leaf *)
Lemma leaf_token_reads_back_witness :
  exists token,
    run 1 (field "id" [] []) (reflect.VInt reflect.Int 42) (leaf "Id") 1%Z (ctx0 255)
    = Done ((token, false), ctx0 255)
    /\ parse_decimal token = Some 42%Z.
Proof.
  exact (proj1
    (leaf_token_reads_back (fun _ => true) (fun _ _ => "0") (fun z => z)
       (fun z => z) (fun z => z) host ∅
       0 (field "id" [] []) (leaf "Id") 1%Z (ctx0 255) eq_refl eq_refl)
    reflect.Int 42%Z).
Defined.

(** The list [a, b] into a slice of strings *)
Lemma list_literal_fills_the_slice_witness :
  coerce ∅ (listLiteral [stringLiteral "a"; stringLiteral "b"])
    (reflect.VNil (reflect.TSlice reflect.TString)) tagsInput
  = Done (Matched (reflect.VSlice reflect.TString
                     [reflect.VString "a"; reflect.VString "b"])).
Proof.
  exact (proj1 (proj1
    (list_literal_fills_the_slice (fun z => z) (fun z => z) enums
       ∅ (listLiteral [stringLiteral "a"; stringLiteral "b"]) reflect.TString
       tagsInput (stringInput EmptyString)
       (conj eq_refl (conj eq_refl eq_refl)) eq_refl eq_refl eq_refl)
    [reflect.VString "a"; reflect.VString "b"]
    ltac:(repeat (constructor; try reflexivity)))).
Defined.

(** The object with the properties [title] and [nope] into the input of a todo *)
Lemma object_literal_fills_the_struct_witness :
  coerce ∅ (objectLiteral [("title", stringLiteral "x"); ("nope", intLiteral 1)])
    (reflect.VStruct [("Title", reflect.VString EmptyString)] []) todoInput
  = Done (Mismatch "undefined property nope").
Proof.
  exact (proj1
    (object_literal_fills_the_struct (fun z => z) (fun z => z) enums
       ∅ (objectLiteral [("title", stringLiteral "x"); ("nope", intLiteral 1)])
       (reflect.VStruct [("Title", reflect.VString EmptyString)] [])
       (reflect.VStruct [("Title", reflect.VString "x")] [])
       todoInput todoInput [("title", stringLiteral "x")] [] "nope" (intLiteral 1)
       (conj eq_refl (conj eq_refl eq_refl)) eq_refl eq_refl eq_refl eq_refl eq_refl)
    eq_refl).
Defined.

(** The literal 300 into an [int8] *)
Lemma integer_literal_is_wrapped_witness :
  coerce ∅ (intLiteral 300) (reflect.VInt reflect.Int8 0) (scalarInput reflect.Int8 "N")
  = Done (Matched (reflect.VInt reflect.Int8 44)).
Proof.
  exact (proj1 (proj1
    (integer_literal_is_wrapped (fun z => z) (fun z => z) enums
       ∅ (intLiteral 300) reflect.Int8 0%Z (scalarInput reflect.Int8 "N")
       (conj eq_refl (conj eq_refl eq_refl)) eq_refl eq_refl) eq_refl)).
Defined.

(** The string [x] into an optional string *)
Lemma optional_argument_is_a_pointer_witness :
  coerce ∅ (stringLiteral "x") (reflect.VNil (reflect.TPtr reflect.TString)) optionalTitle
  = Done (Matched (reflect.VPtr (reflect.VString "x"))).
Proof.
  exact (optional_argument_is_a_pointer (fun z => z) (fun z => z) enums
           ∅ (stringLiteral "x") reflect.TString optionalTitle (stringInput EmptyString)
           eq_refl eq_refl eq_refl).
Defined.

(** The names [RED] and [BLUE] into an argument of the enum [Color] *)
Lemma enum_argument_is_looked_up_witness :
  coerce ∅ (enumLiteral "BLUE") (reflect.VNamed "Color" (reflect.VString EmptyString))
    colorInput
  = Done (Mismatch "unknown enum value BLUE for enum Color")
  /\ coerce ∅ (enumLiteral "RED") (reflect.VNamed "Color" (reflect.VString EmptyString))
       colorInput
     = Done (Matched red).
Proof.
  split.
  - exact (proj1 (proj2
      (enum_argument_is_looked_up (fun z => z) (fun z => z) enums
         ∅ (enumLiteral "BLUE") (reflect.VNamed "Color" (reflect.VString EmptyString))
         colorInput eq_refl eq_refl eq_refl ltac:(discriminate)) eq_refl) eq_refl).
  - exact (proj2 (proj1 (proj2 (proj2
      (enum_argument_is_looked_up (fun z => z) (fun z => z) enums
         ∅ (enumLiteral "RED") (reflect.VNamed "Color" (reflect.VString EmptyString))
         colorInput eq_refl eq_refl eq_refl ltac:(discriminate)) eq_refl))
      Color red "red" eq_refl eq_refl eq_refl) "Color" EmptyString eq_refl).
Defined.

(** The string [x] into a boolean *)
Lemma scalar_literal_needs_its_kind_witness :
  coerce ∅ (stringLiteral "x") (reflect.VBool false) (scalarInput reflect.Bool "Done")
  = Done (Mismatch "function arguments type missmatch expected a boolean").
Proof.
  exact (proj2 (proj1
    (scalar_literal_needs_its_kind (fun z => z) (fun z => z) enums
       ∅ (stringLiteral "x") (reflect.VBool false) (scalarInput reflect.Bool "Done")
       (conj eq_refl (conj eq_refl eq_refl)) ltac:(discriminate)) eq_refl)
    ltac:(discriminate) reflect.TBool eq_refl).
Defined.

(** A document with a parse error, and the target [B] of two operators *)
Lemma Resolve_returns_the_run_witness :
  Resolve (fun _ => true) (fun _ _ => "0") (fun z => z) (fun z => z) (fun z => z)
    host ∅ parsedWithError 0 (schemaWith 255) "query {" EmptyString
  = Done ("{}", ["unexpected token"])
  /\ Resolve (fun _ => true) (fun _ _ => "0") (fun z => z) (fun z => z) (fun z => z)
       host ∅ parsedQueryAndMutation 6 (schemaWith 255)
       "query A{later} mutation B{deleteTodo}" "B"
     = Done ("{" +:+ quoted "deleteTodo" +:+ ":" +:+ quoted "1" +:+ "}", ["not found"]).
Proof.
  split.
  - exact (proj1
      (Resolve_returns_the_run (fun _ => true) (fun _ _ => "0") (fun z => z)
         (fun z => z) (fun z => z) host ∅ parsedWithError
         0 (schemaWith 255) "query {" EmptyString ∅ [] ["unexpected token"] eq_refl)
      ltac:(discriminate)).
  - rewrite (proj1 (proj2
      (Resolve_returns_the_run (fun _ => true) (fun _ _ => "0") (fun z => z)
         (fun z => z) (fun z => z) host ∅ parsedQueryAndMutation
         6 (schemaWith 255) "query A{later} mutation B{deleteTodo}" "B" ∅
         [("A", mkOperator "query" "A" [SelField (field "later" [] [])] None None);
          ("B", mkOperator "mutation" "B" [SelField (field "deleteTodo" [] [])] None None)]
         [] eq_refl)
      eq_refl (le_n 2) ltac:(discriminate)
      (mkOperator "mutation" "B" [SelField (field "deleteTodo" [] [])] None None) eq_refl)).
    vm_compute. reflexivity.
Defined.

(** The document [query A{later} mutation B{deleteTodo}] has no fragment
    spread. *)
Lemma spread_free_document_is_answered_witness :
  exists N,
    Resolve (fun _ => true) (fun _ _ => "0") (fun z => z) (fun z => z) (fun z => z)
      host ∅ parsedQueryAndMutation N (schemaWith 255)
      "query A{later} mutation B{deleteTodo}" "B"
    <> OutOfFuel
    /\ forall fuel, (N <= fuel)%nat ->
         Resolve (fun _ => true) (fun _ _ => "0") (fun z => z) (fun z => z) (fun z => z)
           host ∅ parsedQueryAndMutation fuel (schemaWith 255)
           "query A{later} mutation B{deleteTodo}" "B"
         = Resolve (fun _ => true) (fun _ _ => "0") (fun z => z) (fun z => z) (fun z => z)
             host ∅ parsedQueryAndMutation N (schemaWith 255)
             "query A{later} mutation B{deleteTodo}" "B".
Proof.
  exact (spread_free_document_is_answered (fun _ => true) (fun _ _ => "0") (fun z => z)
           (fun z => z) (fun z => z) host ∅ parsedQueryAndMutation
           (schemaWith 255) "query A{later} mutation B{deleteTodo}" "B" ∅
           [("A", mkOperator "query" "A" [SelField (field "later" [] [])] None None);
            ("B", mkOperator "mutation" "B" [SelField (field "deleteTodo" [] [])] None None)]
           [] eq_refl ltac:(repeat constructor)).
Defined.
